(** * hyperbyte-pulse: the metrics pipeline of [internal/monitor]

    A shallow embedding of [internal/monitor/types.go] and
    [internal/monitor/monitor.go], with the parts of the Go runtime and
    standard library they rest on (slices and their backing arrays,
    [uint64] and [float64] arithmetic, [time.Duration], [math.Min],
    [sort.Slice]), followed by the properties of the pipeline.

    - [float64] is the kernel's binary64 type [float]; every operation of the
      source is the IEEE 754 operation of the same name.
    - [uint64], [int64] and [int32] values are [Z]; the one operation of the
      source that can wrap ([uint64] subtraction) has its wrap written out.
    - A slice is a header (array, offset, length, capacity) into a store of
      backing arrays, so that sharing between headers is visible.
    - Maps are [gmap]s.
    - The operating system, the clock and the context are an oracle [World],
      indexed by the number of calls made so far. *)

From Stdlib Require Import ZArith Floats String.
From stdpp Require Import gmap strings list fin_maps sorting.

(** ** Integers and floating point *)

(** [a - b] on [uint64]: the difference modulo 2^64. *)
Definition uint64_sub (a b : Z) : Z := ((a - b) mod 2 ^ 64)%Z.

(** The conversion [float64(x)] of an integer: [x] rounded to the nearest
    binary64 value, ties to even. *)
Definition float64_of_Z (z : Z) : float :=
  SF2Prim (binary_normalize prec emax z 0 false).

(** [x > y] on [float64]. *)
Definition float64_gt (x y : float) : bool := PrimFloat.ltb y x.

(** [math.Min]: -Inf wins, then NaN, then -0 before +0, then the smaller. *)
Definition math_IsInf_neg (x : float) : bool :=
  PrimFloat.eqb x neg_infinity.

Definition math_Min (x y : float) : float :=
  if math_IsInf_neg x || math_IsInf_neg y then neg_infinity
  else if PrimFloat.is_nan x || PrimFloat.is_nan y then nan
  else if PrimFloat.eqb x 0 && PrimFloat.eqb x y
       then (if PrimFloat.get_sign x then x else y)
  else if PrimFloat.ltb x y then x else y.

(** ** The order of [float64] *)

(** A key for every binary64 value but NaN, under which [<] is the
    lexicographic order: the class (-Inf, negative, zero, positive, +Inf),
    then the exponent, then the mantissa, both negated for negative values. *)
Definition sf_key (x : spec_float) : Z * Z * Z :=
  match x with
  | S754_infinity true => (-2, 0, 0)
  | S754_finite true m e => (-1, - e, - Z.pos m)
  | S754_zero _ => (0, 0, 0)
  | S754_nan => (0, 0, 0)
  | S754_finite false m e => (1, e, Z.pos m)
  | S754_infinity false => (2, 0, 0)
  end%Z.

Definition float_key (x : float) : Z * Z * Z := sf_key (Prim2SF x).

Definition lex_lt (a b : Z * Z * Z) : Prop :=
  (a.1.1 < b.1.1 \/ (a.1.1 = b.1.1 /\
     (a.1.2 < b.1.2 \/ (a.1.2 = b.1.2 /\ a.2 < b.2))))%Z.


(** A float that is zero, or finite with the mantissa and the exponent in
    the ranges of binary64 and a magnitude (the number of digits of the
    mantissa plus the exponent) of at most [hi]. *)
Definition finite_upto (hi : Z) (x : spec_float) : Prop :=
  match x with
  | S754_zero _ => True
  | S754_finite _ m e =>
      bounded prec emax m e = true /\ (Z.pos (digits2_pos m) + e <= hi)%Z
  | _ => False
  end.

(** ** Time *)

(** An instant ([time.Time]) is its number of nanoseconds since the Unix
    epoch; a [time.Duration] is an [int64] count of nanoseconds. *)
Definition GoTime := Z.
Definition Duration := Z.

Definition minDuration : Duration := (- 2 ^ 63)%Z.
Definition maxDuration : Duration := (2 ^ 63 - 1)%Z.
Definition Second : Duration := 1000000000%Z.

(** The zero [time.Time]: January 1, year 1, 00:00:00 UTC. *)
Definition zero_Time : GoTime := (-62135596800 * 1000000000)%Z.

(** [t.Sub(u)]: the difference, saturated to the range of a Duration. *)
Definition time_Sub (t u : GoTime) : Duration :=
  let d := (t - u)%Z in
  if (d <? minDuration)%Z then minDuration
  else if (maxDuration <? d)%Z then maxDuration
  else d.

(** [d.Seconds()]: [float64(sec) + float64(nsec)/1e9], with [sec = d / Second]
    and [nsec = d % Second] (both truncated towards zero). *)
Definition Duration_Seconds (d : Duration) : float :=
  let sec := Z.quot d Second in
  let nsec := Z.rem d Second in
  (float64_of_Z sec + float64_of_Z nsec / 1e9)%float.

(** [time.Unix(sec, 0)]. *)
Definition time_Unix (sec : Z) : GoTime := (sec * 1000000000)%Z.

(** ** Errors *)

Inductive error : Type :=
| ErrSource (call : string)               (* an error of the metric source *)
| ErrCanceled                             (* ctx.Err() *)
| ErrWrap (msg : string) (cause : error). (* fmt.Errorf("msg: %w", cause) *)

(** ** Slices *)

(** A slice header: the backing array (its index in the store), the offset of
    the slice's first element in it, the length and the capacity. The nil
    slice has length and capacity 0, so its array is never read or written. *)
Record slice : Type := Slice {
  s_ptr : nat;
  s_off : nat;
  s_len : nat;
  s_cap : nat
}.

Definition nil_slice : slice := Slice 0 0 0 0.

(** The backing arrays allocated so far, for one element type. *)
Abbreviation store A := (list (list A)).

(** The elements a slice holds. *)
Definition slice_elems {A} (h : store A) (s : slice) : list A :=
  take (s_len s) (drop (s_off s) (default [] (h !! s_ptr s))).

(** [make([]T, 0, capacity)]: a new array of [capacity] zero values. *)
Definition make {A} (zero : A) (h : store A) (capacity : nat) : slice * store A :=
  (Slice (length h) 0 0 capacity, h ++ [replicate capacity zero]).

(** [s[1:]]: same array, one element further, one less of length and capacity. *)
Definition slice_from1 (s : slice) : slice :=
  Slice (s_ptr s) (S (s_off s)) (s_len s - 1) (s_cap s - 1).

(** The two element types of the series, each with its own arrays. *)
Record Heap : Type := {
  h_time : store GoTime;
  h_f64 : store float
}.

(** Element sizes in bytes, which the runtime's growth policy depends on. *)
Definition sizeof_Time : nat := 24.
Definition sizeof_float64 : nat := 8.

(** ** The data of [types.go] and [monitor.go] *)

Module ProcessInfo.
Record t : Type := {
  PID : Z;                (* int32 *)
  Name : string;
  CPUPercent : float;
  MemoryMB : float;
  MemoryPerc : float;     (* float32: a binary64 value that is a binary32 one *)
  CreateTime : GoTime;
  DiskReadKB : float;
  DiskWriteKB : float;
  DiskReadRate : float;   (* KB/s *)
  DiskWriteRate : float;  (* KB/s *)
  DiskReadPerc : float;   (* Percentage of system I/O *)
  DiskWritePerc : float;  (* Percentage of system I/O *)
  NetSentKB : float;
  NetRecvKB : float;
  NetSentRate : float;    (* KB/s *)
  NetRecvRate : float     (* KB/s *)
}.
End ProcessInfo.

Module SystemMetrics.
Record t : Type := {
  CPUPercent : float;
  MemoryPercent : float;
  TotalMemoryMB : float;
  UsedMemoryMB : float;
  Timestamp : GoTime
}.
Definition zero : t := Build_t 0 0 0 0 zero_Time.
End SystemMetrics.

Module ProcessMetrics.
Record t : Type := {
  Timestamps : slice;     (* []time.Time *)
  CPUPercent : slice;     (* []float64, as are all below *)
  MemoryMB : slice;
  DiskReadRate : slice;
  DiskWriteRate : slice;
  DiskReadPerc : slice;
  DiskWritePerc : slice;
  NetSentRate : slice;
  NetRecvRate : slice
}.
(** The eight [[]float64] headers of a series. *)
Definition floats (pm : t) : list slice :=
  [CPUPercent pm; MemoryMB pm; DiskReadRate pm; DiskWriteRate pm;
   DiskReadPerc pm; DiskWritePerc pm; NetSentRate pm; NetRecvRate pm].
End ProcessMetrics.

Inductive SortBy : Type := SortByPID | SortByName | SortByCPU | SortByMemory.

Module ProcessIOCounters.
Record t : Type := {
  ReadBytes : Z;          (* uint64 *)
  WriteBytes : Z;         (* uint64 *)
  Timestamp : GoTime
}.
End ProcessIOCounters.

(** A [*process.Process] handle of the metric source. *)
Record Process : Type := { Pid : Z }.

(** [mem.VirtualMemoryStat], the fields the monitor reads. *)
Record VirtualMemoryStat : Type := {
  vm_UsedPercent : float;
  vm_Total : Z;           (* uint64 *)
  vm_Used : Z             (* uint64 *)
}.

(** The [Monitor] struct. Its mutex is not modelled: every operation below
    runs alone. [lastNetStats] is never read or written after [NewMonitor]
    and is left out. *)
Record Monitor : Type := {
  processes : list ProcessInfo.t;
  systemMetrics : SystemMetrics.t;
  processMetrics : gmap Z ProcessMetrics.t;
  sortBy : SortBy;
  sortDesc : bool;
  metricsCapacity : nat;
  lastProcessStats : gmap Z Process;
  lastProcessIO : gmap Z ProcessIOCounters.t;
  systemIOTotal : float
}.

Definition set_processes (v : list ProcessInfo.t) (m : Monitor) : Monitor :=
  Build_Monitor v (systemMetrics m) (processMetrics m) (sortBy m) (sortDesc m)
    (metricsCapacity m) (lastProcessStats m) (lastProcessIO m) (systemIOTotal m).
Definition set_systemMetrics (v : SystemMetrics.t) (m : Monitor) : Monitor :=
  Build_Monitor (processes m) v (processMetrics m) (sortBy m) (sortDesc m)
    (metricsCapacity m) (lastProcessStats m) (lastProcessIO m) (systemIOTotal m).
Definition set_processMetrics (v : gmap Z ProcessMetrics.t) (m : Monitor) : Monitor :=
  Build_Monitor (processes m) (systemMetrics m) v (sortBy m) (sortDesc m)
    (metricsCapacity m) (lastProcessStats m) (lastProcessIO m) (systemIOTotal m).
Definition set_sorting (by_ : SortBy) (desc : bool) (m : Monitor) : Monitor :=
  Build_Monitor (processes m) (systemMetrics m) (processMetrics m) by_ desc
    (metricsCapacity m) (lastProcessStats m) (lastProcessIO m) (systemIOTotal m).
Definition set_lastProcessStats (v : gmap Z Process) (m : Monitor) : Monitor :=
  Build_Monitor (processes m) (systemMetrics m) (processMetrics m) (sortBy m)
    (sortDesc m) (metricsCapacity m) v (lastProcessIO m) (systemIOTotal m).
Definition set_lastProcessIO (v : gmap Z ProcessIOCounters.t) (m : Monitor) : Monitor :=
  Build_Monitor (processes m) (systemMetrics m) (processMetrics m) (sortBy m)
    (sortDesc m) (metricsCapacity m) (lastProcessStats m) v (systemIOTotal m).
Definition set_systemIOTotal (v : float) (m : Monitor) : Monitor :=
  Build_Monitor (processes m) (systemMetrics m) (processMetrics m) (sortBy m)
    (sortDesc m) (metricsCapacity m) (lastProcessStats m) (lastProcessIO m) v.

(** ** The outside world *)

(** What the metric source (gopsutil), the clock and the context answer. The
    first argument is the number of calls made before this one, so that two
    reads of the same thing may differ. [None] is a call that returns an
    error. *)
Record World : Type := {
  cpu_Percent : nat -> option (list float);
  mem_VirtualMemory : nat -> option VirtualMemoryStat;
  process_Pids : nat -> option (list Z);
  process_NewProcess : nat -> Z -> bool;          (* true: no error *)
  proc_Name : nat -> Z -> option string;
  proc_CPUPercent : nat -> Z -> option float;
  proc_MemoryPercent : nat -> Z -> option float;  (* float32 *)
  proc_MemoryInfo : nat -> Z -> option Z;         (* RSS, uint64 *)
  proc_CreateTime : nat -> Z -> option Z;         (* milliseconds, int64 *)
  proc_IOCounters : nat -> Z -> option (Z * Z);   (* ReadBytes, WriteBytes *)
  time_Now : nat -> GoTime;
  ctx_Done : nat -> bool
}.

(** The state a run threads: the calls made so far, the arrays allocated so
    far, and the monitor. *)
Record State : Type := {
  tick : nat;
  heap : Heap;
  mon : Monitor
}.

Definition bump (n : nat) (st : State) : State :=
  Build_State (n + tick st) (heap st) (mon st).
Definition set_heap (h : Heap) (st : State) : State :=
  Build_State (tick st) h (mon st).
Definition set_mon (m : Monitor) (st : State) : State :=
  Build_State (tick st) (heap st) m.

(** [NewMonitor]. *)
Definition NewMonitor : Monitor := {|
  processes := [];
  systemMetrics := SystemMetrics.zero;
  processMetrics := ∅;
  sortBy := SortByCPU;
  sortDesc := true;
  metricsCapacity := 60;
  lastProcessStats := ∅;
  lastProcessIO := ∅;
  systemIOTotal := 0
|}.

(** The program's first state: nothing called, nothing allocated. *)
Definition initial_State : State := Build_State 0 (Build_Heap [] []) NewMonitor.

(** [calculateSystemIOTotal]: the constant baseline, 100 MB/s in KB/s. *)
Definition calculateSystemIOTotal : float := (100 * 1024)%float.

(** The cap of [updateProcessMetrics] ([maxProcesses := 150]). *)
Definition maxProcesses : nat := 150.

(** ** A sort and a growth policy to run the program with *)

(** [sort.Slice] and the growth of [append] are specified below by what they
    guarantee. To run the monitor on concrete inputs, this is the insertion
    sort the library uses on short slices: each element in turn moves left while it is less than its left
    neighbour. [bubble] works on the sorted prefix in reverse. *)
Fixpoint bubble {A} (less : A -> A -> bool) (x : A) (rprefix : list A) : list A :=
  match rprefix with
  | [] => [x]
  | y :: rest => if less x y then y :: bubble less x rest else x :: y :: rest
  end.

Definition insertionSort (A : Type) (less : A -> A -> bool) (l : list A) : list A :=
  rev (foldl (fun rprefix x => bubble less x rprefix) [] l).

(** The growth of a full slice as the runtime computes it ([nextslicecap]),
    before rounding up to an allocation size class: the needed length if that
    is more than double, else double below 256 elements, else steps of a
    quarter plus 192. [fuel] bounds the steps. *)
Fixpoint grow_steps (fuel newcap newLen : nat) : nat :=
  match fuel with
  | O => newLen
  | S fuel' =>
      let newcap' := newcap + (newcap + 3 * 256) / 4 in
      if newLen <=? newcap' then newcap' else grow_steps fuel' newcap' newLen
  end.

Definition nextslicecap (elemSize oldCap newLen : nat) : nat :=
  let doublecap := oldCap + oldCap in
  if doublecap <? newLen then newLen
  else if oldCap <? 256 then doublecap
  else grow_steps newLen oldCap newLen.

(** ** The specification's rate, and data points *)

(** The disk rate in the words of the specification: the byte difference
    over 1024, over the seconds between the two reads. *)
Definition spec_rate (currentBytes lastBytes : Z) (deltaSeconds : float) : float :=
  (float64_of_Z (currentBytes - lastBytes) / 1024 / deltaSeconds)%float.

(** One data point, as [AddMetric] takes it. *)
Record MetricPoint : Type := {
  p_timestamp : GoTime;
  p_cpu : float;
  p_memory : float;
  p_diskReadRate : float;
  p_diskWriteRate : float;
  p_diskReadPerc : float;
  p_diskWritePerc : float;
  p_netSentRate : float;
  p_netRecvRate : float
}.

(** ** Worlds to run the monitor in *)

(** A world with the live processes [pids], every one of them readable: the
    process [pid] uses [cpu pid] per cent of the CPU and no share of the
    memory, and the call number [t] finds the I/O counters [io t] and the
    clock at [now t]. The system totals can be read when [sys_ok]. The
    context is never done. *)
Definition test_world (sys_ok : bool) (pids : list Z) (cpu : Z -> float)
    (io : nat -> Z * Z) (now : nat -> GoTime) : World := {|
  cpu_Percent := fun _ => if sys_ok then Some [12.5%float] else None;
  mem_VirtualMemory := fun _ =>
    Some (Build_VirtualMemoryStat 50 8589934592 4294967296);
  process_Pids := fun _ => Some pids;
  process_NewProcess := fun _ _ => true;
  proc_Name := fun _ _ => Some "proc"%string;
  proc_CPUPercent := fun _ pid => Some (cpu pid);
  proc_MemoryPercent := fun _ _ => Some 0%float;
  proc_MemoryInfo := fun _ _ => Some 1048576%Z;
  proc_CreateTime := fun _ _ => Some 1700000000000%Z;
  proc_IOCounters := fun t _ => Some (io t);
  time_Now := now;
  ctx_Done := fun _ => false
|}.

(** A clock that advances a millisecond per call. *)
Definition ms_clock (t : nat) : GoTime := (Z.of_nat t * 1000000)%Z.

(** Processes 1, 2 and 3 with CPU% 90, 10 and 5, enumerated out of order. *)
Definition cpu_three (pid : Z) : float :=
  if (pid =? 1)%Z then 90%float else if (pid =? 2)%Z then 10%float else 5%float.
Definition world_three : World :=
  test_world true [3; 1; 2]%Z cpu_three (fun _ => (0, 0)%Z) ms_clock.

(** Two hundred live processes, the busier the higher the pid. *)
Definition world_many : World :=
  test_world true (Z.of_nat <$> seq 1 200) float64_of_Z (fun _ => (0, 0)%Z) ms_clock.

(** Process 1 read twice, a second apart: the first detailed read (calls 0 to
    6) finds the counters [first] at instant 0, a later one finds [second]
    at one second. *)
Definition world_io (first second : Z * Z) : World :=
  test_world true [1]%Z (fun _ => 0%float)
    (fun t => if t <? 7 then first else second)
    (fun t => if t <? 7 then 0%Z else 1000000000%Z).


(** The point at instant [t] with the value [v] in every column. *)
Definition point (t : Z) (v : float) : MetricPoint := Build_MetricPoint t v v v v v v v v.

(** A world with another enumeration of the pids, one with another
    context, and one with other shares of the memory. *)
Definition with_process_Pids (pids : nat -> option (list Z)) (w : World) : World := {|
  cpu_Percent := cpu_Percent w;
  mem_VirtualMemory := mem_VirtualMemory w;
  process_Pids := pids;
  process_NewProcess := process_NewProcess w;
  proc_Name := proc_Name w;
  proc_CPUPercent := proc_CPUPercent w;
  proc_MemoryPercent := proc_MemoryPercent w;
  proc_MemoryInfo := proc_MemoryInfo w;
  proc_CreateTime := proc_CreateTime w;
  proc_IOCounters := proc_IOCounters w;
  time_Now := time_Now w;
  ctx_Done := ctx_Done w
|}.

Definition with_ctx_Done (done : nat -> bool) (w : World) : World := {|
  cpu_Percent := cpu_Percent w;
  mem_VirtualMemory := mem_VirtualMemory w;
  process_Pids := process_Pids w;
  process_NewProcess := process_NewProcess w;
  proc_Name := proc_Name w;
  proc_CPUPercent := proc_CPUPercent w;
  proc_MemoryPercent := proc_MemoryPercent w;
  proc_MemoryInfo := proc_MemoryInfo w;
  proc_CreateTime := proc_CreateTime w;
  proc_IOCounters := proc_IOCounters w;
  time_Now := time_Now w;
  ctx_Done := done
|}.

Definition with_proc_MemoryPercent (percent : nat -> Z -> option float) (w : World)
    : World := {|
  cpu_Percent := cpu_Percent w;
  mem_VirtualMemory := mem_VirtualMemory w;
  process_Pids := process_Pids w;
  process_NewProcess := process_NewProcess w;
  proc_Name := proc_Name w;
  proc_CPUPercent := proc_CPUPercent w;
  proc_MemoryPercent := percent;
  proc_MemoryInfo := proc_MemoryInfo w;
  proc_CreateTime := proc_CreateTime w;
  proc_IOCounters := proc_IOCounters w;
  time_Now := time_Now w;
  ctx_Done := ctx_Done w
|}.

(** Processes 1, 2 and 3 with CPU% 90, 10 and 5, where process 3 uses half
    of the memory and the others none. *)
Definition world_three_memory : World :=
  with_proc_MemoryPercent
    (fun _ pid => Some (if (pid =? 3)%Z then 50%float else 0%float)) world_three.

(** Processes 1, 2 and 3 under a context that is done from the call number
    22 on: after the first pass of the first cycle. *)
Definition world_cancelled : World :=
  with_ctx_Done (fun t => 22 <=? t) world_three.

(** Processes 1, 2 and 3 at the first enumeration (the call number 3);
    process 1 has exited at every later one. *)
Definition world_exit : World :=
  with_process_Pids (fun t => Some (if t <? 4 then [3; 1; 2]%Z else [3; 2]%Z))
    world_three.

(** * The program *)

Section Program.

(** The capacity a slice gets when [append] outgrows its array, from the
    element size, the old capacity and the needed length. The language only
    promises that the new array is large enough. *)
Variable growslice : nat -> nat -> nat -> nat.
Hypothesis growslice_fits :
  forall elemSize oldCap newLen, newLen <= growslice elemSize oldCap newLen.

(** A comparison the sort can order a list by: a strict weak order on the
    elements of the list. *)
Definition strict_weak_on {A} (less : A -> A -> bool) (l : list A) : Prop :=
  (forall x, x ∈ l -> less x x = false) /\
  (forall x y z, x ∈ l -> y ∈ l -> z ∈ l ->
     less x y = true -> less y z = true -> less x z = true) /\
  (forall x y z, x ∈ l -> y ∈ l -> z ∈ l ->
     less x z = true -> less x y = true \/ less y z = true).

(** [sort.Slice(x, less)] as the slice it leaves: a rearrangement of [x] in
    which no element is less than an earlier one, when [less] is an ordering.
    The order among equal elements is not fixed. *)
Variable sort_Slice : forall A : Type, (A -> A -> bool) -> list A -> list A.
Hypothesis sort_Slice_perm :
  forall (A : Type) (less : A -> A -> bool) (l : list A),
    sort_Slice A less l ≡ₚ l.
Hypothesis sort_Slice_sorted :
  forall (A : Type) (less : A -> A -> bool) (l : list A),
    strict_weak_on less l ->
    StronglySorted (fun x y => less y x = false) (sort_Slice A less l).

Variable w : World.

(** ** Slices: [append] *)

(** [append(s, xs...)]. With room in the array the elements are written after
    the slice's last, in place; without, a new array of the grown capacity
    gets the slice's elements followed by [xs]. *)
Definition append {A} (zero : A) (elemSize : nat) (h : store A) (s : slice)
    (xs : list A) : slice * store A :=
  let newLen := s_len s + length xs in
  if newLen <=? s_cap s then
    (Slice (s_ptr s) (s_off s) newLen (s_cap s),
     alter (list_inserts (s_off s + s_len s) xs) (s_ptr s) h)
  else
    let newcap := growslice elemSize (s_cap s) newLen in
    (Slice (length h) 0 newLen newcap,
     h ++ [slice_elems h s ++ xs ++ replicate (newcap - newLen) zero]).

Definition append_Time := @append GoTime zero_Time sizeof_Time.
Definition append_float64 := @append float 0%float sizeof_float64.

(** ** [types.go] *)

(** [NewProcessMetrics]: nine empty slices of the given capacity. *)
Definition NewProcessMetrics (h : Heap) (capacity : nat) : ProcessMetrics.t * Heap :=
  let '(ts, ht) := make zero_Time (h_time h) capacity in
  let hf := h_f64 h in
  let '(cpu, hf) := make 0%float hf capacity in
  let '(memory, hf) := make 0%float hf capacity in
  let '(diskReadRate, hf) := make 0%float hf capacity in
  let '(diskWriteRate, hf) := make 0%float hf capacity in
  let '(diskReadPerc, hf) := make 0%float hf capacity in
  let '(diskWritePerc, hf) := make 0%float hf capacity in
  let '(netSentRate, hf) := make 0%float hf capacity in
  let '(netRecvRate, hf) := make 0%float hf capacity in
  (ProcessMetrics.Build_t ts cpu memory diskReadRate diskWriteRate
     diskReadPerc diskWritePerc netSentRate netRecvRate,
   Build_Heap ht hf).

(** The rolling-window step of [AddMetric] (lines 74-86): with
    [capacity := cap(pm.Timestamps)], every slice loses its first element
    when [len(pm.Timestamps) > capacity]. *)
Definition trim (pm : ProcessMetrics.t) : ProcessMetrics.t :=
  let capacity := s_cap (ProcessMetrics.Timestamps pm) in
  if capacity <? s_len (ProcessMetrics.Timestamps pm) then
    ProcessMetrics.Build_t
      (slice_from1 (ProcessMetrics.Timestamps pm))
      (slice_from1 (ProcessMetrics.CPUPercent pm))
      (slice_from1 (ProcessMetrics.MemoryMB pm))
      (slice_from1 (ProcessMetrics.DiskReadRate pm))
      (slice_from1 (ProcessMetrics.DiskWriteRate pm))
      (slice_from1 (ProcessMetrics.DiskReadPerc pm))
      (slice_from1 (ProcessMetrics.DiskWritePerc pm))
      (slice_from1 (ProcessMetrics.NetSentRate pm))
      (slice_from1 (ProcessMetrics.NetRecvRate pm))
  else pm.

(** [AddMetric]: nine appends, then the rolling-window step. *)
Definition AddMetric (h : Heap) (pm : ProcessMetrics.t) (timestamp : GoTime)
    (cpu memory diskReadRate diskWriteRate diskReadPerc diskWritePerc
     netSentRate netRecvRate : float) : ProcessMetrics.t * Heap :=
  let '(ts, ht) := append_Time (h_time h) (ProcessMetrics.Timestamps pm) [timestamp] in
  let hf := h_f64 h in
  let '(s1, hf) := append_float64 hf (ProcessMetrics.CPUPercent pm) [cpu] in
  let '(s2, hf) := append_float64 hf (ProcessMetrics.MemoryMB pm) [memory] in
  let '(s3, hf) := append_float64 hf (ProcessMetrics.DiskReadRate pm) [diskReadRate] in
  let '(s4, hf) := append_float64 hf (ProcessMetrics.DiskWriteRate pm) [diskWriteRate] in
  let '(s5, hf) := append_float64 hf (ProcessMetrics.DiskReadPerc pm) [diskReadPerc] in
  let '(s6, hf) := append_float64 hf (ProcessMetrics.DiskWritePerc pm) [diskWritePerc] in
  let '(s7, hf) := append_float64 hf (ProcessMetrics.NetSentRate pm) [netSentRate] in
  let '(s8, hf) := append_float64 hf (ProcessMetrics.NetRecvRate pm) [netRecvRate] in
  (trim (ProcessMetrics.Build_t ts s1 s2 s3 s4 s5 s6 s7 s8), Build_Heap ht hf).

(** ** [monitor.go]: reads of the registry *)

(** [GetProcesses]: a copy of the published list. *)
Definition GetProcesses (st : State) : list ProcessInfo.t := processes (mon st).

(** [GetSystemMetrics]. *)
Definition GetSystemMetrics (st : State) : SystemMetrics.t := systemMetrics (mon st).

(** [GetProcessMetrics]: for a tracked pid, a new series whose every slice is
    [append([]T(nil), stored...)]; [None] is the nil pointer. *)
Definition GetProcessMetrics (st : State) (pid : Z) : option ProcessMetrics.t * State :=
  match processMetrics (mon st) !! pid with
  | Some metrics =>
      let ht := h_time (heap st) in
      let '(ts, ht) := append_Time ht nil_slice
                         (slice_elems ht (ProcessMetrics.Timestamps metrics)) in
      let hf := h_f64 (heap st) in
      let '(s1, hf) := append_float64 hf nil_slice
                         (slice_elems hf (ProcessMetrics.CPUPercent metrics)) in
      let '(s2, hf) := append_float64 hf nil_slice
                         (slice_elems hf (ProcessMetrics.MemoryMB metrics)) in
      let '(s3, hf) := append_float64 hf nil_slice
                         (slice_elems hf (ProcessMetrics.DiskReadRate metrics)) in
      let '(s4, hf) := append_float64 hf nil_slice
                         (slice_elems hf (ProcessMetrics.DiskWriteRate metrics)) in
      let '(s5, hf) := append_float64 hf nil_slice
                         (slice_elems hf (ProcessMetrics.DiskReadPerc metrics)) in
      let '(s6, hf) := append_float64 hf nil_slice
                         (slice_elems hf (ProcessMetrics.DiskWritePerc metrics)) in
      let '(s7, hf) := append_float64 hf nil_slice
                         (slice_elems hf (ProcessMetrics.NetSentRate metrics)) in
      let '(s8, hf) := append_float64 hf nil_slice
                         (slice_elems hf (ProcessMetrics.NetRecvRate metrics)) in
      (Some (ProcessMetrics.Build_t ts s1 s2 s3 s4 s5 s6 s7 s8),
       set_heap (Build_Heap ht hf) st)
  | None => (None, st)
  end.

(** [EnsureProcessMetrics]. *)
Definition EnsureProcessMetrics (st : State) (pid : Z) : State :=
  match processMetrics (mon st) !! pid with
  | Some _ => st
  | None =>
      let '(pm, h) := NewProcessMetrics (heap st) (metricsCapacity (mon st)) in
      set_mon (set_processMetrics (<[pid := pm]> (processMetrics (mon st))) (mon st))
        (set_heap h st)
  end.

(** [SetSorting]. *)
Definition SetSorting (st : State) (by_ : SortBy) (desc : bool) : State :=
  set_mon (set_sorting by_ desc (mon st)) st.

(** ** [monitor.go]: sampling one process *)

(** [getBasicProcessInfo]: four reads of the source, each kept when it
    succeeds; the error returned is always nil. *)
Definition getBasicProcessInfo (st : State) (proc : Process)
    : ProcessInfo.t * option error * State :=
  let pid := Pid proc in
  let t := tick st in
  let info := {|
    ProcessInfo.PID := pid;
    ProcessInfo.Name := default EmptyString (proc_Name w t pid);
    ProcessInfo.CPUPercent := default 0%float (proc_CPUPercent w (1 + t) pid);
    ProcessInfo.MemoryMB :=
      match proc_MemoryInfo w (3 + t) pid with
      | Some rss => (float64_of_Z rss / 1024 / 1024)%float
      | None => 0%float
      end;
    ProcessInfo.MemoryPerc := default 0%float (proc_MemoryPercent w (2 + t) pid);
    ProcessInfo.CreateTime := zero_Time;
    ProcessInfo.DiskReadKB := 0; ProcessInfo.DiskWriteKB := 0;
    ProcessInfo.DiskReadRate := 0; ProcessInfo.DiskWriteRate := 0;
    ProcessInfo.DiskReadPerc := 0; ProcessInfo.DiskWritePerc := 0;
    ProcessInfo.NetSentKB := 0; ProcessInfo.NetRecvKB := 0;
    ProcessInfo.NetSentRate := 0; ProcessInfo.NetRecvRate := 0
  |} in
  (info, None, bump 4 st).

(** The share of the system I/O budget a rate stands for (lines 347-355):
    against a positive budget, the rate over the budget times 100; else the
    rate in MB/s, capped at 100. *)
Definition diskPerc (systemIOTotal rate : float) : float :=
  if float64_gt systemIOTotal 0 then (rate / systemIOTotal * 100)%float
  else math_Min (rate / 1024)%float 100%float.

(** The rates of lines 334-357, as (read rate, write rate, read share, write
    share): computed when the cache has an entry and time has passed since,
    and zero otherwise. *)
Definition diskRates (systemIOTotal : float) (now : GoTime)
    (ReadBytes WriteBytes : Z) (last : option ProcessIOCounters.t)
    : float * float * float * float :=
  match last with
  | Some lastIO =>
      let timeDiff :=
        Duration_Seconds (time_Sub now (ProcessIOCounters.Timestamp lastIO)) in
      if float64_gt timeDiff 0 then
        let readDiff :=
          float64_of_Z (uint64_sub ReadBytes (ProcessIOCounters.ReadBytes lastIO)) in
        let writeDiff :=
          float64_of_Z (uint64_sub WriteBytes (ProcessIOCounters.WriteBytes lastIO)) in
        let readRate := (readDiff / 1024 / timeDiff)%float in
        let writeRate := (writeDiff / 1024 / timeDiff)%float in
        (readRate, writeRate,
         diskPerc systemIOTotal readRate, diskPerc systemIOTotal writeRate)
      else (0, 0, 0, 0)%float
  | None => (0, 0, 0, 0)%float
  end.

(** [getDetailedProcessInfo]: the basic reads, the clock, the creation time,
    then the I/O counters: when they are read, the cumulative KB, the rates
    against the cached counters, and the cache entry replaced by the current
    counters and instant. *)
Definition getDetailedProcessInfo (st : State) (proc : Process)
    : ProcessInfo.t * option error * State :=
  let '(info, err, st) := getBasicProcessInfo st proc in
  match err with
  | Some e => (info, Some e, st)
  | None =>
      let pid := Pid proc in
      let now := time_Now w (tick st) in
      let systemIOTotal := systemIOTotal (mon st) in
      let createTime :=
        match proc_CreateTime w (1 + tick st) pid with
        | Some ms => time_Unix (Z.quot ms 1000)
        | None => ProcessInfo.CreateTime info
        end in
      let io := proc_IOCounters w (2 + tick st) pid in
      let st := bump 3 st in
      let '(readKB, writeKB, (readRate, writeRate, readPerc, writePerc), st) :=
        match io with
        | Some (ReadBytes, WriteBytes) =>
            ((float64_of_Z ReadBytes / 1024)%float,
             (float64_of_Z WriteBytes / 1024)%float,
             diskRates systemIOTotal now ReadBytes WriteBytes
               (lastProcessIO (mon st) !! pid),
             set_mon
               (set_lastProcessIO
                  (<[pid := ProcessIOCounters.Build_t ReadBytes WriteBytes now]>
                     (lastProcessIO (mon st)))
                  (mon st))
               st)
        | None => (0%float, 0%float, (0, 0, 0, 0)%float, st)
        end in
      ({| ProcessInfo.PID := ProcessInfo.PID info;
          ProcessInfo.Name := ProcessInfo.Name info;
          ProcessInfo.CPUPercent := ProcessInfo.CPUPercent info;
          ProcessInfo.MemoryMB := ProcessInfo.MemoryMB info;
          ProcessInfo.MemoryPerc := ProcessInfo.MemoryPerc info;
          ProcessInfo.CreateTime := createTime;
          ProcessInfo.DiskReadKB := readKB;
          ProcessInfo.DiskWriteKB := writeKB;
          ProcessInfo.DiskReadRate := readRate;
          ProcessInfo.DiskWriteRate := writeRate;
          ProcessInfo.DiskReadPerc := readPerc;
          ProcessInfo.DiskWritePerc := writePerc;
          ProcessInfo.NetSentKB := 0; ProcessInfo.NetRecvKB := 0;
          ProcessInfo.NetSentRate := 0; ProcessInfo.NetRecvRate := 0 |},
       None, st)
  end.

(** [updateProcessTimeSeriesMetrics]: the series of the pid, created when
    absent, gets one more point. *)
Definition updateProcessTimeSeriesMetrics (st : State) (processInfo : ProcessInfo.t)
    : State :=
  let pid := ProcessInfo.PID processInfo in
  let '(pm, h) :=
    match processMetrics (mon st) !! pid with
    | Some pm => (pm, heap st)
    | None => NewProcessMetrics (heap st) (metricsCapacity (mon st))
    end in
  let '(pm, h) :=
    AddMetric h pm (time_Now w (tick st))
      (ProcessInfo.CPUPercent processInfo)
      (ProcessInfo.MemoryMB processInfo)
      (ProcessInfo.DiskReadRate processInfo)
      (ProcessInfo.DiskWriteRate processInfo)
      (ProcessInfo.DiskReadPerc processInfo)
      (ProcessInfo.DiskWritePerc processInfo)
      (ProcessInfo.NetSentRate processInfo)
      (ProcessInfo.NetRecvRate processInfo) in
  bump 1
    (set_mon (set_processMetrics (<[pid := pm]> (processMetrics (mon st))) (mon st))
       (set_heap h st)).

(** [GetCurrentProcessData]. *)
Definition GetCurrentProcessData (st : State) (pid : Z)
    : option ProcessInfo.t * option error * State :=
  let st := EnsureProcessMetrics st pid in
  if process_NewProcess w (tick st) pid then
    let '(processInfo, err, st) := getDetailedProcessInfo (bump 1 st) (Build_Process pid) in
    match err with
    | Some e => (None, Some e, st)
    | None => (Some processInfo, None, updateProcessTimeSeriesMetrics st processInfo)
    end
  else (None, Some (ErrSource "process.NewProcess"), bump 1 st).

(** ** [monitor.go]: the cycle *)

(** [updateSystemMetrics]. *)
Definition updateSystemMetrics (st : State) : option error * State :=
  match cpu_Percent w (tick st) with
  | None => (Some (ErrSource "cpu.Percent"), bump 1 st)
  | Some cpuPercent =>
      let cpuValue := match cpuPercent with v :: _ => v | [] => 0%float end in
      match mem_VirtualMemory w (1 + tick st) with
      | None => (Some (ErrSource "mem.VirtualMemory"), bump 2 st)
      | Some memStat =>
          let snapshot := {|
            SystemMetrics.CPUPercent := cpuValue;
            SystemMetrics.MemoryPercent := vm_UsedPercent memStat;
            SystemMetrics.TotalMemoryMB := (float64_of_Z (vm_Total memStat) / 1024 / 1024)%float;
            SystemMetrics.UsedMemoryMB := (float64_of_Z (vm_Used memStat) / 1024 / 1024)%float;
            SystemMetrics.Timestamp := time_Now w (2 + tick st)
          |} in
          (None, bump 3 (set_mon (set_systemMetrics snapshot (mon st)) st))
      end
  end.

(** The priority score of [sortProcessesByResourceUsage]. *)
Definition score (p : ProcessInfo.t) : float :=
  (ProcessInfo.CPUPercent p + ProcessInfo.MemoryPerc p)%float.

(** [sortProcessesByResourceUsage]: [less(i, j)] is [scoreI > scoreJ]. *)
Definition sortProcessesByResourceUsage (processes : list ProcessInfo.t)
    : list ProcessInfo.t :=
  sort_Slice _ (fun pi pj => float64_gt (score pi) (score pj)) processes.

(** Lines 245-250 of [updateProcessMetrics], with the cap as an argument (the
    source fixes it at [maxProcesses]): the list sorted by resource usage and
    cut to its first [cap] entries when it has more. *)
Definition topProcesses (cap : nat) (allProcesses : list ProcessInfo.t)
    : list ProcessInfo.t :=
  let allProcesses := sortProcessesByResourceUsage allProcesses in
  if cap <? length allProcesses then take cap allProcesses else allProcesses.

(** The first pass of [updateProcessMetrics] (lines 209-243) from index [i]
    on: for each pid, stop when the context is done; pause at every fiftieth;
    take the cached handle or open one, skipping the pid when that fails;
    record the handle; read the basic info and collect it. *)
Fixpoint firstPass (st : State) (i : nat) (pids : list Z)
    (allProcesses : list ProcessInfo.t) (newProcessStats : gmap Z Process)
    : (error + list ProcessInfo.t * gmap Z Process) * State :=
  match pids with
  | [] => (inr (allProcesses, newProcessStats), st)
  | pid :: rest =>
      if ctx_Done w (tick st) then (inl ErrCanceled, bump 1 st)
      else
        let st := bump 1 st in
        let st := if (0 <? i) && (i mod 50 =? 0) then bump 1 st else st in
        let '(proc, st) :=
          match lastProcessStats (mon st) !! pid with
          | Some existingProc => (Some existingProc, st)
          | None =>
              if process_NewProcess w (tick st) pid
              then (Some (Build_Process pid), bump 1 st)
              else (None, bump 1 st)
          end in
        match proc with
        | None => firstPass st (S i) rest allProcesses newProcessStats
        | Some proc =>
            let newProcessStats := <[pid := proc]> newProcessStats in
            let '(processInfo, err, st) := getBasicProcessInfo st proc in
            match err with
            | Some _ => firstPass st (S i) rest allProcesses newProcessStats
            | None =>
                firstPass st (S i) rest (allProcesses ++ [processInfo]) newProcessStats
            end
        end
  end.

(** The second pass (lines 253-266): the detailed read of every kept process
    whose handle was recorded; a read that succeeds is published and adds a
    point to the series of the pid. *)
Fixpoint secondPass (st : State) (allProcesses : list ProcessInfo.t)
    (newProcessStats : gmap Z Process) (processes : list ProcessInfo.t)
    : list ProcessInfo.t * State :=
  match allProcesses with
  | [] => (processes, st)
  | basicInfo :: rest =>
      match newProcessStats !! ProcessInfo.PID basicInfo with
      | Some proc =>
          let '(processInfo, err, st) := getDetailedProcessInfo st proc in
          match err with
          | Some _ => secondPass st rest newProcessStats processes
          | None =>
              secondPass (updateProcessTimeSeriesMetrics st processInfo) rest
                newProcessStats (processes ++ [processInfo])
          end
      | None => secondPass st rest newProcessStats processes
      end
  end.

(** The comparison of [sortProcesses]. *)
Definition sortProcesses_less (by_ : SortBy) (desc : bool) (pi pj : ProcessInfo.t)
    : bool :=
  let result :=
    match by_ with
    | SortByPID => (ProcessInfo.PID pi <? ProcessInfo.PID pj)%Z
    | SortByName => String.ltb (ProcessInfo.Name pi) (ProcessInfo.Name pj)
    | SortByCPU => PrimFloat.ltb (ProcessInfo.CPUPercent pi) (ProcessInfo.CPUPercent pj)
    | SortByMemory => PrimFloat.ltb (ProcessInfo.MemoryMB pi) (ProcessInfo.MemoryMB pj)
    end in
  if desc then negb result else result.

(** [sortProcesses]. *)
Definition sortProcesses (m : Monitor) : Monitor :=
  set_processes
    (sort_Slice _ (sortProcesses_less (sortBy m) (sortDesc m)) (processes m)) m.

(** [updateProcessMetrics]. *)
Definition updateProcessMetrics (st : State) : option error * State :=
  match process_Pids w (tick st) with
  | None => (Some (ErrSource "process.Pids"), bump 1 st)
  | Some pids =>
      let st := bump 1 st in
      let st := set_mon (set_systemIOTotal calculateSystemIOTotal (mon st)) st in
      match firstPass st 0 pids [] ∅ with
      | (inl err, st) => (Some err, st)
      | (inr (allProcesses, newProcessStats), st) =>
          let allProcesses := topProcesses maxProcesses allProcesses in
          let '(processes, st) := secondPass st allProcesses newProcessStats [] in
          (None,
           set_mon
             (sortProcesses
                (set_lastProcessStats newProcessStats
                   (set_processes processes (mon st))))
             st)
      end
  end.

(** [UpdateMetrics]. *)
Definition UpdateMetrics (st : State) : option error * State :=
  match updateSystemMetrics st with
  | (Some err, st) => (Some (ErrWrap "failed to update system metrics" err), st)
  | (None, st) =>
      match updateProcessMetrics st with
      | (Some err, st) => (Some (ErrWrap "failed to update process metrics" err), st)
      | (None, st) => (None, st)
      end
  end.

(** [updateProcessMetrics] and [UpdateMetrics] overlapped by another
    goroutine: [between] is what this goroutine does to the registry after
    the last append of the second pass and before the list is published.
    The mutex is free there (each append takes and releases it at lines
    476-478, the publication takes it at line 268), and [CleanupOldMetrics]
    is called from a goroutine of its own. *)
Definition updateProcessMetrics_overlapped (between : State -> State) (st : State)
    : option error * State :=
  match process_Pids w (tick st) with
  | None => (Some (ErrSource "process.Pids"), bump 1 st)
  | Some pids =>
      let st := bump 1 st in
      let st := set_mon (set_systemIOTotal calculateSystemIOTotal (mon st)) st in
      match firstPass st 0 pids [] ∅ with
      | (inl err, st) => (Some err, st)
      | (inr (allProcesses, newProcessStats), st) =>
          let allProcesses := topProcesses maxProcesses allProcesses in
          let '(processes, st) := secondPass st allProcesses newProcessStats [] in
          let st := between st in
          (None,
           set_mon
             (sortProcesses
                (set_lastProcessStats newProcessStats
                   (set_processes processes (mon st))))
             st)
      end
  end.

Definition UpdateMetrics_overlapped (between : State -> State) (st : State)
    : option error * State :=
  match updateSystemMetrics st with
  | (Some err, st) => (Some (ErrWrap "failed to update system metrics" err), st)
  | (None, st) =>
      match updateProcessMetrics_overlapped between st with
      | (Some err, st) => (Some (ErrWrap "failed to update process metrics" err), st)
      | (None, st) => (None, st)
      end
  end.

(** [CleanupOldMetrics]: the pids of the published list are collected, and
    every series of another pid is deleted. *)
Definition currentPIDs (m : Monitor) : gset Z :=
  list_to_set (ProcessInfo.PID <$> processes m).

Definition CleanupOldMetrics (st : State) : State :=
  set_mon
    (set_processMetrics
       (filter (fun kv => kv.1 ∈ currentPIDs (mon st)) (processMetrics (mon st)))
       (mon st))
    st.

(** ** Series as the points they hold, and the runs of the registry *)

(** [AddMetric] of one point, and of a list of points one after the other. *)
Definition AddPoint (ph : ProcessMetrics.t * Heap) (p : MetricPoint)
    : ProcessMetrics.t * Heap :=
  AddMetric ph.2 ph.1 (p_timestamp p) (p_cpu p) (p_memory p)
    (p_diskReadRate p) (p_diskWriteRate p) (p_diskReadPerc p)
    (p_diskWritePerc p) (p_netSentRate p) (p_netRecvRate p).

Definition AddPoints (ph : ProcessMetrics.t * Heap) (ps : list MetricPoint)
    : ProcessMetrics.t * Heap :=
  foldl AddPoint ph ps.

(** What a series holds: its timestamps and its eight columns of values. *)
Definition series_view (h : Heap) (pm : ProcessMetrics.t)
    : list GoTime * list (list float) :=
  (slice_elems (h_time h) (ProcessMetrics.Timestamps pm),
   slice_elems (h_f64 h) <$> ProcessMetrics.floats pm).

(** The operations on the registry, one step each. [step_wait] lets calls of
    other parts of the program go by; [step_append] is the append that a
    cycle or a detail view makes, taken alone. A cycle is one step: these
    are the runs in which no other operation falls between the appends of a
    cycle and its publication. What a cleanup does when it falls there is
    said with [UpdateMetrics_overlapped]. *)
Inductive step : State -> State -> Prop :=
| step_wait st n : step st (bump n st)
| step_GetProcessMetrics st pid : step st (GetProcessMetrics st pid).2
| step_EnsureProcessMetrics st pid : step st (EnsureProcessMetrics st pid)
| step_GetCurrentProcessData st pid : step st (GetCurrentProcessData st pid).2
| step_SetSorting st by_ desc : step st (SetSorting st by_ desc)
| step_UpdateMetrics st : step st (UpdateMetrics st).2
| step_CleanupOldMetrics st : step st (CleanupOldMetrics st)
| step_append st processInfo : step st (updateProcessTimeSeriesMetrics st processInfo).

(** The states of a run that starts with [NewMonitor]. *)
Definition reachable (st : State) : Prop := rtc step initial_State st.

(** A slice header is in order, in a store of [n] arrays and away from the
    arrays [P]: its length is within its capacity, and unless the capacity is
    0 its array is one of the store and none of [P]. *)
Definition slice_ok (P : nat -> Prop) (n : nat) (s : slice) : Prop :=
  s_len s <= s_cap s /\ (s_cap s = 0 \/ (s_ptr s < n /\ ~ P (s_ptr s))).

(** The stored series are in order and away from the arrays [Pt] (of
    instants) and [Pf] (of floats), which are arrays of the heap. *)
Definition separate (Pt Pf : nat -> Prop) (h : Heap)
    (pms : gmap Z ProcessMetrics.t) : Prop :=
  (forall p, Pt p -> p < length (h_time h)) /\
  (forall p, Pf p -> p < length (h_f64 h)) /\
  (forall pid pm, pms !! pid = Some pm ->
     slice_ok Pt (length (h_time h)) (ProcessMetrics.Timestamps pm) /\
     Forall (slice_ok Pf (length (h_f64 h))) (ProcessMetrics.floats pm)).

(** The arrays [Pt] and [Pf] are the same in two heaps. *)
Definition same_arrays (Pt Pf : nat -> Prop) (h h' : Heap) : Prop :=
  (forall p, Pt p -> h_time h' !! p = h_time h !! p) /\
  (forall p, Pf p -> h_f64 h' !! p = h_f64 h !! p).

(** The arrays a series reads: those of its slices that are not empty. *)
Definition arrays_time (v : ProcessMetrics.t) (p : nat) : Prop :=
  s_len (ProcessMetrics.Timestamps v) <> 0 /\ p = s_ptr (ProcessMetrics.Timestamps v).
Definition arrays_f64 (v : ProcessMetrics.t) (p : nat) : Prop :=
  exists s, s ∈ ProcessMetrics.floats v /\ s_len s <> 0 /\ p = s_ptr s.

(** No array at all. *)
Definition no_array (p : nat) : Prop := False.

(** The appends of [AddMetric] to the float slices, one value to each slice
    in turn, and the copies of [GetProcessMetrics], one slice after the other,
    each as one recursion over the slices. *)
Fixpoint append_each {A} (zero : A) (elemSize : nat) (h : store A)
    (ss : list slice) (xs : list A) : list slice * store A :=
  match ss, xs with
  | s :: ss, x :: xs =>
      let '(s', h) := append zero elemSize h s [x] in
      let '(ss', h) := append_each zero elemSize h ss xs in
      (s' :: ss', h)
  | _, _ => ([], h)
  end.

Fixpoint copy_each {A} (zero : A) (elemSize : nat) (h : store A)
    (ss : list slice) : list slice * store A :=
  match ss with
  | s :: ss =>
      let '(s', h) := append zero elemSize h nil_slice (slice_elems h s) in
      let '(ss', h) := copy_each zero elemSize h ss in
      (s' :: ss', h)
  | [] => ([], h)
  end.

(** What an operation owes to a series [Pt], [Pf] it does not own: when the
    stored series are separate from it before, they are after, and its
    arrays are as they were. *)
Definition keeps (st st' : State) : Prop :=
  forall Pt Pf : nat -> Prop,
    separate Pt Pf (heap st) (processMetrics (mon st)) ->
    separate Pt Pf (heap st') (processMetrics (mon st')) /\
    same_arrays Pt Pf (heap st) (heap st').

(** Two states that differ at most in the calls made, the arrays, the series
    and the counter cache: what sampling a process may change. *)
Definition same_registry (st st' : State) : Prop :=
  processes (mon st') = processes (mon st) /\
  systemMetrics (mon st') = systemMetrics (mon st) /\
  sortBy (mon st') = sortBy (mon st) /\
  sortDesc (mon st') = sortDesc (mon st) /\
  metricsCapacity (mon st') = metricsCapacity (mon st) /\
  lastProcessStats (mon st') = lastProcessStats (mon st) /\
  systemIOTotal (mon st') = systemIOTotal (mon st).

(** A slice header that reads and writes inside an array of the store. *)
Definition wf_slice {A} (h : store A) (s : slice) : Prop :=
  s_len s <= s_cap s /\
  exists arr, h !! s_ptr s = Some arr /\ s_off s + s_cap s <= length arr.

(** The slices of one element type of a series: each inside an array, no two
    in the same array. *)
Definition own_arrays {A} (h : store A) (ss : list slice) : Prop :=
  Forall (wf_slice h) ss /\ NoDup (s_ptr <$> ss).

(** The columns of values of a list of points, in the order of
    [ProcessMetrics.floats]. *)
Definition columns (ps : list MetricPoint) : list (list float) :=
  [p_cpu <$> ps; p_memory <$> ps; p_diskReadRate <$> ps; p_diskWriteRate <$> ps;
   p_diskReadPerc <$> ps; p_diskWritePerc <$> ps; p_netSentRate <$> ps;
   p_netRecvRate <$> ps].

(** ** The registry in order *)

(** A series in order in a heap: its timestamps lie inside an array, its
    eight float slices lie inside arrays of their own, and its nine slices
    have one length. *)
Definition series_ok (h : Heap) (pm : ProcessMetrics.t) : Prop :=
  wf_slice (h_time h) (ProcessMetrics.Timestamps pm) /\
  own_arrays (h_f64 h) (ProcessMetrics.floats pm) /\
  Forall (fun s => s_len s = s_len (ProcessMetrics.Timestamps pm))
    (ProcessMetrics.floats pm).

(** Two series that share no array. *)
Definition apart (pm pm' : ProcessMetrics.t) : Prop :=
  s_ptr (ProcessMetrics.Timestamps pm) <> s_ptr (ProcessMetrics.Timestamps pm') /\
  forall s s', s ∈ ProcessMetrics.floats pm -> s' ∈ ProcessMetrics.floats pm' ->
    s_ptr s <> s_ptr s'.

(** The series of a registry are in order, and no two of them share an
    array. *)
Definition registry_ok (h : Heap) (pms : gmap Z ProcessMetrics.t) : Prop :=
  (forall pid pm, pms !! pid = Some pm -> series_ok h pm) /\
  (forall pid pid' pm pm', pid <> pid' ->
     pms !! pid = Some pm -> pms !! pid' = Some pm' -> apart pm pm').

(** The point that [updateProcessTimeSeriesMetrics] records of a process
    read at the instant [now]. *)
Definition point_of (now : GoTime) (processInfo : ProcessInfo.t) : MetricPoint := {|
  p_timestamp := now;
  p_cpu := ProcessInfo.CPUPercent processInfo;
  p_memory := ProcessInfo.MemoryMB processInfo;
  p_diskReadRate := ProcessInfo.DiskReadRate processInfo;
  p_diskWriteRate := ProcessInfo.DiskWriteRate processInfo;
  p_diskReadPerc := ProcessInfo.DiskReadPerc processInfo;
  p_diskWritePerc := ProcessInfo.DiskWritePerc processInfo;
  p_netSentRate := ProcessInfo.NetSentRate processInfo;
  p_netRecvRate := ProcessInfo.NetRecvRate processInfo
|}.

(** A series' points with one more at the end. *)
Definition with_point (view : list GoTime * list (list float)) (p : MetricPoint)
    : list GoTime * list (list float) :=
  (view.1 ++ [p_timestamp p],
   zip_with (fun l x => l ++ [x]) view.2
     [p_cpu p; p_memory p; p_diskReadRate p; p_diskWriteRate p;
      p_diskReadPerc p; p_diskWritePerc p; p_netSentRate p; p_netRecvRate p]).

(** What the registry holds for a pid: the points of its series, or nothing. *)
Definition stored_view (st : State) (pid : Z)
    : option (list GoTime * list (list float)) :=
  series_view (heap st) <$> processMetrics (mon st) !! pid.

(** The points of the series of [pid] once the processes [samples], each
    with the instant of its append, have been recorded one after the other
    (see [updateProcessTimeSeriesMetrics]). *)
Definition record_samples (pid : Z) (samples : list (GoTime * ProcessInfo.t))
    (view : option (list GoTime * list (list float)))
    : option (list GoTime * list (list float)) :=
  foldl
    (fun view s =>
       if decide (ProcessInfo.PID s.2 = pid)
       then Some (with_point (default ([], replicate 8 []) view) (point_of s.1 s.2))
       else view)
    view samples.

(** Every cached handle is the handle of the pid it is cached for. *)
Definition handles_ok (st : State) : Prop :=
  forall pid proc, lastProcessStats (mon st) !! pid = Some proc -> Pid proc = pid.

(** A process reported with no network traffic. *)
Definition no_network (p : ProcessInfo.t) : Prop :=
  ProcessInfo.NetSentKB p = 0%float /\ ProcessInfo.NetRecvKB p = 0%float /\
  ProcessInfo.NetSentRate p = 0%float /\ ProcessInfo.NetRecvRate p = 0%float.

(** A series, if any, of at least one point. *)
Definition some_points (view : option (list GoTime * list (list float))) : Prop :=
  exists v, view = Some v /\ v.1 <> [].

(** * Properties *)

(** ** Slices *)

Lemma append_len {A} (zero : A) elemSize h s xs :
  s_len (append zero elemSize h s xs).1 = s_len s + length xs.
Proof. unfold append. by destruct (_ <=? _). Qed.

(** After [append], the length is within the capacity. *)
Lemma append_len_le_cap {A} (zero : A) elemSize h s xs :
  s_len (append zero elemSize h s xs).1 <= s_cap (append zero elemSize h s xs).1.
Proof.
  unfold append. destruct (_ <=? _) eqn:E; cbn [fst s_len s_cap].
  - by apply Nat.leb_le.
  - apply growslice_fits.
Qed.

Lemma append_store_length {A} (zero : A) elemSize h s xs :
  length h <= length (append zero elemSize h s xs).2.
Proof.
  unfold append. destruct (_ <=? _); cbn [snd].
  - by rewrite length_alter.
  - rewrite length_app. lia.
Qed.

Lemma append_nil_empty {A} (zero : A) elemSize (h : store A) :
  append zero elemSize h nil_slice [] = (nil_slice, h).
Proof.
  unfold append. cbn. f_equal.
  apply list_eq. intros i. destruct (decide (i = 0)) as [->|].
  - rewrite list_lookup_alter. by destruct (h !! 0).
  - by rewrite list_lookup_alter_ne.
Qed.

(** The header [append] returns: the old array when there was room, a new
    array at the end of the store when there was not. *)
Lemma append_header {A} (zero : A) elemSize h s xs :
  let r := append zero elemSize h s xs in
  (s_len s + length xs <= s_cap s /\ s_ptr r.1 = s_ptr s /\ s_cap r.1 = s_cap s) \/
  (s_cap s < s_len s + length xs /\ s_ptr r.1 = length h
   /\ length r.2 = S (length h)).
Proof.
  unfold append. destruct (_ <=? _) eqn:E; cbn.
  - left. apply Nat.leb_le in E. done.
  - right. apply Nat.leb_gt in E. rewrite length_app. cbn. repeat split; lia.
Qed.

(** [append] leaves every other array as it was. *)
Lemma append_frame {A} (zero : A) elemSize h s xs p :
  p < length h ->
  p <> s_ptr s \/ s_cap s < s_len s + length xs ->
  (append zero elemSize h s xs).2 !! p = h !! p.
Proof.
  intros Hp Hs. unfold append. destruct (_ <=? _) eqn:E; cbn [snd].
  - apply Nat.leb_le in E. destruct Hs as [Hs|Hs]; [|lia].
    by rewrite list_lookup_alter_ne.
  - by rewrite lookup_app_l.
Qed.

(** [append([]T(nil), xs...)] holds exactly [xs]. *)
Lemma append_nil_elems {A} (zero : A) elemSize (h : store A) xs :
  let r := append zero elemSize h nil_slice xs in
  slice_elems r.2 r.1 = xs.
Proof.
  destruct xs as [|x xs].
  - by rewrite append_nil_empty.
  - unfold append, slice_elems. cbn.
    rewrite lookup_app_r by lia. rewrite Nat.sub_diag. cbn.
    rewrite take_0. cbn. f_equal. by rewrite take_app_length.
Qed.

(** [append([]T(nil), xs...)] is the nil slice or a slice of a new array. *)
Lemma append_nil_fresh {A} (zero : A) elemSize (h : store A) xs :
  let r := append zero elemSize h nil_slice xs in
  (s_len r.1 = 0 /\ r.2 = h) \/
  (s_ptr r.1 = length h /\ length r.2 = S (length h)
   /\ forall p, p < length h -> r.2 !! p = h !! p).
Proof.
  destruct xs as [|x xs].
  - left. by rewrite append_nil_empty.
  - right. unfold append. cbn. rewrite length_app. cbn.
    repeat split; [lia|]. intros p Hp. by rewrite lookup_app_l.
Qed.

(** ** The rolling window *)

(** The rolling-window step changes nothing when the timestamps are within
    their capacity. *)
Lemma trim_within_cap pm :
  s_len (ProcessMetrics.Timestamps pm) <= s_cap (ProcessMetrics.Timestamps pm) ->
  trim pm = pm.
Proof.
  intros H. unfold trim.
  destruct (_ <? _) eqn:E; [|done]. apply Nat.ltb_lt in E. lia.
Qed.

(** Names the result of the next [append] in the goal, with what is known of
    its header and store. *)
Ltac name_append :=
  match goal with
  | |- context [@append ?A ?z ?e ?h ?s ?xs] =>
      let Hlen := fresh "Hlen" in
      let Hcap := fresh "Hcap" in
      let Hhdr := fresh "Hhdr" in
      let Hsto := fresh "Hsto" in
      pose proof (@append_len A z e h s xs) as Hlen;
      pose proof (@append_len_le_cap A z e h s xs) as Hcap;
      pose proof (@append_header A z e h s xs) as Hhdr;
      pose proof (@append_store_length A z e h s xs) as Hsto;
      cbv zeta in Hhdr;
      destruct (@append A z e h s xs) as [? ?];
      cbn [fst snd] in Hlen, Hcap, Hhdr, Hsto
  end.

(** [AddMetric] never drops a point: the capacity it compares the length
    with is read after the append, when the length is within it. Every slice
    is one element longer. *)
Lemma AddMetric_len h pm timestamp cpu memory diskReadRate diskWriteRate
    diskReadPerc diskWritePerc netSentRate netRecvRate :
  let pm' := (AddMetric h pm timestamp cpu memory diskReadRate diskWriteRate
                diskReadPerc diskWritePerc netSentRate netRecvRate).1 in
  s_len (ProcessMetrics.Timestamps pm') = S (s_len (ProcessMetrics.Timestamps pm)) /\
  s_len <$> ProcessMetrics.floats pm' = (S ∘ s_len) <$> ProcessMetrics.floats pm.
Proof.
  unfold AddMetric, append_Time, append_float64.
  repeat name_append. cbn [fst].
  rewrite trim_within_cap by done. cbn in *.
  split; [lia|]. repeat f_equal; lia.
Qed.

Lemma AddPoints_len ph ps :
  let pm' := (AddPoints ph ps).1 in
  s_len (ProcessMetrics.Timestamps pm') =
    s_len (ProcessMetrics.Timestamps ph.1) + length ps /\
  s_len <$> ProcessMetrics.floats pm' =
    (fun s => s_len s + length ps) <$> ProcessMetrics.floats ph.1.
Proof.
  unfold AddPoints. revert ph. induction ps as [|p ps IH]; intros ph; cbn [foldl length]; cbv zeta.
  - split; [lia|]. rewrite <- (list_fmap_id (s_len <$> _)), <- list_fmap_compose.
    apply list_fmap_ext. intros _ s _. cbn. lia.
  - destruct (IH (AddPoint ph p)) as [IH1 IH2].
    destruct (AddMetric_len ph.2 ph.1 (p_timestamp p) (p_cpu p) (p_memory p)
                (p_diskReadRate p) (p_diskWriteRate p) (p_diskReadPerc p)
                (p_diskWritePerc p) (p_netSentRate p) (p_netRecvRate p)) as [A1 A2].
    fold (AddPoint ph p) in A1, A2.
    split; [lia|].
    rewrite IH2. cbn [ProcessMetrics.floats fmap list_fmap] in *.
    repeat match goal with H : _ :: _ = _ :: _ |- _ => injection H as ? H end.
    cbn in *. repeat (apply (f_equal2 cons); [lia|]). done.
Qed.

Lemma NewProcessMetrics_headers h capacity :
  let pm := (NewProcessMetrics h capacity).1 in
  (s_len (ProcessMetrics.Timestamps pm) = 0 /\
   s_cap (ProcessMetrics.Timestamps pm) = capacity) /\
  Forall (fun s => s_len s = 0 /\ s_cap s = capacity) (ProcessMetrics.floats pm).
Proof. cbn. repeat constructor. Qed.

(** ** Series and the arrays they share *)

Lemma slice_ok_mono P n n' s : slice_ok P n s -> n <= n' -> slice_ok P n' s.
Proof. intros [? [?|[? ?]]] ?; split; auto. right. split; [lia|done]. Qed.

Lemma slice_ok_weaken (P Q : nat -> Prop) n s :
  (forall p, Q p -> P p) -> slice_ok P n s -> slice_ok Q n s.
Proof. intros HPQ [? [?|[? ?]]]; split; auto. right. split; [done|]. intros ?%HPQ. done. Qed.

Lemma slice_elems_same {A} (h h' : store A) s :
  s_len s = 0 \/ h' !! s_ptr s = h !! s_ptr s ->
  slice_elems h' s = slice_elems h s.
Proof.
  unfold slice_elems. intros [->| ->]; [|done]. by rewrite !take_0.
Qed.

(** One [append] of one value to a slice that is in order: the slice it
    returns is in order, and the arrays [P] are as they were. *)
Lemma append_step {A} (zero : A) elemSize (P : nat -> Prop) h s xs :
  (forall p, P p -> p < length h) ->
  slice_ok P (length h) s ->
  xs <> [] ->
  let r := append zero elemSize h s xs in
  slice_ok P (length r.2) r.1 /\ length h <= length r.2 /\
  (forall p, P p -> r.2 !! p = h !! p).
Proof.
  intros HP [Hlen Hs] Hxs r.
  assert (0 < length xs) by (destruct xs; [done|cbn; lia]).
  pose proof (append_len_le_cap zero elemSize h s xs) as Hcap.
  pose proof (append_store_length zero elemSize h s xs) as Hsto.
  pose proof (append_header zero elemSize h s xs) as Hhdr.
  fold r in Hcap, Hsto, Hhdr. cbv zeta in Hhdr.
  destruct Hhdr as [(Hroom & Hptr & Hc)|(Hfull & Hptr & Hl)].
  - destruct Hs as [?|[Hin HnP]]; [lia|].
    repeat split; [done| |done|].
    + right. rewrite Hptr. split; [lia|done].
    + intros p Hp. apply append_frame; [by apply HP|].
      left. intros ->. done.
  - repeat split; [done| |done|].
    + right. rewrite Hptr. split; [lia|]. intros Hp%HP. lia.
    + intros p Hp. apply append_frame; [by apply HP|]. by right.
Qed.

Lemma append_each_ok {A} (zero : A) elemSize (P : nat -> Prop) h ss xs :
  (forall p, P p -> p < length h) ->
  Forall (slice_ok P (length h)) ss ->
  let r := append_each zero elemSize h ss xs in
  Forall (slice_ok P (length r.2)) r.1 /\ length h <= length r.2 /\
  (forall p, P p -> r.2 !! p = h !! p).
Proof.
  revert h xs. induction ss as [|s ss IH]; intros h xs HP Hss; cbn.
  { repeat split; [constructor|done..]. }
  destruct xs as [|x xs]; cbn.
  { repeat split; [constructor|done..]. }
  inversion_clear Hss as [|? ? Hs Hss'].
  destruct (append_step zero elemSize P h s [x] HP Hs) as (Hs' & Hl & Hf); [done|].
  destruct (append zero elemSize h s [x]) as [s' h1]. cbn [fst snd] in *.
  destruct (IH h1 xs) as (Hss1 & Hl1 & Hf1).
  { intros p Hp%HP. lia. }
  { eapply Forall_impl; [exact Hss'|]. intros s0 ?. by eapply slice_ok_mono. }
  destruct (append_each zero elemSize h1 ss xs) as [ss' h2]. cbn [fst snd] in *.
  repeat split.
  - constructor; [by eapply slice_ok_mono|done].
  - lia.
  - intros p Hp. rewrite Hf1 by done. by apply Hf.
Qed.

(** The copies [GetProcessMetrics] makes of slices that are in order: the
    arrays that were there are as they were, every copy that is not empty has
    an array of its own among the new ones, and the copies hold what the
    slices held. *)
Lemma copy_each_spec {A} (zero : A) elemSize h ss :
  Forall (slice_ok no_array (length h)) ss ->
  let r := copy_each zero elemSize h ss in
  length h <= length r.2 /\
  (forall p, p < length h -> r.2 !! p = h !! p) /\
  Forall (fun s' => s_len s' = 0 \/ (length h <= s_ptr s' /\ s_ptr s' < length r.2)) r.1 /\
  slice_elems r.2 <$> r.1 = slice_elems h <$> ss.
Proof.
  revert h. induction ss as [|s ss IH]; intros h Hss; cbn.
  { repeat split; [done|constructor]. }
  inversion_clear Hss as [|? ? Hs Hss'].
  pose proof (append_nil_fresh zero elemSize h (slice_elems h s)) as Hfresh.
  pose proof (append_nil_elems zero elemSize h (slice_elems h s)) as Helems.
  cbv zeta in Hfresh, Helems.
  destruct (append zero elemSize h nil_slice (slice_elems h s)) as [s' h1].
  cbn [fst snd] in *.
  assert (length h <= length h1 /\ forall p, p < length h -> h1 !! p = h !! p)
    as [Hl Hf].
  { destruct Hfresh as [[_ ->]|(_ & -> & ?)]; [done|]. split; [lia|done]. }
  destruct (IH h1) as (Hl1 & Hf1 & Hptr1 & Hview1).
  { eapply Forall_impl; [exact Hss'|]. intros s0 ?. by eapply slice_ok_mono. }
  destruct (copy_each zero elemSize h1 ss) as [ss' h2]. cbn [fst snd] in *.
  repeat split.
  - lia.
  - intros p Hp. rewrite Hf1 by lia. by apply Hf.
  - constructor.
    + destruct Hfresh as [[? _]|(-> & ? & _)]; [by left|right; lia].
    + eapply Forall_impl; [exact Hptr1|]. cbn. intros s0 [?|[? ?]]; [by left|right; lia].
  - rewrite !fmap_cons. f_equal.
    + rewrite <- Helems. apply slice_elems_same.
      destruct Hfresh as [[? _]|(-> & ? & _)]; [by left|right]. apply Hf1. lia.
    + rewrite Hview1. apply Forall_fmap_ext. eapply Forall_impl; [exact Hss'|].
      cbn. intros s0 [? [?|[? _]]]; apply slice_elems_same; [left; lia|right; by apply Hf].
Qed.

(** [AddMetric] by its parts: one append to the timestamps, [append_each] on
    the eight float slices, and no trimming. *)
Lemma AddMetric_parts h pm timestamp cpu memory diskReadRate diskWriteRate
    diskReadPerc diskWritePerc netSentRate netRecvRate :
  let r := AddMetric h pm timestamp cpu memory diskReadRate diskWriteRate
             diskReadPerc diskWritePerc netSentRate netRecvRate in
  let rt := append_Time (h_time h) (ProcessMetrics.Timestamps pm) [timestamp] in
  let rf := append_each 0%float sizeof_float64 (h_f64 h) (ProcessMetrics.floats pm)
              [cpu; memory; diskReadRate; diskWriteRate; diskReadPerc;
               diskWritePerc; netSentRate; netRecvRate] in
  ProcessMetrics.Timestamps r.1 = rt.1 /\ ProcessMetrics.floats r.1 = rf.1 /\
  r.2 = Build_Heap rt.2 rf.2.
Proof.
  unfold AddMetric, append_Time, append_float64. cbn [ProcessMetrics.floats append_each].
  repeat name_append. cbn [fst snd].
  rewrite trim_within_cap by done. done.
Qed.

(** [GetProcessMetrics] by its parts. *)
Lemma GetProcessMetrics_parts st pid metrics :
  processMetrics (mon st) !! pid = Some metrics ->
  let rt := append_Time (h_time (heap st)) nil_slice
              (slice_elems (h_time (heap st)) (ProcessMetrics.Timestamps metrics)) in
  let rf := copy_each 0%float sizeof_float64 (h_f64 (heap st))
              (ProcessMetrics.floats metrics) in
  exists v,
    GetProcessMetrics st pid = (Some v, set_heap (Build_Heap rt.2 rf.2) st) /\
    ProcessMetrics.Timestamps v = rt.1 /\ ProcessMetrics.floats v = rf.1.
Proof.
  intros Hm. unfold GetProcessMetrics, append_Time, append_float64. rewrite Hm.
  cbn [ProcessMetrics.floats copy_each].
  repeat match goal with
  | |- context [@append ?A ?z ?e ?h ?s ?xs] =>
      destruct (@append A z e h s xs) as [? ?]
  end.
  cbn [fst snd]. eexists. split; [reflexivity|]. done.
Qed.

Lemma GetProcessMetrics_None st pid :
  processMetrics (mon st) !! pid = None -> GetProcessMetrics st pid = (None, st).
Proof. intros Hm. unfold GetProcessMetrics. by rewrite Hm. Qed.

Lemma AddMetric_separate (Pt Pf : nat -> Prop) h pm timestamp cpu memory
    diskReadRate diskWriteRate diskReadPerc diskWritePerc netSentRate netRecvRate :
  (forall p, Pt p -> p < length (h_time h)) ->
  (forall p, Pf p -> p < length (h_f64 h)) ->
  slice_ok Pt (length (h_time h)) (ProcessMetrics.Timestamps pm) ->
  Forall (slice_ok Pf (length (h_f64 h))) (ProcessMetrics.floats pm) ->
  let r := AddMetric h pm timestamp cpu memory diskReadRate diskWriteRate
             diskReadPerc diskWritePerc netSentRate netRecvRate in
  slice_ok Pt (length (h_time r.2)) (ProcessMetrics.Timestamps r.1) /\
  Forall (slice_ok Pf (length (h_f64 r.2))) (ProcessMetrics.floats r.1) /\
  length (h_time h) <= length (h_time r.2) /\
  length (h_f64 h) <= length (h_f64 r.2) /\
  same_arrays Pt Pf h r.2.
Proof.
  intros HPt HPf Hts Hfs r.
  destruct (AddMetric_parts h pm timestamp cpu memory diskReadRate diskWriteRate
              diskReadPerc diskWritePerc netSentRate netRecvRate)
    as (Ets & Efs & Eh).
  fold r in Ets, Efs, Eh. rewrite Ets, Efs, Eh. cbn [h_time h_f64].
  destruct (append_step zero_Time sizeof_Time Pt (h_time h)
              (ProcessMetrics.Timestamps pm) [timestamp] HPt Hts) as (? & ? & ?);
    [done|].
  destruct (append_each_ok 0%float sizeof_float64 Pf (h_f64 h)
              (ProcessMetrics.floats pm)
              [cpu; memory; diskReadRate; diskWriteRate; diskReadPerc;
               diskWritePerc; netSentRate; netRecvRate] HPf Hfs) as (? & ? & ?).
  unfold append_Time. split_and!; done.
Qed.

Lemma NewProcessMetrics_separate (Pt Pf : nat -> Prop) h capacity :
  (forall p, Pt p -> p < length (h_time h)) ->
  (forall p, Pf p -> p < length (h_f64 h)) ->
  let r := NewProcessMetrics h capacity in
  slice_ok Pt (length (h_time r.2)) (ProcessMetrics.Timestamps r.1) /\
  Forall (slice_ok Pf (length (h_f64 r.2))) (ProcessMetrics.floats r.1) /\
  length (h_time h) <= length (h_time r.2) /\
  length (h_f64 h) <= length (h_f64 r.2) /\
  (forall p, p < length (h_time h) -> h_time r.2 !! p = h_time h !! p) /\
  (forall p, p < length (h_f64 h) -> h_f64 r.2 !! p = h_f64 h !! p).
Proof.
  intros HPt HPf. cbn. rewrite !length_app. cbn. split_and!.
  - split; cbn; [lia|]. right. split; [lia|]. intros Hp%HPt. lia.
  - repeat (apply Forall_cons_2;
      [split; cbn; [lia|]; right; (split; [lia|]); intros Hp%HPf; lia|]).
    apply Forall_nil_2.
  - lia.
  - lia.
  - intros p Hp. by rewrite lookup_app_l.
  - intros p Hp. rewrite <- !(assoc_L (++)). by rewrite lookup_app_l.
Qed.

Lemma keeps_same_store st st' :
  heap st' = heap st -> processMetrics (mon st') = processMetrics (mon st) ->
  keeps st st'.
Proof. intros Eh Em Pt Pf H. rewrite Eh, Em. split; [done|]. by split. Qed.

Lemma keeps_trans st1 st2 st3 : keeps st1 st2 -> keeps st2 st3 -> keeps st1 st3.
Proof.
  intros H12 H23 Pt Pf H1.
  destruct (H12 Pt Pf H1) as [H2 [At Af]].
  destruct (H23 Pt Pf H2) as [H3 [Bt Bf]].
  split; [done|]. split; intros p Hp.
  - rewrite Bt by done. by apply At.
  - rewrite Bf by done. by apply Af.
Qed.

Lemma EnsureProcessMetrics_keeps st pid : keeps st (EnsureProcessMetrics st pid).
Proof.
  unfold EnsureProcessMetrics.
  destruct (processMetrics (mon st) !! pid) as [pm|] eqn:Hm.
  { by apply keeps_same_store. }
  intros Pt Pf (HPt & HPf & Hok).
  destruct (NewProcessMetrics_separate Pt Pf (heap st) (metricsCapacity (mon st))
              HPt HPf) as (Hts & Hfs & Hlt & Hlf & Hkt & Hkf).
  destruct (NewProcessMetrics (heap st) (metricsCapacity (mon st))) as [pm h'].
  cbn [fst snd] in *. cbn. split; [split_and!|split].
  - intros p Hp%HPt. lia.
  - intros p Hp%HPf. lia.
  - intros pid' pm' Hl. destruct (decide (pid' = pid)) as [->|Hne].
    + rewrite lookup_insert_eq in Hl. by injection Hl as <-.
    + rewrite lookup_insert_ne in Hl by done.
      destruct (Hok pid' pm' Hl) as [Hts' Hfs']. split.
      * by eapply slice_ok_mono.
      * eapply Forall_impl; [exact Hfs'|]. intros s ?. by eapply slice_ok_mono.
  - intros p Hp%HPt. by apply Hkt.
  - intros p Hp%HPf. by apply Hkf.
Qed.

Lemma updateProcessTimeSeriesMetrics_keeps st processInfo :
  keeps st (updateProcessTimeSeriesMetrics st processInfo).
Proof.
  intros Pt Pf (HPt & HPf & Hok). unfold updateProcessTimeSeriesMetrics.
  set (pid := ProcessInfo.PID processInfo).
  assert (exists pm h1,
    match processMetrics (mon st) !! pid with
    | Some pm => (pm, heap st)
    | None => NewProcessMetrics (heap st) (metricsCapacity (mon st))
    end = (pm, h1) /\
    slice_ok Pt (length (h_time h1)) (ProcessMetrics.Timestamps pm) /\
    Forall (slice_ok Pf (length (h_f64 h1))) (ProcessMetrics.floats pm) /\
    length (h_time (heap st)) <= length (h_time h1) /\
    length (h_f64 (heap st)) <= length (h_f64 h1) /\
    (forall p, p < length (h_time (heap st)) -> h_time h1 !! p = h_time (heap st) !! p) /\
    (forall p, p < length (h_f64 (heap st)) -> h_f64 h1 !! p = h_f64 (heap st) !! p))
    as (pm & h1 & -> & Hts & Hfs & Hlt & Hlf & Hkt & Hkf).
  { destruct (processMetrics (mon st) !! pid) as [pm|] eqn:Hm.
    - destruct (Hok pid pm Hm). exists pm, (heap st). by split_and!.
    - pose proof (NewProcessMetrics_separate Pt Pf (heap st)
                    (metricsCapacity (mon st)) HPt HPf) as H.
      destruct (NewProcessMetrics (heap st) (metricsCapacity (mon st))) as [pm h1].
      exists pm, h1. split; [done|]. exact H. }
  match goal with |- context [AddMetric ?h ?pm ?a ?b ?c ?d ?e ?f ?g ?i ?j] =>
    destruct (AddMetric_separate Pt Pf h pm a b c d e f g i j)
      as (Hts' & Hfs' & Hlt' & Hlf' & [Hkt' Hkf']);
    [by intros p Hp%HPt; lia|by intros p Hp%HPf; lia|done..|];
    destruct (AddMetric h pm a b c d e f g i j) as [pm' h2]
  end.
  cbn [fst snd] in *. cbn. split; [split_and!|split].
  - intros p Hp%HPt. lia.
  - intros p Hp%HPf. lia.
  - intros pid' pm'' Hl. destruct (decide (pid' = pid)) as [->|Hne].
    + rewrite lookup_insert_eq in Hl. by injection Hl as <-.
    + rewrite lookup_insert_ne in Hl by done.
      destruct (Hok pid' pm'' Hl) as [Hts'' Hfs'']. split.
      * eapply slice_ok_mono; [done|lia].
      * eapply Forall_impl; [exact Hfs''|]. intros s ?.
        eapply slice_ok_mono; [done|lia].
  - intros p Hp. rewrite Hkt' by done. apply Hkt. by apply HPt.
  - intros p Hp. rewrite Hkf' by done. apply Hkf. by apply HPf.
Qed.

Lemma GetProcessMetrics_keeps st pid : keeps st (GetProcessMetrics st pid).2.
Proof.
  destruct (processMetrics (mon st) !! pid) as [metrics|] eqn:Hm.
  2: { rewrite GetProcessMetrics_None by done. by apply keeps_same_store. }
  destruct (GetProcessMetrics_parts st pid metrics Hm) as (v & -> & _ & _).
  intros Pt Pf (HPt & HPf & Hok). cbn [snd].
  destruct (Hok pid metrics Hm) as [_ Hfs].
  destruct (copy_each_spec 0%float sizeof_float64 (h_f64 (heap st))
              (ProcessMetrics.floats metrics)) as (Hlf & Hkf & _ & _).
  { eapply Forall_impl; [exact Hfs|]. intros s. by apply slice_ok_weaken. }
  pose proof (append_store_length zero_Time sizeof_Time (h_time (heap st)) nil_slice
    (slice_elems (h_time (heap st)) (ProcessMetrics.Timestamps metrics))) as Hlt.
  assert (forall p, p < length (h_time (heap st)) ->
    (append_Time (h_time (heap st)) nil_slice
       (slice_elems (h_time (heap st)) (ProcessMetrics.Timestamps metrics))).2 !! p
    = h_time (heap st) !! p) as Hkt.
  { destruct (append_nil_fresh zero_Time sizeof_Time (h_time (heap st))
      (slice_elems (h_time (heap st)) (ProcessMetrics.Timestamps metrics)))
      as [[_ E]|(_ & _ & E)]; unfold append_Time; [by rewrite E|done]. }
  unfold set_heap, append_Time in *.
  split; [split_and!|split]; cbn [heap mon h_time h_f64 fst snd].
  - intros p Hp%HPt. lia.
  - intros p Hp%HPf. lia.
  - intros pid' pm' Hl. destruct (Hok pid' pm' Hl) as [Hts' Hfs']. split.
    + eapply slice_ok_mono; [done|]. lia.
    + eapply Forall_impl; [exact Hfs'|]. intros s ?. by eapply slice_ok_mono.
  - intros p Hp%HPt. by apply Hkt.
  - intros p Hp%HPf. by apply Hkf.
Qed.

Lemma CleanupOldMetrics_keeps st : keeps st (CleanupOldMetrics st).
Proof.
  intros Pt Pf (HPt & HPf & Hok). split; [|by split]. split_and!; [done..|].
  intros pid pm Hl. unfold CleanupOldMetrics in Hl. cbn in Hl.
  apply map_lookup_filter_Some in Hl as [Hl _]. exact (Hok pid pm Hl).
Qed.


(** ** What a series holds after appends *)

(** [append] to a slice that lies inside its array: the slice returned holds
    the old elements followed by the new, and lies inside its array. *)
Lemma append_elems {A} (zero : A) elemSize h s xs :
  wf_slice h s ->
  let r := append zero elemSize h s xs in
  slice_elems r.2 r.1 = slice_elems h s ++ xs /\ wf_slice r.2 r.1.
Proof.
  intros (Hlen & arr & Harr & Hbound).
  assert (length (slice_elems h s) = s_len s) as Hsl.
  { unfold slice_elems. rewrite Harr. cbn. rewrite length_take, length_drop. lia. }
  unfold append. destruct (_ <=? _) eqn:E; cbn [fst snd].
  - apply Nat.leb_le in E. split.
    + unfold slice_elems. cbn [s_ptr s_off s_len].
      rewrite list_lookup_alter_eq, Harr. cbn.
      apply list_eq. intros i.
      destruct (decide (i < s_len s)) as [Hi|Hi].
      * rewrite lookup_take_lt by lia. rewrite lookup_drop.
        rewrite list_lookup_inserts_lt by lia.
        rewrite lookup_app_l by (rewrite length_take, length_drop; lia).
        rewrite lookup_take_lt by lia. by rewrite lookup_drop.
      * destruct (decide (i < s_len s + length xs)) as [Hi2|Hi2].
        -- rewrite lookup_take_lt by lia. rewrite lookup_drop.
           rewrite list_lookup_inserts by lia.
           rewrite lookup_app_r by (rewrite length_take, length_drop; lia).
           rewrite length_take, length_drop. f_equal. lia.
        -- rewrite lookup_take_ge by lia. symmetry. apply lookup_ge_None.
           rewrite length_app, length_take, length_drop. lia.
    + split; [done|]. cbn. exists (list_inserts (s_off s + s_len s) xs arr).
      rewrite list_lookup_alter_eq, Harr. split; [done|]. by rewrite length_inserts.
  - apply Nat.leb_gt in E.
    pose proof (growslice_fits elemSize (s_cap s) (s_len s + length xs)) as Hg.
    split.
    + unfold slice_elems at 1. cbn [s_ptr s_off s_len].
      rewrite lookup_app_r by lia. rewrite Nat.sub_diag. cbn.
      rewrite app_assoc. apply take_app_length'.
      rewrite length_app. lia.
    + split; [done|]. cbn. eexists. rewrite lookup_app_r by lia.
      rewrite Nat.sub_diag. split; [done|].
      rewrite !length_app, length_replicate. lia.
Qed.

Lemma wf_slice_ptr {A} (h : store A) s : wf_slice h s -> s_ptr s < length h.
Proof. intros (_ & arr & Harr & _). by eapply lookup_lt_Some. Qed.

Lemma wf_slice_same {A} (h h' : store A) s :
  h' !! s_ptr s = h !! s_ptr s -> wf_slice h s -> wf_slice h' s.
Proof. intros E (? & arr & Harr & ?). split; [done|]. exists arr. by rewrite E. Qed.

Lemma zip_with_ext_Forall {A B C} (f g : A -> B -> C) (l : list A) (k : list B) :
  Forall (fun a => forall b, f a b = g a b) l -> zip_with f l k = zip_with g l k.
Proof.
  intros H. revert k. induction H as [|a l Ha _ IH]; intros [|b k]; cbn; try done.
  by rewrite Ha, IH.
Qed.

(** One value appended to each of several slices that have arrays of their
    own: every slice holds its old elements followed by its value, the
    slices still have arrays of their own, and no other array has changed. *)
Lemma append_each_elems {A} (zero : A) elemSize h ss xs :
  own_arrays h ss -> length xs = length ss ->
  let r := append_each zero elemSize h ss xs in
  own_arrays r.2 r.1 /\
  slice_elems r.2 <$> r.1 = zip_with (fun s x => slice_elems h s ++ [x]) ss xs /\
  length h <= length r.2 /\
  (forall p, p < length h -> p ∉ s_ptr <$> ss -> r.2 !! p = h !! p) /\
  Forall (fun s' => s_ptr s' ∈ s_ptr <$> ss \/ length h <= s_ptr s') r.1.
Proof.
  revert h xs. induction ss as [|s ss IH]; intros h xs [Hwf Hnd] Hlen.
  { destruct xs; [|done]. cbn.
    split_and!; [split; constructor|done|done|done|constructor]. }
  destruct xs as [|x xs]; [done|]. cbn [append_each].
  apply Forall_cons in Hwf as [Hs Hss]. rewrite fmap_cons in Hnd.
  apply NoDup_cons in Hnd as [Hs_notin Hnd'].
  destruct (append_elems zero elemSize h s [x] Hs) as [He Hs'].
  pose proof (append_header zero elemSize h s [x]) as Hhdr.
  pose proof (append_store_length zero elemSize h s [x]) as Hl.
  pose proof (fun p Hp Hne => append_frame zero elemSize h s [x] p Hp (or_introl Hne))
    as Hf.
  cbv zeta in Hhdr.
  destruct (append zero elemSize h s [x]) as [s' h1]. cbn [fst snd] in *.
  assert (Forall (fun t => h1 !! s_ptr t = h !! s_ptr t) ss) as Hsame.
  { apply Forall_forall. intros t Ht. apply Hf.
    - apply wf_slice_ptr. by apply (proj1 (Forall_forall _ _) Hss).
    - intros E. apply Hs_notin. rewrite <- E. by apply list_elem_of_fmap_2. }
  destruct (IH h1 xs) as ([Hwf2 Hnd2] & He2 & Hl2 & Hf2 & Hp2).
  { split; [|done]. apply Forall_forall. intros t Ht.
    apply (wf_slice_same h); [|by apply (proj1 (Forall_forall _ _) Hss)].
    by apply (proj1 (Forall_forall _ _) Hsame). }
  { cbn in Hlen. lia. }
  destruct (append_each zero elemSize h1 ss xs) as [ss' h2]. cbn [fst snd] in *.
  assert (s_ptr s' ∉ s_ptr <$> ss) as Hs'_notin.
  { destruct Hhdr as [(_ & -> & _)|(_ & -> & _)]; [done|].
    intros (t & E & Ht)%list_elem_of_fmap.
    apply (proj1 (Forall_forall _ _) Hss), wf_slice_ptr in Ht. lia. }
  assert (h2 !! s_ptr s' = h1 !! s_ptr s') as Hs'_same.
  { apply Hf2; [by apply wf_slice_ptr|done]. }
  split_and!.
  - split.
    + constructor; [by apply (wf_slice_same h1)|done].
    + rewrite fmap_cons. apply NoDup_cons. split; [|done].
      intros (t' & E & Ht')%list_elem_of_fmap.
      apply (proj1 (Forall_forall _ _) Hp2) in Ht' as [Hin|Hge].
      * rewrite <- E in Hin. done.
      * apply wf_slice_ptr in Hs'. lia.
  - rewrite fmap_cons. cbn [zip_with]. f_equal.
    + rewrite <- He. apply slice_elems_same. by right.
    + rewrite He2. apply zip_with_ext_Forall.
      eapply Forall_impl; [exact Hsame|]. cbn. intros t Ht y. f_equal.
      apply slice_elems_same. by right.
  - lia.
  - intros p Hp Hnotin. rewrite fmap_cons in Hnotin.
    apply not_elem_of_cons in Hnotin as [Hne Hnotin].
    rewrite Hf2 by (done || lia). by apply Hf.
  - constructor.
    + destruct Hhdr as [(_ & -> & _)|(_ & -> & _)]; [left|right; lia].
      rewrite ?fmap_cons. apply list_elem_of_here.
    + eapply Forall_impl; [exact Hp2|]. cbn. intros t' [Hin|Hge]; [left|right; lia].
      rewrite ?fmap_cons. by apply list_elem_of_further.
Qed.

(** [NewProcessMetrics] in closed form: one new array of instants and eight
    new arrays of floats, each slice empty at the start of its own. *)
Lemma NewProcessMetrics_eq h capacity :
  let n := length (h_f64 h) in
  let new k := Slice (n + k) 0 0 capacity in
  NewProcessMetrics h capacity =
    (ProcessMetrics.Build_t (Slice (length (h_time h)) 0 0 capacity)
       (new 0) (new 1) (new 2) (new 3) (new 4) (new 5) (new 6) (new 7),
     Build_Heap (h_time h ++ [replicate capacity zero_Time])
       (h_f64 h ++ replicate 8 (replicate capacity 0%float))).
Proof.
  cbn. rewrite !length_app. cbn. rewrite <- !(assoc_L (++)). cbn.
  rewrite <- !Nat.add_assoc, Nat.add_0_r. done.
Qed.

Lemma lookup_app_at {A} (l1 l2 : list A) k :
  (l1 ++ l2) !! (length l1 + k) = l2 !! k.
Proof. rewrite lookup_app_r by lia. f_equal. lia. Qed.

(** The series [NewProcessMetrics] makes: every slice empty, inside an array
    of its own. *)
Lemma NewProcessMetrics_own h capacity :
  let r := NewProcessMetrics h capacity in
  wf_slice (h_time r.2) (ProcessMetrics.Timestamps r.1) /\
  own_arrays (h_f64 r.2) (ProcessMetrics.floats r.1) /\
  series_view r.2 r.1 = ([], replicate 8 []).
Proof.
  cbv zeta. rewrite NewProcessMetrics_eq. cbn [fst snd]. split_and!.
  - split; [cbn; lia|]. cbn. eexists.
    rewrite <- (Nat.add_0_r (length (h_time h))), lookup_app_at.
    split; [done|]. cbn. by rewrite length_replicate.
  - split.
    + unfold ProcessMetrics.floats. cbn.
      repeat (apply Forall_cons_2;
        [split; [cbn; lia|]; cbn; eexists;
         rewrite lookup_app_at; split; [done|]; cbn; by rewrite length_replicate|]).
      apply Forall_nil_2.
    + cbn. repeat (apply NoDup_cons; split;
        [repeat (apply not_elem_of_cons; split; [lia|]); apply not_elem_of_nil|]).
      apply NoDup_nil_2.
  - done.
Qed.

(** [AddMetric] on a series whose slices have arrays of their own: the
    series holds its old points followed by the new one, and its slices
    still have arrays of their own. *)
Lemma AddMetric_elems h pm timestamp cpu memory diskReadRate diskWriteRate
    diskReadPerc diskWritePerc netSentRate netRecvRate :
  wf_slice (h_time h) (ProcessMetrics.Timestamps pm) ->
  own_arrays (h_f64 h) (ProcessMetrics.floats pm) ->
  let r := AddMetric h pm timestamp cpu memory diskReadRate diskWriteRate
             diskReadPerc diskWritePerc netSentRate netRecvRate in
  wf_slice (h_time r.2) (ProcessMetrics.Timestamps r.1) /\
  own_arrays (h_f64 r.2) (ProcessMetrics.floats r.1) /\
  series_view r.2 r.1 =
    ((series_view h pm).1 ++ [timestamp],
     zip_with (fun l x => l ++ [x]) (series_view h pm).2
       [cpu; memory; diskReadRate; diskWriteRate; diskReadPerc; diskWritePerc;
        netSentRate; netRecvRate]).
Proof.
  intros Hts Hfs r.
  destruct (AddMetric_parts h pm timestamp cpu memory diskReadRate diskWriteRate
              diskReadPerc diskWritePerc netSentRate netRecvRate)
    as (Ets & Efs & Eh).
  fold r in Ets, Efs, Eh. unfold series_view. rewrite Ets, Efs, Eh.
  cbn [h_time h_f64 fst snd].
  destruct (append_elems zero_Time sizeof_Time (h_time h)
              (ProcessMetrics.Timestamps pm) [timestamp] Hts) as [Het Hts'].
  destruct (append_each_elems 0%float sizeof_float64 (h_f64 h)
              (ProcessMetrics.floats pm)
              [cpu; memory; diskReadRate; diskWriteRate; diskReadPerc;
               diskWritePerc; netSentRate; netRecvRate] Hfs eq_refl)
    as (Hfs' & Hef & _).
  unfold append_Time. split_and!; [done..|].
  rewrite Het, Hef. f_equal.
Qed.

Lemma AddPoints_elems ph ps :
  wf_slice (h_time ph.2) (ProcessMetrics.Timestamps ph.1) ->
  own_arrays (h_f64 ph.2) (ProcessMetrics.floats ph.1) ->
  let r := AddPoints ph ps in
  series_view r.2 r.1 =
    ((series_view ph.2 ph.1).1 ++ (p_timestamp <$> ps),
     zip_with app (series_view ph.2 ph.1).2 (columns ps)).
Proof.
  unfold AddPoints. revert ph.
  induction ps as [|p ps IH]; intros ph Hts Hfs; cbn [foldl].
  { cbn. by rewrite !app_nil_r. }
  destruct (AddMetric_elems ph.2 ph.1 (p_timestamp p) (p_cpu p) (p_memory p)
              (p_diskReadRate p) (p_diskWriteRate p) (p_diskReadPerc p)
              (p_diskWritePerc p) (p_netSentRate p) (p_netRecvRate p) Hts Hfs)
    as (Hts' & Hfs' & Hview).
  fold (AddPoint ph p) in Hts', Hfs', Hview.
  cbv zeta. rewrite (IH (AddPoint ph p) Hts' Hfs'), Hview. cbn.
  by rewrite <- !(assoc_L (++)).
Qed.

(** C1, as the code has it: a series made by [NewProcessMetrics] with any
    capacity holds, after any points are appended, exactly the points that
    were appended, in the order of the appends and in each of its nine
    slices. Its length is the number of appends, however small the capacity:
    no point is ever evicted. *)
Theorem AddMetric_keeps_every_point h capacity ps :
  let r := AddPoints (NewProcessMetrics h capacity) ps in
  series_view r.2 r.1 = (p_timestamp <$> ps, columns ps) /\
  s_len (ProcessMetrics.Timestamps r.1) = length ps /\
  Forall (fun s => s_len s = length ps) (ProcessMetrics.floats r.1).
Proof.
  destruct (AddPoints_len (NewProcessMetrics h capacity) ps) as [H1 H2].
  destruct (NewProcessMetrics_headers h capacity) as [[N1 _] N2].
  destruct (NewProcessMetrics_own h capacity) as (Hts & Hfs & Hview).
  cbv zeta. split_and!.
  - rewrite (AddPoints_elems _ ps Hts Hfs), Hview. done.
  - lia.
  - apply Forall_fmap with (f := s_len) (P := fun n => n = length ps).
    rewrite H2. apply Forall_fmap. eapply Forall_impl; [exact N2|].
    cbn. intros s [-> _]. done.
Qed.

(** ** What sampling changes *)

(** A detailed read returns no error, and changes the counter cache and the
    count of calls only. *)
Lemma getDetailedProcessInfo_state st proc :
  let r := getDetailedProcessInfo st proc in
  r.1.2 = None /\ ProcessInfo.PID r.1.1 = Pid proc /\
  exists io, r.2 = bump 7 (set_mon (set_lastProcessIO io (mon st)) st).
Proof.
  unfold getDetailedProcessInfo. cbn.
  destruct (proc_IOCounters w _ _) as [[ReadBytes WriteBytes]|]; cbn.
  - destruct (diskRates _ _ _ _ _) as [[[? ?] ?] ?]. cbn.
    split_and!; [done..|]. by eexists.
  - split_and!; [done..|]. exists (lastProcessIO (mon st)). by destruct st as [? ? []].
Qed.

Lemma getDetailedProcessInfo_keeps st proc :
  keeps st (getDetailedProcessInfo st proc).2 /\
  same_registry st (getDetailedProcessInfo st proc).2.
Proof.
  destruct (getDetailedProcessInfo_state st proc) as (_ & _ & io & ->).
  split; [by apply keeps_same_store|done].
Qed.

Lemma same_registry_trans st1 st2 st3 :
  same_registry st1 st2 -> same_registry st2 st3 -> same_registry st1 st3.
Proof.
  unfold same_registry. intros (?&?&?&?&?&?&?) (?&?&?&?&?&?&?).
  split_and!; congruence.
Qed.

Lemma keeps_refl st : keeps st st.
Proof. by apply keeps_same_store. Qed.

Lemma updateProcessTimeSeriesMetrics_same_registry st processInfo :
  same_registry st (updateProcessTimeSeriesMetrics st processInfo).
Proof.
  unfold updateProcessTimeSeriesMetrics.
  destruct (match processMetrics (mon st) !! _ with Some _ => _ | None => _ end)
    as [pm h].
  destruct (AddMetric _ _ _ _ _ _ _ _ _ _ _) as [pm' h']. done.
Qed.

Lemma EnsureProcessMetrics_same_registry st pid :
  same_registry st (EnsureProcessMetrics st pid).
Proof.
  unfold EnsureProcessMetrics. destruct (processMetrics (mon st) !! pid); [done|].
  destruct (NewProcessMetrics _ _). done.
Qed.

Lemma bump_bump n m st : bump n (bump m st) = bump (n + m) st.
Proof. unfold bump. cbn. f_equal. lia. Qed.

(** The first pass makes calls and changes nothing else; the only error it
    returns is the context's. *)
Lemma firstPass_state st i pids allProcesses newProcessStats :
  let r := firstPass st i pids allProcesses newProcessStats in
  (exists n, r.2 = bump n st) /\
  (forall err, r.1 = inl err -> err = ErrCanceled).
Proof.
  revert st i allProcesses newProcessStats.
  induction pids as [|pid pids IH]; intros st i allProcesses newProcessStats.
  { cbn. split; [by exists 0; destruct st|done]. }
  cbn [firstPass]. destruct (ctx_Done w (tick st)).
  { cbn. split; [by exists 1|]. by intros err [= <-]. }
  set (st1 := if (0 <? i) && (i mod 50 =? 0) then bump 1 (bump 1 st) else bump 1 st).
  assert (exists n, st1 = bump n st) as [n1 E1].
  { subst st1. destruct (_ && _); [exists 2|exists 1]; [apply bump_bump|done]. }
  assert (mon st1 = mon st) as Em by (rewrite E1; done).
  rewrite Em.
  destruct (lastProcessStats (mon st) !! pid) as [existingProc|];
    [|destruct (process_NewProcess w (tick st1) pid)]; cbn;
    match goal with |- context [firstPass ?a ?b pids ?c ?d] =>
      destruct (IH a b c d) as [[n Hn] Herr]; rewrite Hn
    end; (split; [|done]).
  - exists (n + 4 + n1). by rewrite E1, !bump_bump.
  - exists (n + 4 + 1 + n1). by rewrite E1, !bump_bump.
  - exists (n + 1 + n1). by rewrite E1, !bump_bump.
Qed.

(** The second pass publishes at most one entry per process it is given, and
    changes the series, their arrays and the counter cache only. *)
Lemma secondPass_state st allProcesses newProcessStats processes :
  let r := secondPass st allProcesses newProcessStats processes in
  same_registry st r.2 /\
  length r.1 <= length processes + length allProcesses.
Proof.
  revert st processes.
  induction allProcesses as [|basicInfo rest IH]; intros st processes.
  { cbn. split; [done|lia]. }
  cbn [secondPass length].
  destruct (newProcessStats !! ProcessInfo.PID basicInfo) as [proc|].
  2: { destruct (IH st processes) as (? & ?). split; [done|lia]. }
  destruct (getDetailedProcessInfo_state st proc) as (Herr & _ & io & Est).
  destruct (getDetailedProcessInfo st proc) as [[processInfo err] st1].
  cbn [fst snd] in *. subst err.
  destruct (IH (updateProcessTimeSeriesMetrics st1 processInfo)
              (processes ++ [processInfo])) as (Hr2 & Hlen).
  split.
  - eapply same_registry_trans; [|exact Hr2].
    eapply same_registry_trans;
      [|apply updateProcessTimeSeriesMetrics_same_registry].
    by rewrite Est.
  - rewrite length_app in Hlen. cbn in Hlen. lia.
Qed.

Lemma secondPass_keeps st allProcesses newProcessStats processes :
  keeps st (secondPass st allProcesses newProcessStats processes).2.
Proof.
  revert st processes.
  induction allProcesses as [|basicInfo rest IH]; intros st processes.
  { apply keeps_refl. }
  cbn [secondPass].
  destruct (newProcessStats !! ProcessInfo.PID basicInfo) as [proc|]; [|apply IH].
  destruct (getDetailedProcessInfo_state st proc) as (Herr & _ & _).
  destruct (getDetailedProcessInfo_keeps st proc) as [Hk _].
  destruct (getDetailedProcessInfo st proc) as [[processInfo err] st1].
  cbn [fst snd] in *. subst err.
  eapply keeps_trans; [exact Hk|]. eapply keeps_trans; [|apply IH].
  apply updateProcessTimeSeriesMetrics_keeps.
Qed.

Lemma updateSystemMetrics_state st :
  let r := updateSystemMetrics st in
  exists n,
    (r.1 <> None /\ r.2 = bump n st) \/
    (r.1 = None /\ exists snapshot,
       r.2 = bump n (set_mon (set_systemMetrics snapshot (mon st)) st)).
Proof.
  unfold updateSystemMetrics.
  destruct (cpu_Percent w (tick st)) as [cpuPercent|]; [|exists 1; by left].
  destruct (mem_VirtualMemory w (1 + tick st)) as [memStat|]; [|exists 2; by left].
  exists 3. right. split; [done|]. by eexists.
Qed.

(** The three ways [updateProcessMetrics] ends. *)
Lemma updateProcessMetrics_state st :
  let r := updateProcessMetrics st in
  let st0 := set_mon (set_systemIOTotal calculateSystemIOTotal (mon st)) (bump 1 st) in
  (process_Pids w (tick st) = None /\ r = (Some (ErrSource "process.Pids"), bump 1 st)) \/
  (exists n, r = (Some ErrCanceled, bump n st0)) \/
  (exists pids allProcesses newProcessStats st1 processes st2,
     process_Pids w (tick st) = Some pids /\
     firstPass st0 0 pids [] ∅ = (inr (allProcesses, newProcessStats), st1) /\
     secondPass st1 (topProcesses maxProcesses allProcesses) newProcessStats []
       = (processes, st2) /\
     r = (None,
          set_mon
            (sortProcesses
               (set_lastProcessStats newProcessStats
                  (set_processes processes (mon st2))))
            st2)).
Proof.
  unfold updateProcessMetrics.
  destruct (process_Pids w (tick st)) as [pids|]; [|by left]. right.
  destruct (firstPass_state
              (set_mon (set_systemIOTotal calculateSystemIOTotal (mon (bump 1 st)))
                 (bump 1 st)) 0 pids [] ∅) as [[n Hn] Herr].
  destruct (firstPass _ 0 pids [] ∅) as [[err|[allProcesses newProcessStats]] st1]
    eqn:E1.
  - left. cbn [fst snd] in *. rewrite (Herr err eq_refl), Hn. by exists n.
  - right.
    destruct (secondPass st1 (topProcesses maxProcesses allProcesses)
                newProcessStats []) as [processes st2] eqn:E2.
    by exists pids, allProcesses, newProcessStats, st1, processes, st2.
Qed.

Lemma GetCurrentProcessData_keeps st pid :
  keeps st (GetCurrentProcessData st pid).2.
Proof.
  unfold GetCurrentProcessData.
  pose proof (EnsureProcessMetrics_keeps st pid) as Hk0.
  set (st0 := EnsureProcessMetrics st pid) in *.
  destruct (process_NewProcess w (tick st0) pid).
  2: { cbn. eapply keeps_trans; [exact Hk0|]. by apply keeps_same_store. }
  destruct (getDetailedProcessInfo_state (bump 1 st0) (Build_Process pid))
    as (Herr & _ & _).
  destruct (getDetailedProcessInfo_keeps (bump 1 st0) (Build_Process pid)) as [Hk _].
  destruct (getDetailedProcessInfo (bump 1 st0) (Build_Process pid))
    as [[processInfo err] st1].
  cbn [fst snd] in *. subst err. cbn [snd].
  eapply keeps_trans; [exact Hk0|]. eapply keeps_trans; [|eapply keeps_trans].
  - by apply (keeps_same_store st0 (bump 1 st0)).
  - exact Hk.
  - apply updateProcessTimeSeriesMetrics_keeps.
Qed.

Lemma GetCurrentProcessData_same_registry st pid :
  same_registry st (GetCurrentProcessData st pid).2.
Proof.
  unfold GetCurrentProcessData.
  pose proof (EnsureProcessMetrics_same_registry st pid) as Hr0.
  set (st0 := EnsureProcessMetrics st pid) in *.
  destruct (process_NewProcess w (tick st0) pid); [|done].
  destruct (getDetailedProcessInfo_state (bump 1 st0) (Build_Process pid))
    as (Herr & _ & io & Est).
  destruct (getDetailedProcessInfo (bump 1 st0) (Build_Process pid))
    as [[processInfo err] st1].
  cbn [fst snd] in *. subst err. cbn [snd].
  eapply same_registry_trans; [exact Hr0|].
  eapply same_registry_trans;
    [|apply updateProcessTimeSeriesMetrics_same_registry].
  by rewrite Est.
Qed.

Lemma updateProcessMetrics_keeps st : keeps st (updateProcessMetrics st).2.
Proof.
  destruct (updateProcessMetrics_state st)
    as [[_ ->]|[[n ->]|(pids & allProcesses & newProcessStats & st1 & processes
                         & st2 & _ & E1 & E2 & ->)]].
  - by apply keeps_same_store.
  - by apply keeps_same_store.
  - cbn [snd].
    destruct (firstPass_state
      (set_mon (set_systemIOTotal calculateSystemIOTotal (mon st)) (bump 1 st))
      0 pids [] ∅) as [[n Hn] _].
    rewrite E1 in Hn. cbn [snd] in Hn.
    pose proof (secondPass_keeps st1 (topProcesses maxProcesses allProcesses)
                  newProcessStats []) as Hk.
    rewrite E2 in Hk. cbn [snd] in Hk.
    eapply keeps_trans; [|eapply keeps_trans; [exact Hk|]].
    + apply keeps_same_store; by rewrite Hn.
    + by apply keeps_same_store.
Qed.

Lemma UpdateMetrics_keeps st : keeps st (UpdateMetrics st).2.
Proof.
  unfold UpdateMetrics.
  destruct (updateSystemMetrics_state st) as [n [[Herr E]|[Herr [snapshot E]]]];
    destruct (updateSystemMetrics st) as [[err|] st1]; cbn [fst snd] in *;
    try done; subst st1.
  - by apply keeps_same_store.
  - match goal with |- context [updateProcessMetrics ?s] =>
      pose proof (updateProcessMetrics_keeps s) as Hk;
      destruct (updateProcessMetrics s) as [[err|] st2]
    end; cbn [snd] in *;
      (eapply keeps_trans; [|exact Hk]); by apply keeps_same_store.
Qed.

Lemma step_keeps st st' : step st st' -> keeps st st'.
Proof.
  destruct 1.
  - by apply keeps_same_store.
  - apply GetProcessMetrics_keeps.
  - apply EnsureProcessMetrics_keeps.
  - apply GetCurrentProcessData_keeps.
  - by apply keeps_same_store.
  - apply UpdateMetrics_keeps.
  - apply CleanupOldMetrics_keeps.
  - apply updateProcessTimeSeriesMetrics_keeps.
Qed.

Lemma steps_keeps st st' : rtc step st st' -> keeps st st'.
Proof.
  induction 1 as [|st1 st2 st3 H12 _ IH]; [apply keeps_refl|].
  eapply keeps_trans; [by apply step_keeps|done].
Qed.

(** In every state of a run, every stored slice is in order. *)
Lemma reachable_separate st :
  reachable st -> separate no_array no_array (heap st) (processMetrics (mon st)).
Proof.
  intros Hr. apply (steps_keeps _ _ Hr no_array no_array).
  split_and!; [done..|]. intros pid pm Hl. cbn in Hl. by rewrite lookup_empty in Hl.
Qed.

(** ** The series a read returns *)

(** The series [GetProcessMetrics] returns holds what the stored series
    holds, in arrays of its own: the stored series are separate from it. *)
Lemma GetProcessMetrics_copy st pid v st1 :
  separate no_array no_array (heap st) (processMetrics (mon st)) ->
  GetProcessMetrics st pid = (Some v, st1) ->
  (exists metrics, processMetrics (mon st) !! pid = Some metrics /\
     series_view (heap st1) v = series_view (heap st) metrics) /\
  mon st1 = mon st /\
  separate (arrays_time v) (arrays_f64 v) (heap st1) (processMetrics (mon st1)).
Proof.
  intros (_ & _ & Hok) Hget.
  destruct (processMetrics (mon st) !! pid) as [metrics|] eqn:Hm.
  2: { by rewrite GetProcessMetrics_None in Hget. }
  destruct (GetProcessMetrics_parts st pid metrics Hm) as (v' & Hget' & Ets & Efs).
  destruct (Hok pid metrics Hm) as [_ Hfs].
  destruct (copy_each_spec 0%float sizeof_float64 (h_f64 (heap st))
              (ProcessMetrics.floats metrics)) as (Hlf & Hkf & Hpf & Hvf).
  { exact Hfs. }
  pose proof (append_nil_fresh zero_Time sizeof_Time (h_time (heap st))
    (slice_elems (h_time (heap st)) (ProcessMetrics.Timestamps metrics))) as Hpt.
  pose proof (append_nil_elems zero_Time sizeof_Time (h_time (heap st))
    (slice_elems (h_time (heap st)) (ProcessMetrics.Timestamps metrics))) as Hvt.
  pose proof (append_store_length zero_Time sizeof_Time (h_time (heap st)) nil_slice
    (slice_elems (h_time (heap st)) (ProcessMetrics.Timestamps metrics))) as Hlt.
  unfold append_Time in *. cbv zeta in Hpt, Hvt.
  set (rt := append zero_Time sizeof_Time (h_time (heap st)) nil_slice
               (slice_elems (h_time (heap st)) (ProcessMetrics.Timestamps metrics))) in *.
  set (rf := copy_each 0%float sizeof_float64 (h_f64 (heap st))
               (ProcessMetrics.floats metrics)) in *.
  clearbody rt rf.
  rewrite Hget' in Hget. injection Hget as -> <-.
  rewrite <- Ets in Hpt, Hvt. rewrite <- Efs in Hpf, Hvf.
  split_and!.
  - exists metrics. split; [done|]. unfold series_view, set_heap.
    cbn [heap h_time h_f64]. by rewrite Hvt, Hvf.
  - done.
  - unfold set_heap. split_and!; cbn [heap mon h_time h_f64].
    + intros p [Hlen ->]. destruct Hpt as [[? _]|(E1 & E2 & _)]; [done|lia].
    + intros p (s & Hs & Hlen & ->).
      apply (proj1 (Forall_forall _ _) Hpf) in Hs as [?|[_ ?]]; [done|lia].
    + intros pid' pm' Hl. destruct (Hok pid' pm' Hl) as [Hts' Hfs']. split.
      * destruct Hts' as [? [?|[? _]]]; (split; [done|]); [by left|right].
        split; [lia|]. intros [Hlen E].
        destruct Hpt as [[? _]|(E' & _ & _)]; [done|]. lia.
      * eapply Forall_impl; [exact Hfs'|]. cbn.
        intros s0 [? [?|[? _]]]; (split; [done|]); [by left|right].
        split; [lia|]. intros (s & Hs & Hlen & E).
        apply (proj1 (Forall_forall _ _) Hpf) in Hs as [?|[? _]]; [done|lia].
Qed.

Lemma series_view_same v h h' :
  same_arrays (arrays_time v) (arrays_f64 v) h h' ->
  series_view h' v = series_view h v.
Proof.
  intros [Ht Hf]. unfold series_view. f_equal.
  - apply slice_elems_same.
    destruct (decide (s_len (ProcessMetrics.Timestamps v) = 0)); [by left|right].
    by apply Ht.
  - apply Forall_fmap_ext, Forall_forall. intros s Hs.
    apply slice_elems_same.
    destruct (decide (s_len s = 0)); [by left|right].
    apply Hf. by exists s.
Qed.

(** C9. In any state of a run, the series [GetProcessMetrics] returns for a
    tracked pid holds what the stored series holds at the read, the read
    leaves the registry as it was, and whatever the registry does afterwards
    (appends to the series of this or any pid, new series, cleanups, whole
    cycles, further reads) the returned series holds the same points: it
    shares no array with the store. *)
Theorem GetProcessMetrics_independent st pid v st1 :
  reachable st ->
  GetProcessMetrics st pid = (Some v, st1) ->
  (exists metrics, processMetrics (mon st) !! pid = Some metrics /\
     series_view (heap st1) v = series_view (heap st) metrics) /\
  mon st1 = mon st /\
  forall st2, rtc step st1 st2 ->
    series_view (heap st2) v = series_view (heap st1) v.
Proof.
  intros Hr Hget.
  destruct (GetProcessMetrics_copy st pid v st1 (reachable_separate st Hr) Hget)
    as (Hcopy & Hmon & Hsep).
  split_and!; [done..|]. intros st2 Hsteps.
  apply series_view_same.
  by apply (steps_keeps st1 st2 Hsteps _ _ Hsep).
Qed.

(** ** Tracking and cleanup *)

(** C8. [EnsureProcessMetrics] is idempotent: a second call for the same pid
    changes nothing. After a call the pid has a series. When it had none, the
    call adds this one series to the registry, empty and of the configured
    capacity in each of its slices; when it had one, the call changes
    nothing, so the series keeps its points. *)
Theorem EnsureProcessMetrics_idempotent st pid :
  let st1 := EnsureProcessMetrics st pid in
  EnsureProcessMetrics st1 pid = st1 /\
  (forall metrics, processMetrics (mon st) !! pid = Some metrics -> st1 = st) /\
  (processMetrics (mon st) !! pid = None ->
   exists pm,
     processMetrics (mon st1) = <[pid := pm]> (processMetrics (mon st)) /\
     size (processMetrics (mon st1)) = S (size (processMetrics (mon st))) /\
     series_view (heap st1) pm = ([], replicate 8 []) /\
     s_cap (ProcessMetrics.Timestamps pm) = metricsCapacity (mon st) /\
     Forall (fun s => s_cap s = metricsCapacity (mon st)) (ProcessMetrics.floats pm)).
Proof.
  unfold EnsureProcessMetrics.
  destruct (processMetrics (mon st) !! pid) as [metrics|] eqn:Hm; cbv zeta.
  { rewrite Hm. done. }
  destruct (NewProcessMetrics (heap st) (metricsCapacity (mon st))) as [pm h] eqn:E.
  split_and!.
  - cbn. by rewrite lookup_insert_eq.
  - done.
  - intros _. exists pm. unfold NewProcessMetrics in E. cbn in E.
    injection E as <- <-. split_and!.
    + done.
    + cbn. by rewrite map_size_insert_None.
    + done.
    + done.
    + repeat constructor.
Qed.

(** After [CleanupOldMetrics] the series are those of the pids of the
    published list, each as it was. *)
Lemma CleanupOldMetrics_lookup st pid :
  heap (CleanupOldMetrics st) = heap st /\
  processMetrics (mon (CleanupOldMetrics st)) !! pid =
    if decide (pid ∈ ProcessInfo.PID <$> processes (mon st))
    then processMetrics (mon st) !! pid else None.
Proof.
  split; [done|]. unfold CleanupOldMetrics, currentPIDs. cbn.
  destruct (decide _) as [Hin|Hnin].
  - destruct (processMetrics (mon st) !! pid) as [pm|] eqn:Hm.
    + apply map_lookup_filter_Some. split; [done|]. cbn. by apply elem_of_list_to_set.
    + apply map_lookup_filter_None. left. done.
  - apply map_lookup_filter_None. right. intros pm _. cbn.
    by rewrite elem_of_list_to_set.
Qed.

(** C4, as the code has it: the live set of [CleanupOldMetrics] is the
    published list, so the series that [EnsureProcessMetrics] made for a pid
    that is not in the published list is deleted by the next cleanup, whether
    or not the process is alive. *)
Theorem CleanupOldMetrics_drops_unpublished st pid :
  pid ∉ ProcessInfo.PID <$> processes (mon st) ->
  is_Some (processMetrics (mon (EnsureProcessMetrics st pid)) !! pid) /\
  processMetrics (mon (CleanupOldMetrics (EnsureProcessMetrics st pid))) !! pid = None.
Proof.
  intros Hnin. split.
  - unfold EnsureProcessMetrics.
    destruct (processMetrics (mon st) !! pid) as [metrics|] eqn:Hm; [by rewrite Hm|].
    destruct (NewProcessMetrics _ _) as [pm h]. cbn. by rewrite lookup_insert_eq.
  - rewrite (proj2 (CleanupOldMetrics_lookup _ pid)).
    destruct (EnsureProcessMetrics_same_registry st pid) as [-> _].
    by destruct (decide _).
Qed.

(** ** The cycle *)


Lemma topProcesses_length cap allProcesses :
  length (topProcesses cap allProcesses) = cap `min` length allProcesses.
Proof.
  unfold topProcesses, sortProcessesByResourceUsage.
  pose proof (Permutation_length
    (sort_Slice_perm _ (fun pi pj => float64_gt (score pi) (score pj)) allProcesses))
    as Hlen.
  destruct (_ <? _) eqn:E.
  - apply Nat.ltb_lt in E. rewrite length_take. lia.
  - apply Nat.ltb_ge in E. lia.
Qed.

Lemma sortProcesses_length m :
  length (processes (sortProcesses m)) = length (processes m).
Proof. unfold sortProcesses. cbn. apply Permutation_length, sort_Slice_perm. Qed.

(** Process sampling either publishes a list of at most [maxProcesses]
    entries or, on an error, leaves the published list as it was. *)
Lemma updateProcessMetrics_processes st :
  let r := updateProcessMetrics st in
  (r.1 = None -> length (processes (mon r.2)) <= maxProcesses) /\
  (r.1 <> None -> processes (mon r.2) = processes (mon st)).
Proof.
  destruct (updateProcessMetrics_state st)
    as [[_ ->]|[[n ->]|(pids & allProcesses & newProcessStats & st1 & processes
                         & st2 & _ & E1 & E2 & ->)]]; cbn [fst snd]; [done..|].
  split; [intros _|done].
  destruct (secondPass_state st1 (topProcesses maxProcesses allProcesses)
              newProcessStats []) as (_ & Hlen).
  rewrite E2 in Hlen. cbn [fst length] in Hlen.
  rewrite topProcesses_length in Hlen.
  unfold set_mon. cbn [mon]. rewrite sortProcesses_length. cbn. lia.
Qed.

Lemma UpdateMetrics_processes st :
  let r := UpdateMetrics st in
  (r.1 = None -> length (processes (mon r.2)) <= maxProcesses) /\
  (r.1 <> None -> processes (mon r.2) = processes (mon st)).
Proof.
  unfold UpdateMetrics.
  destruct (updateSystemMetrics_state st) as [n [[Herr E]|[Herr [snapshot E]]]];
    destruct (updateSystemMetrics st) as [[err|] st1]; cbn [fst snd] in *;
    try done; subst st1.
  { by split. }
  match goal with |- context [updateProcessMetrics ?s] =>
    destruct (updateProcessMetrics_processes s) as [H1 H2];
    destruct (updateProcessMetrics s) as [[err|] st2]
  end; cbn [fst snd] in *.
  - split; [done|]. intros _. by rewrite H2.
  - split; [|done]. intros _. by apply H1.
Qed.

(** An invariant of the steps holds in every state of a run. *)
Lemma reachable_invariant (I : State -> Prop) :
  I initial_State ->
  (forall st st', I st -> step st st' -> I st') ->
  forall st, reachable st -> I st.
Proof.
  intros H0 Hstep. unfold reachable. apply rtc_ind_r; [done|].
  intros st st' _ Hs IH. by eapply Hstep.
Qed.

(** What a step does to the published list: a cycle that completes replaces
    it by one of at most [maxProcesses] entries, and anything else leaves it
    as it was. *)
Lemma step_processes st st' :
  step st st' ->
  length (processes (mon st')) <= maxProcesses \/
  processes (mon st') = processes (mon st).
Proof.
  destruct 1.
  - by right.
  - right. destruct (processMetrics (mon st) !! pid) as [metrics|] eqn:Hm.
    + by destruct (GetProcessMetrics_parts st pid metrics Hm) as (v & -> & _).
    + by rewrite GetProcessMetrics_None.
  - right. apply EnsureProcessMetrics_same_registry.
  - right. apply GetCurrentProcessData_same_registry.
  - by right.
  - destruct (UpdateMetrics_processes st) as [H1 H2].
    destruct (UpdateMetrics st).1; [right; by apply H2|left; by apply H1].
  - by right.
  - right. apply updateProcessTimeSeriesMetrics_same_registry.
Qed.

(** C5. A cycle that completes publishes a process list of at most
    [maxProcesses] (150) entries, however many processes were enumerated;
    and in every state of a run, the published list has at most that many. *)
Theorem published_list_bounded st :
  ((UpdateMetrics st).1 = None ->
   length (GetProcesses (UpdateMetrics st).2) <= maxProcesses) /\
  (reachable st -> length (GetProcesses st) <= maxProcesses).
Proof.
  split; [apply UpdateMetrics_processes|].
  revert st. apply reachable_invariant.
  - cbn. unfold maxProcesses. lia.
  - intros st st' IH Hstep. unfold GetProcesses in *.
    destruct (step_processes st st' Hstep) as [?| ->]; done.
Qed.

(** ** The order of floats *)

Lemma SFltb_key x y :
  x <> S754_nan -> y <> S754_nan ->
  SFltb x y = true <-> lex_lt (sf_key x) (sf_key y).
Proof.
  intros Hx Hy. unfold SFltb, lex_lt.
  destruct x as [sx|[]| |[] mx ex], y as [sy|[]| |[] my ey]; try done; cbn;
    repeat match goal with
    | |- context [Z.compare ?a ?b] => destruct (Z.compare_spec a b); subst
    | |- context [Pos.compare_cont Eq ?a ?b] =>
        change (Pos.compare_cont Eq a b) with (Pos.compare a b);
        destruct (Pos.compare_spec a b); subst
    end; cbn; (split; [intros ?; try done; lia|intros ?; try done; lia]).
Qed.

Lemma is_nan_Prim2SF x : PrimFloat.is_nan x = false -> Prim2SF x <> S754_nan.
Proof.
  unfold PrimFloat.is_nan. rewrite FloatAxioms.eqb_spec. intros H E.
  rewrite E in H. done.
Qed.

(** Away from NaN, [x < y] on floats is the order of the keys. *)
Lemma ltb_key x y :
  PrimFloat.is_nan x = false -> PrimFloat.is_nan y = false ->
  PrimFloat.ltb x y = true <-> lex_lt (float_key x) (float_key y).
Proof.
  intros Hx%is_nan_Prim2SF Hy%is_nan_Prim2SF. rewrite ltb_spec.
  by apply SFltb_key.
Qed.

(** Comparing by a float that is never NaN is an ordering the sort accepts. *)
Lemma float64_gt_strict_weak {A} (f : A -> float) (l : list A) :
  Forall (fun a => PrimFloat.is_nan (f a) = false) l ->
  strict_weak_on (fun a b => float64_gt (f a) (f b)) l.
Proof.
  intros Hnan. rewrite Forall_forall in Hnan. unfold float64_gt.
  assert (forall a b, a ∈ l -> b ∈ l ->
    PrimFloat.ltb (f b) (f a) = true <-> lex_lt (float_key (f b)) (float_key (f a)))
    as Hkey by (intros; apply ltb_key; auto).
  split_and!.
  - intros x Hx. apply not_true_is_false. rewrite Hkey by done.
    unfold lex_lt. lia.
  - intros x y z Hx Hy Hz. rewrite !Hkey by done. unfold lex_lt. lia.
  - intros x y z Hx Hy Hz. rewrite !Hkey by done. unfold lex_lt. lia.
Qed.

Lemma float64_gt_0_cases x :
  float64_gt x 0 = true ->
  (exists m e, Prim2SF x = S754_finite false m e) \/ Prim2SF x = S754_infinity false.
Proof.
  unfold float64_gt. rewrite ltb_spec.
  change (Prim2SF 0) with (S754_zero false).
  destruct (Prim2SF x) as [|[]| |[] m e]; try done; [by right|left; by eexists _, _].
Qed.

(** A float that is zero, or at most zero, is not above zero. *)
Lemma float64_eq_0_not_gt x : PrimFloat.eqb x 0 = true -> float64_gt x 0 = false.
Proof.
  unfold float64_gt. rewrite FloatAxioms.eqb_spec, ltb_spec.
  change (Prim2SF 0) with (S754_zero false).
  by destruct (Prim2SF x) as [|[]| |[] m e].
Qed.

Lemma float64_le_0_not_gt x : PrimFloat.leb x 0 = true -> float64_gt x 0 = false.
Proof.
  unfold float64_gt. rewrite leb_spec, ltb_spec.
  change (Prim2SF 0) with (S754_zero false).
  by destruct (Prim2SF x) as [|[]| |[] m e].
Qed.

(** A rate of zero is zero per cent of any budget. *)
Lemma diskPerc_0 systemIOTotal : diskPerc systemIOTotal 0 = 0%float.
Proof.
  unfold diskPerc. destruct (float64_gt systemIOTotal 0) eqn:E; [|done].
  apply Prim2SF_inj. rewrite mul_spec, div_spec.
  change (Prim2SF 0) with (S754_zero false).
  destruct (float64_gt_0_cases _ E) as [(m & e & ->)| ->]; done.
Qed.

(** ** Rounding to binary64 *)

(** The number of binary digits of a number. *)
Lemma digits2_pos_size p : digits2_pos p = Pos.size p.
Proof. induction p as [p IH|p IH|]; cbn; congruence. Qed.

Lemma Zdigits2_log2 m : (0 < m)%Z -> Zdigits2 m = (Z.log2 m + 1)%Z.
Proof.
  destruct m as [|p|p]; try lia. intros _.
  destruct p as [p|p|]; cbn; rewrite ?digits2_pos_size; lia.
Qed.

Lemma Zdigits2_bounds m :
  (0 < m)%Z -> (2 ^ (Zdigits2 m - 1) <= m < 2 ^ Zdigits2 m)%Z.
Proof.
  intros Hm. rewrite Zdigits2_log2 by done.
  pose proof (Z.log2_spec m Hm) as H.
  replace (Z.log2 m + 1 - 1)%Z with (Z.log2 m) by lia.
  replace (Z.log2 m + 1)%Z with (Z.succ (Z.log2 m)) by lia. done.
Qed.

Lemma Zdigits2_pos m : (0 < m)%Z -> (0 < Zdigits2 m)%Z.
Proof.
  intros Hm. rewrite Zdigits2_log2 by done. pose proof (Z.log2_nonneg m). lia.
Qed.

Lemma Zdigits2_mono m n : (0 < m <= n)%Z -> (Zdigits2 m <= Zdigits2 n)%Z.
Proof.
  intros Hm. rewrite !Zdigits2_log2 by lia.
  pose proof (Z.log2_le_mono m n). lia.
Qed.

Lemma Zdigits2_below m d : (0 < m < 2 ^ d)%Z -> (0 <= d)%Z -> (Zdigits2 m <= d)%Z.
Proof.
  intros Hm Hd. rewrite Zdigits2_log2 by lia.
  pose proof (proj1 (Z.log2_lt_pow2 m d ltac:(lia)) ltac:(lia)). lia.
Qed.

Lemma Zdigits2_above m d : (2 ^ d <= m)%Z -> (0 <= d)%Z -> (d < Zdigits2 m)%Z.
Proof.
  intros Hm Hd.
  assert (0 < m)%Z by (pose proof (Z.pow_pos_nonneg 2 d); lia).
  rewrite Zdigits2_log2 by lia.
  pose proof (proj1 (Z.log2_le_pow2 m d ltac:(lia)) ltac:(lia)). lia.
Qed.

Lemma Zdigits2_div_pow2 m n :
  (0 < m)%Z -> (0 <= n < Zdigits2 m)%Z ->
  (0 < m / 2 ^ n)%Z /\ Zdigits2 (m / 2 ^ n) = (Zdigits2 m - n)%Z.
Proof.
  intros Hm Hn.
  assert (0 < m / 2 ^ n)%Z as Hpos.
  { apply Z.div_str_pos. split; [apply Z.pow_pos_nonneg; lia|].
    pose proof (Zdigits2_bounds m Hm) as [Hlow _].
    etrans; [|exact Hlow]. apply Z.pow_le_mono_r; lia. }
  split; [done|].
  rewrite !Zdigits2_log2 by done. rewrite Zdigits2_log2 in Hn by done.
  rewrite <- Z.shiftr_div_pow2 by lia. rewrite Z.log2_shiftr by done. lia.
Qed.

Lemma Zdigits2_mul_pow2 m n :
  (0 < m)%Z -> (0 <= n)%Z -> Zdigits2 (m * 2 ^ n) = (Zdigits2 m + n)%Z.
Proof.
  intros Hm Hn.
  assert (0 < m * 2 ^ n)%Z by (pose proof (Z.pow_pos_nonneg 2 n); nia).
  rewrite !Zdigits2_log2 by done. rewrite Z.log2_mul_pow2 by lia. lia.
Qed.

Lemma Zdigits2_succ m :
  (0 < m)%Z ->
  Zdigits2 (m + 1) = Zdigits2 m \/ Zdigits2 (m + 1) = (Zdigits2 m + 1)%Z.
Proof.
  intros Hm. rewrite !Zdigits2_log2 by lia.
  destruct (Z.log2_succ_or m) as [E|E]; unfold Z.succ in E; rewrite E; lia.
Qed.

(** The exponent of the last digit kept for a number of magnitude [x]. *)
Lemma fexp_eq x : fexp prec emax x = Z.max (x - 53) (-1074).
Proof. reflexivity. Qed.

(** Shifting to the right. *)
Lemma shr_1_m mrs : (0 <= shr_m mrs)%Z -> shr_m (shr_1 mrs) = (shr_m mrs / 2)%Z.
Proof.
  destruct mrs as [m r s]. cbn [shr_m]. intros Hm. rewrite <- Z.div2_div.
  destruct m as [|[p|p|]|p]; try reflexivity; lia.
Qed.

Lemma iter_pos_shr_1 p mrs :
  (0 <= shr_m mrs)%Z ->
  shr_m (SpecFloat.iter_pos shr_1 p mrs) = (shr_m mrs / 2 ^ Z.pos p)%Z.
Proof.
  revert mrs. induction p as [p IH|p IH|]; intros mrs Hm; cbn [SpecFloat.iter_pos].
  - assert (0 <= shr_m (shr_1 mrs))%Z as H1.
    { rewrite shr_1_m by done. apply Z.div_pos; lia. }
    assert (0 <= shr_m (SpecFloat.iter_pos shr_1 p (shr_1 mrs)))%Z as H2.
    { rewrite IH by done. apply Z.div_pos; [done|]. apply Z.pow_pos_nonneg; lia. }
    assert (2 ^ Z.pos p~1 = 2 * 2 ^ Z.pos p * 2 ^ Z.pos p)%Z as ->.
    { replace (Z.pos p~1) with (1 + Z.pos p + Z.pos p)%Z by lia.
      rewrite !Z.pow_add_r by lia. by rewrite Z.pow_1_r. }
    pose proof (Z.pow_pos_nonneg 2 (Z.pos p) ltac:(lia) ltac:(lia)) as Hp.
    rewrite IH, IH, shr_1_m by done. rewrite !Z.div_div by lia. f_equal; ring.
  - assert (0 <= shr_m (SpecFloat.iter_pos shr_1 p mrs))%Z as H2.
    { rewrite IH by done. apply Z.div_pos; [done|]. apply Z.pow_pos_nonneg; lia. }
    assert (2 ^ Z.pos p~0 = 2 ^ Z.pos p * 2 ^ Z.pos p)%Z as ->.
    { replace (Z.pos p~0) with (Z.pos p + Z.pos p)%Z by lia.
      by rewrite !Z.pow_add_r by lia. }
    pose proof (Z.pow_pos_nonneg 2 (Z.pos p) ltac:(lia) ltac:(lia)) as Hp.
    rewrite IH, IH by done. rewrite !Z.div_div by lia. f_equal; ring.
  - by rewrite shr_1_m.
Qed.

Lemma shr_record_of_loc_m m l : shr_m (shr_record_of_loc m l) = m.
Proof. by destruct l as [|[]]. Qed.

(** One shift of [binary_round_aux]: a number whose last digit is not
    above the last digit to keep, and which is not below the least
    magnitude, keeps its magnitude and ends at the last digit to keep. *)
Lemma shr_fexp_step m e l :
  (0 < m)%Z ->
  (e <= fexp prec emax (Zdigits2 m + e))%Z ->
  (-1074 < Zdigits2 m + e)%Z ->
  (0 < shr_m (shr_fexp prec emax m e l).1)%Z /\
  (shr_fexp prec emax m e l).2 = fexp prec emax (Zdigits2 m + e) /\
  (Zdigits2 (shr_m (shr_fexp prec emax m e l).1) + (shr_fexp prec emax m e l).2
   = Zdigits2 m + e)%Z.
Proof.
  intros Hm He Hmin. unfold shr_fexp, shr.
  set (E := fexp prec emax (Zdigits2 m + e)) in *.
  assert (E < Zdigits2 m + e)%Z as HE by (unfold E; rewrite fexp_eq; lia).
  destruct (E - e)%Z as [|n|n] eqn:En; cbn [fst snd]; try lia.
  - rewrite shr_record_of_loc_m. split_and!; lia.
  - rewrite iter_pos_shr_1 by (rewrite shr_record_of_loc_m; lia).
    rewrite shr_record_of_loc_m.
    destruct (Zdigits2_div_pow2 m (Z.pos n) Hm ltac:(lia)) as [Hpos Hdig].
    split_and!; [done|lia|]. rewrite Hdig. lia.
Qed.

Lemma round_nearest_even_cases m l :
  round_nearest_even m l = m \/ round_nearest_even m l = (m + 1)%Z.
Proof. destruct l as [|[]]; cbn; [by left|destruct (Z.even m); auto|by left|by right]. Qed.

(** [binary_round_aux] on a number above zero as [SFdiv] and [binary_round]
    give it: the result is an infinity of the sign, or a float of the sign,
    in order, of the magnitude of the number or one more; it is no infinity
    when the magnitude is below the largest. *)
Lemma binary_round_aux_pos sx mx ex lx :
  (0 < mx)%Z ->
  (ex <= fexp prec emax (Zdigits2 mx + ex))%Z ->
  (-1074 < Zdigits2 mx + ex)%Z ->
  (binary_round_aux prec emax sx mx ex lx = S754_infinity sx /\
   (1023 < Zdigits2 mx + ex)%Z) \/
  exists m e,
    binary_round_aux prec emax sx mx ex lx = S754_finite sx m e /\
    bounded prec emax m e = true /\
    (Zdigits2 mx + ex <= Z.pos (digits2_pos m) + e <= Zdigits2 mx + ex + 1)%Z.
Proof.
  intros Hm He Hmin. unfold binary_round_aux.
  destruct (shr_fexp_step mx ex lx Hm He Hmin) as (H1 & H2 & H3).
  destruct (shr_fexp prec emax mx ex lx) as [mrs' e'] eqn:E1. cbn [fst snd] in *.
  set (m1 := round_nearest_even (shr_m mrs') (loc_of_shr_record mrs')).
  assert (0 < m1)%Z as Hm1.
  { destruct (round_nearest_even_cases (shr_m mrs') (loc_of_shr_record mrs'))
      as [E|E]; fold m1 in E; lia. }
  assert (Zdigits2 (shr_m mrs') <= Zdigits2 m1 <= Zdigits2 (shr_m mrs') + 1)%Z as Hd1.
  { destruct (round_nearest_even_cases (shr_m mrs') (loc_of_shr_record mrs'))
      as [E|E]; fold m1 in E; rewrite E; [lia|].
    destruct (Zdigits2_succ (shr_m mrs') H1) as [-> | ->]; lia. }
  assert (e' <= fexp prec emax (Zdigits2 m1 + e'))%Z as He1.
  { rewrite H2 at 1. rewrite !fexp_eq. lia. }
  destruct (shr_fexp_step m1 e' loc_Exact Hm1 He1 ltac:(lia)) as (K1 & K2 & K3).
  destruct (shr_fexp prec emax m1 e' loc_Exact) as [mrs'' e''] eqn:E2.
  cbn [fst snd] in *.
  destruct (shr_m mrs'') as [|m|m] eqn:Em; try lia.
  change (Zdigits2 (Z.pos m)) with (Z.pos (digits2_pos m)) in K3.
  destruct (Z.leb_spec e'' (emax - prec)) as [Hle|Hgt].
  - right. exists m, e''. split; [done|]. split; [|lia].
    unfold bounded, canonical_mantissa. apply andb_true_iff. split.
    + apply Z.eqb_eq. rewrite K3. lia.
    + by apply Z.leb_le.
  - left. split; [done|]. rewrite K2, fexp_eq in Hgt.
    change (emax - prec)%Z with 971%Z in Hgt. lia.
Qed.

Lemma bounded_range m e :
  bounded prec emax m e = true ->
  (-1074 <= e <= 971)%Z /\ (Z.pos (digits2_pos m) <= 53)%Z /\
  e = fexp prec emax (Z.pos (digits2_pos m) + e).
Proof.
  unfold bounded, canonical_mantissa. intros [H1 H2]%andb_true_iff.
  apply Z.eqb_eq in H1. apply Z.leb_le in H2.
  change (emax - prec)%Z with 971%Z in H2. rewrite fexp_eq in *. lia.
Qed.

(** Aligning a mantissa to a lower exponent. *)
Lemma Pos_iter_xO m d : Z.pos (Pos.iter xO m d) = (Z.pos m * 2 ^ Z.pos d)%Z.
Proof.
  induction d as [|d IH] using Pos.peano_ind.
  - cbn. lia.
  - rewrite Pos.iter_succ, Pos2Z.inj_xO, IH, Pos2Z.inj_succ, Z.pow_succ_r by lia.
    ring.
Qed.

Lemma shl_align_spec mx ex ex' :
  (shl_align mx ex ex').2 = Z.min ex ex' /\
  Z.pos (shl_align mx ex ex').1 = (Z.pos mx * 2 ^ (ex - Z.min ex ex'))%Z.
Proof.
  unfold shl_align. destruct (ex' - ex)%Z as [|d|d] eqn:E; cbn [fst snd].
  - replace (Z.min ex ex') with ex by lia. rewrite Z.sub_diag. split; lia.
  - replace (Z.min ex ex') with ex by lia. rewrite Z.sub_diag. split; lia.
  - replace (Z.min ex ex') with ex' by lia. split; [done|].
    rewrite Pos_iter_xO. f_equal. f_equal. lia.
Qed.

Lemma shl_align_digits mx ex ex' :
  (Zdigits2 (Z.pos (shl_align mx ex ex').1) + (shl_align mx ex ex').2
   = Z.pos (digits2_pos mx) + ex)%Z.
Proof.
  destruct (shl_align_spec mx ex ex') as [-> ->].
  rewrite Zdigits2_mul_pow2 by lia. cbn [Zdigits2]. lia.
Qed.

(** [binary_round] of a mantissa and an exponent that are not below the
    least magnitude. *)
Lemma binary_round_pos sx mx ex :
  (-1074 < Z.pos (digits2_pos mx) + ex)%Z ->
  (binary_round prec emax sx mx ex = S754_infinity sx /\
   (1023 < Z.pos (digits2_pos mx) + ex)%Z) \/
  exists m e,
    binary_round prec emax sx mx ex = S754_finite sx m e /\
    bounded prec emax m e = true /\
    (Z.pos (digits2_pos mx) + ex <= Z.pos (digits2_pos m) + e
     <= Z.pos (digits2_pos mx) + ex + 1)%Z.
Proof.
  intros Hmin. unfold binary_round.
  pose proof (shl_align_digits mx ex (fexp prec emax (Z.pos (digits2_pos mx) + ex)))
    as Hd.
  destruct (shl_align_spec mx ex (fexp prec emax (Z.pos (digits2_pos mx) + ex)))
    as [He _].
  destruct (shl_align mx ex _) as [mz ez]. cbn [fst snd] in *.
  destruct (binary_round_aux_pos sx (Z.pos mz) ez loc_Exact) as [[E H]|(m & e & E & H)];
    [lia|rewrite Hd; lia|lia|left|right].
  - split; [done|lia].
  - exists m, e. split; [done|]. split; [tauto|lia].
Qed.

(** The float of an integer: zero for zero, and else a finite float of the
    sign of the integer, in order, whose magnitude is the number of digits
    of the integer or one more. *)
Lemma float64_of_Z_spec z :
  (Zdigits2 (Z.abs z) <= 1000)%Z ->
  (z = 0%Z /\ Prim2SF (float64_of_Z z) = S754_zero false) \/
  (z <> 0%Z /\ exists m e,
     Prim2SF (float64_of_Z z) = S754_finite (z <? 0)%Z m e /\
     bounded prec emax m e = true /\
     (Zdigits2 (Z.abs z) <= Z.pos (digits2_pos m) + e <= Zdigits2 (Z.abs z) + 1)%Z).
Proof.
  intros Hz. unfold float64_of_Z.
  assert (forall s p, (Z.pos (digits2_pos p) <= 1000)%Z ->
    exists m e,
      Prim2SF (SF2Prim (binary_round prec emax s p 0)) = S754_finite s m e /\
      bounded prec emax m e = true /\
      (Z.pos (digits2_pos p) <= Z.pos (digits2_pos m) + e
       <= Z.pos (digits2_pos p) + 1)%Z) as Hround.
  { intros s p Hp.
    destruct (binary_round_pos s p 0 ltac:(lia)) as [[E H]|(m & e & E & Hb & H)];
      [lia|].
    exists m, e. rewrite E. split; [|split; [done|lia]].
    by apply Prim2SF_SF2Prim. }
  destruct z as [|p|p]; cbn [binary_normalize].
  - left. split; [done|]. by apply Prim2SF_SF2Prim.
  - right. split; [done|]. by apply Hround.
  - right. split; [done|]. by apply Hround.
Qed.

(** The quotient of two finite floats whose magnitudes are not too far
    apart is a finite float of the sign of the quotient, in order, whose
    magnitude is the difference of the magnitudes, up to two more; it is an
    infinity only when this is above the largest magnitude. *)
Lemma SFdiv_finite sx mx ex sy my ey :
  let D := (Z.pos (digits2_pos mx) + ex - (Z.pos (digits2_pos my) + ey))%Z in
  (-1074 < D)%Z ->
  (SFdiv prec emax (S754_finite sx mx ex) (S754_finite sy my ey)
     = S754_infinity (xorb sx sy) /\ (1022 < D)%Z) \/
  exists m e,
    SFdiv prec emax (S754_finite sx mx ex) (S754_finite sy my ey)
      = S754_finite (xorb sx sy) m e /\
    bounded prec emax m e = true /\
    (D <= Z.pos (digits2_pos m) + e <= D + 2)%Z.
Proof.
  intros D HD. unfold SFdiv, SFdiv_core_binary. cbn [Zdigits2].
  set (d1 := Z.pos (digits2_pos mx)) in *. set (d2 := Z.pos (digits2_pos my)) in *.
  replace (d1 + ex - (d2 + ey))%Z with D by (unfold D; lia).
  set (e' := Z.min (fexp prec emax D) (ex - ey)).
  set (s := (ex - ey - e')%Z).
  assert (0 <= s)%Z as Hs by (unfold s, e'; lia).
  assert (d2 - d1 + 1 <= s)%Z as Hs'.
  { unfold s, e'. rewrite fexp_eq. unfold D in *. lia. }
  set (m' := match s with
             | 0%Z => Z.pos mx
             | Z.pos _ => Z.shiftl (Z.pos mx) s
             | Z.neg _ => 0%Z
             end).
  assert (m' = Z.pos mx * 2 ^ s)%Z as Em'.
  { unfold m'. destruct s as [|p|p] eqn:Es; [lia| |lia].
    by rewrite Z.shiftl_mul_pow2. }
  clearbody m'.
  pose proof (Z_div_mod m' (Z.pos my) ltac:(lia)) as Hdiv.
  destruct (Z.div_eucl m' (Z.pos my)) as [q r]. destruct Hdiv as [Hq Hr].
  pose proof (Zdigits2_bounds (Z.pos mx) ltac:(lia)) as [Hx1 Hx2].
  pose proof (Zdigits2_bounds (Z.pos my) ltac:(lia)) as [Hy1 Hy2].
  cbn [Zdigits2] in Hx1, Hx2, Hy1, Hy2. fold d1 in Hx1, Hx2. fold d2 in Hy1, Hy2.
  pose proof (Zdigits2_pos (Z.pos mx) ltac:(lia)) as Hd1.
  pose proof (Zdigits2_pos (Z.pos my) ltac:(lia)) as Hd2.
  cbn [Zdigits2] in Hd1, Hd2. fold d1 in Hd1. fold d2 in Hd2.
  (* the quotient has between [d1 + s - d2] and [d1 + s - d2 + 1] digits *)
  assert (2 ^ (d1 + s - d2 - 1) <= q)%Z as Hqlow.
  { assert (2 ^ (d1 + s - d2 - 1) * 2 ^ d2 <= m')%Z as H1.
    { rewrite <- Z.pow_add_r by lia. rewrite Em'.
      replace (d1 + s - d2 - 1 + d2)%Z with (d1 - 1 + s)%Z by lia.
      rewrite Z.pow_add_r by lia.
      apply Z.mul_le_mono_nonneg_r; [apply Z.pow_nonneg; lia|done]. }
    pose proof (Z.pow_pos_nonneg 2 (d1 + s - d2 - 1) ltac:(lia) ltac:(lia)).
    nia. }
  assert (q < 2 ^ (d1 + s - d2 + 1))%Z as Hqhigh.
  { assert (m' < 2 ^ (d1 + s - d2 + 1) * 2 ^ (d2 - 1))%Z as H1.
    { rewrite <- Z.pow_add_r by lia. rewrite Em'.
      replace (d1 + s - d2 + 1 + (d2 - 1))%Z with (d1 + s)%Z by lia.
      rewrite Z.pow_add_r by lia.
      apply Z.mul_lt_mono_pos_r; [apply Z.pow_pos_nonneg; lia|done]. }
    pose proof (Z.pow_pos_nonneg 2 (d1 + s - d2 + 1) ltac:(lia) ltac:(lia)).
    pose proof (Z.pow_pos_nonneg 2 (d2 - 1) ltac:(lia) ltac:(lia)).
    nia. }
  assert (0 < q)%Z as Hqpos.
  { pose proof (Z.pow_pos_nonneg 2 (d1 + s - d2 - 1) ltac:(lia) ltac:(lia)). lia. }
  pose proof (Zdigits2_above q (d1 + s - d2 - 1) Hqlow ltac:(lia)) as Hdq1.
  pose proof (Zdigits2_below q (d1 + s - d2 + 1) ltac:(lia) ltac:(lia)) as Hdq2.
  assert (d1 + s - d2 + e' = D)%Z as HDe by (unfold s, D; lia).
  destruct (binary_round_aux_pos (xorb sx sy) q e' (new_location (Z.pos my) r))
    as [[E H]|(m & e & E & Hb & H)].
  - done.
  - unfold e' at 1. rewrite !fexp_eq. lia.
  - lia.
  - left. split; [done|lia].
  - right. exists m, e. split; [done|]. split; [done|lia].
Qed.

Lemma finite_upto_le lo hi x : (lo <= hi)%Z -> finite_upto lo x -> finite_upto hi x.
Proof. destruct x as [| | |s m e]; cbn; try done. intros ? [? ?]. split; [done|lia]. Qed.

(** The sum of two finite floats is finite as long as their magnitudes are
    away from the largest. *)
Lemma SFadd_finite_upto K x y :
  (K <= 1000)%Z -> finite_upto K x -> finite_upto K y ->
  finite_upto (K + 2) (SFadd prec emax x y).
Proof.
  intros HK Hx Hy.
  destruct x as [sx| | |sx mx ex], y as [sy| | |sy my ey]; cbn in Hx, Hy; try done.
  - cbn. by destruct sx, sy.
  - cbn. split; [tauto|lia].
  - cbn. split; [tauto|lia].
  - destruct Hx as [Hbx Hmx], Hy as [Hby Hmy].
    destruct (bounded_range mx ex Hbx) as (Hex & _ & _).
    destruct (bounded_range my ey Hby) as (Hey & _ & _).
    unfold SFadd. set (ez := Z.min ex ey).
    destruct (shl_align_spec mx ex ez) as [_ Ea].
    destruct (shl_align_spec my ey ez) as [_ Eb].
    replace (Z.min ex ez) with ez in Ea by (unfold ez; lia).
    replace (Z.min ey ez) with ez in Eb by (unfold ez; lia).
    set (a := Z.pos (shl_align mx ex ez).1) in *.
    set (b := Z.pos (shl_align my ey ez).1) in *.
    assert (0 < a < 2 ^ (K - ez))%Z as Ha.
    { split; [unfold a; lia|]. rewrite Ea.
      pose proof (Zdigits2_bounds (Z.pos mx) ltac:(lia)) as [_ Hup].
      cbn [Zdigits2] in Hup.
      eapply Z.lt_le_trans.
      - apply Z.mul_lt_mono_pos_r; [apply Z.pow_pos_nonneg; unfold ez; lia|exact Hup].
      - rewrite <- Z.pow_add_r by (unfold ez; lia).
        apply Z.pow_le_mono_r; unfold ez; lia. }
    assert (0 < b < 2 ^ (K - ez))%Z as Hb.
    { split; [unfold b; lia|]. rewrite Eb.
      pose proof (Zdigits2_bounds (Z.pos my) ltac:(lia)) as [_ Hup].
      cbn [Zdigits2] in Hup.
      eapply Z.lt_le_trans.
      - apply Z.mul_lt_mono_pos_r; [apply Z.pow_pos_nonneg; unfold ez; lia|exact Hup].
      - rewrite <- Z.pow_add_r by (unfold ez; lia).
        apply Z.pow_le_mono_r; unfold ez; lia. }
    assert (Z.abs (cond_Zopp sx a + cond_Zopp sy b) < 2 ^ (K - ez + 1))%Z as Habs.
    { rewrite Z.pow_add_r by (unfold ez; lia). unfold cond_Zopp.
      destruct sx, sy; lia. }
    assert (forall s p, (Z.pos p < 2 ^ (K - ez + 1))%Z ->
              finite_upto (K + 2) (binary_round prec emax s p ez)) as Hround.
    { intros s p Hp.
      pose proof (Zdigits2_pos (Z.pos p) ltac:(lia)) as H1.
      pose proof (Zdigits2_below (Z.pos p) (K - ez + 1) ltac:(lia)
                    ltac:(unfold ez; lia)) as H2.
      cbn [Zdigits2] in H1, H2.
      destruct (binary_round_pos s p ez ltac:(unfold ez; lia))
        as [[E H]|(m & e & E & Hbd & H)]; [lia|].
      rewrite E. cbn. split; [done|lia]. }
    destruct (cond_Zopp sx a + cond_Zopp sy b)%Z as [|p|p]; cbn [binary_normalize].
    + done.
    + apply Hround. lia.
    + apply Hround. lia.
Qed.

Lemma time_Sub_range t u : (minDuration <= time_Sub t u <= maxDuration)%Z.
Proof.
  unfold time_Sub, minDuration, maxDuration.
  destruct (Z.ltb_spec (t - u) (- 2 ^ 63)); [lia|].
  destruct (Z.ltb_spec (2 ^ 63 - 1) (t - u)); lia.
Qed.

(** The seconds of a duration are a finite float. *)
Lemma Duration_Seconds_finite d :
  (minDuration <= d <= maxDuration)%Z ->
  finite_upto 37 (Prim2SF (Duration_Seconds d)).
Proof.
  unfold minDuration, maxDuration. intros Hd. unfold Duration_Seconds.
  rewrite add_spec, div_spec.
  change (Prim2SF 1e9) with (S754_finite false 8388608000000000 (-23)).
  assert (Z.abs (Z.quot d Second) < 2 ^ 34)%Z as Hsec.
  { rewrite <- (Z.quot_abs d Second) by done.
    change (Z.abs Second) with Second.
    apply Z.quot_lt_upper_bound; unfold Second; lia. }
  assert (Z.abs (Z.rem d Second) < 2 ^ 30)%Z as Hnsec.
  { pose proof (Z.rem_bound_abs d Second ltac:(done)) as H.
    change (Z.abs Second) with 1000000000%Z in H. lia. }
  apply (SFadd_finite_upto 35); [lia| |].
  - destruct (float64_of_Z_spec (Z.quot d Second))
      as [[_ ->]|(Hnz & m & e & -> & Hb & H)]; cbn; [|done|].
    { destruct (decide (Z.quot d Second = 0%Z)) as [-> |]; [done|].
      pose proof (Zdigits2_below (Z.abs (Z.quot d Second)) 34). lia. }
    pose proof (Zdigits2_below (Z.abs (Z.quot d Second)) 34).
    split; [done|lia].
  - destruct (float64_of_Z_spec (Z.rem d Second))
      as [[_ ->]|(Hnz & m & e & -> & Hb & H)]; [|done|].
    { destruct (decide (Z.rem d Second = 0%Z)) as [-> |]; [done|].
      pose proof (Zdigits2_below (Z.abs (Z.rem d Second)) 30). lia. }
    pose proof (Zdigits2_below (Z.abs (Z.rem d Second)) 30 ltac:(lia) ltac:(lia)).
    pose proof (Zdigits2_pos (Z.abs (Z.rem d Second)) ltac:(lia)).
    destruct (SFdiv_finite (Z.rem d Second <? 0)%Z m e false 8388608000000000 (-23))
      as [[E H']|(m' & e' & E & Hb' & H')].
    + change (Z.pos (digits2_pos 8388608000000000)) with 53%Z. lia.
    + change (Z.pos (digits2_pos 8388608000000000)) with 53%Z in H'. lia.
    + change (Z.pos (digits2_pos 8388608000000000)) with 53%Z in H'.
      unfold SF64div. rewrite E. cbn. split; [done|lia].
Qed.

(** The magnitude of a rate: for a byte difference above zero and seconds
    that are a finite float above zero, the rate is +Inf or a finite float
    above zero, in order, whose magnitude is at least the number of digits
    of the difference, less the 11 of 1024, less the magnitude of the
    seconds. *)
Lemma rate_magnitude delta seconds ms es :
  (0 < delta < 2 ^ 64)%Z ->
  Prim2SF seconds = S754_finite false ms es ->
  Prim2SF (float64_of_Z delta / 1024 / seconds) = S754_infinity false \/
  exists m e,
    Prim2SF (float64_of_Z delta / 1024 / seconds) = S754_finite false m e /\
    bounded prec emax m e = true /\
    (Zdigits2 delta - 11 - (Z.pos (digits2_pos ms) + es)
     <= Z.pos (digits2_pos m) + e)%Z.
Proof.
  intros Hdelta Es.
  pose proof (Prim2SF_valid seconds) as Hbs. rewrite Es in Hbs. cbn in Hbs.
  destruct (bounded_range ms es Hbs) as (Hes & Hds & _).
  pose proof (Zdigits2_below delta 64 ltac:(lia) ltac:(lia)) as Hd64.
  pose proof (Zdigits2_pos delta ltac:(lia)) as Hd0.
  destruct (float64_of_Z_spec delta)
    as [[? _]|(_ & m & e & Ex & Hb & Hmag)];
    [rewrite Z.abs_eq by lia; lia|lia|].
  rewrite Z.abs_eq in Hmag by lia.
  replace (delta <? 0)%Z with false in Ex by lia.
  rewrite !div_spec, Ex, Es.
  change (Prim2SF 1024) with (S754_finite false 4503599627370496 (-42)).
  unfold SF64div.
  destruct (SFdiv_finite false m e false 4503599627370496 (-42))
    as [[E H]|(m1 & e1 & E & Hb1 & H1)].
  - change (Z.pos (digits2_pos 4503599627370496)) with 53%Z. lia.
  - change (Z.pos (digits2_pos 4503599627370496)) with 53%Z in H. lia.
  - change (Z.pos (digits2_pos 4503599627370496)) with 53%Z in H1.
    rewrite E. cbn [xorb].
    destruct (SFdiv_finite false m1 e1 false ms es)
      as [[E' _]|(m2 & e2 & E' & Hb2 & H2)].
    + lia.
    + left. by rewrite E'.
    + right. exists m2, e2. rewrite E'. split; [done|]. split; [done|lia].
Qed.

(** A byte difference above zero, over 1024, over seconds above zero, is a
    rate above zero. *)
Lemma rate_above_zero delta seconds :
  (0 < delta < 2 ^ 64)%Z ->
  float64_gt seconds 0 = true ->
  finite_upto 1024 (Prim2SF seconds) ->
  float64_gt (float64_of_Z delta / 1024 / seconds) 0 = true.
Proof.
  intros Hdelta Hpos Hfin.
  destruct (float64_gt_0_cases seconds Hpos) as [(ms & es & Es)|Es];
    [|by rewrite Es in Hfin].
  unfold float64_gt. rewrite ltb_spec.
  change (Prim2SF 0) with (S754_zero false).
  by destruct (rate_magnitude delta seconds ms es Hdelta Es)
    as [-> |(m & e & -> & _)].
Qed.

(** Two finite floats above zero compare as their magnitudes when these
    differ. *)
Lemma SFltb_magnitude mc ec mx ex :
  bounded prec emax mc ec = true -> bounded prec emax mx ex = true ->
  (Z.pos (digits2_pos mc) + ec < Z.pos (digits2_pos mx) + ex)%Z ->
  SFltb (S754_finite false mc ec) (S754_finite false mx ex) = true.
Proof.
  intros Hc Hx Hmag.
  destruct (bounded_range mc ec Hc) as (_ & _ & Ec).
  destruct (bounded_range mx ex Hx) as (_ & _ & Ex).
  rewrite fexp_eq in Ec, Ex.
  unfold SFltb, SFcompare.
  destruct (Z.compare_spec ec ex) as [E|E|E]; [|done|lia].
  subst ex.
  assert (Zdigits2 (Z.pos mc) < Zdigits2 (Z.pos mx))%Z as Hd by (cbn; lia).
  assert (Z.pos mc < Z.pos mx)%Z as Hlt.
  { destruct (Z.lt_ge_cases (Z.pos mc) (Z.pos mx)) as [?|Hge]; [done|].
    pose proof (Zdigits2_mono (Z.pos mx) (Z.pos mc) ltac:(lia)). lia. }
  change (Pos.compare_cont Eq mc mx) with (Pos.compare mc mx).
  by rewrite (proj2 (Pos.compare_lt_iff mc mx) Hlt).
Qed.

Lemma SFleb_magnitude mt et mc ec :
  bounded prec emax mt et = true -> bounded prec emax mc ec = true ->
  SFleb (S754_finite false mt et) (S754_finite false mc ec) = true ->
  (Z.pos (digits2_pos mt) + et <= Z.pos (digits2_pos mc) + ec)%Z.
Proof.
  intros Ht Hc Hle.
  destruct (bounded_range mt et Ht) as (_ & _ & Et).
  destruct (bounded_range mc ec Hc) as (_ & _ & Ec).
  rewrite fexp_eq in Et, Ec.
  unfold SFleb, SFcompare in Hle.
  destruct (Z.compare_spec et ec) as [E|E|E]; [|lia|done].
  subst ec.
  change (Pos.compare_cont Eq mt mc) with (Pos.compare mt mc) in Hle.
  assert (Z.pos mt <= Z.pos mc)%Z as Hm.
  { destruct (Pos.compare_spec mt mc); [lia|lia|done]. }
  pose proof (Zdigits2_mono (Z.pos mt) (Z.pos mc) ltac:(lia)) as Hd.
  cbn [Zdigits2] in Hd. lia.
Qed.

(** A byte difference of 2^63 or more over at most four seconds is a rate
    above 2^48 KB/s. *)
Lemma rate_enormous delta seconds :
  (2 ^ 63 <= delta < 2 ^ 64)%Z ->
  float64_gt seconds 0 = true ->
  PrimFloat.leb seconds 4 = true ->
  PrimFloat.ltb 281474976710656 (float64_of_Z delta / 1024 / seconds) = true.
Proof.
  intros Hdelta Hpos Hle.
  pose proof (Zdigits2_above delta 63 ltac:(lia) ltac:(lia)) as Hd.
  rewrite leb_spec in Hle.
  change (Prim2SF 4) with (S754_finite false 4503599627370496 (-50)) in Hle.
  destruct (float64_gt_0_cases seconds Hpos) as [(ms & es & Es)|Es];
    [|by rewrite Es in Hle].
  pose proof (Prim2SF_valid seconds) as Hbs. rewrite Es in Hbs, Hle. cbn in Hbs.
  pose proof (SFleb_magnitude ms es 4503599627370496 (-50) Hbs eq_refl Hle) as Hmag.
  change (Z.pos (digits2_pos 4503599627370496)) with 53%Z in Hmag.
  rewrite ltb_spec.
  change (Prim2SF 281474976710656) with (S754_finite false 4503599627370496 (-4)).
  destruct (rate_magnitude delta seconds ms es ltac:(lia) Es)
    as [-> |(m & e & -> & Hb & H)]; [done|].
  apply SFltb_magnitude; [done|done|].
  change (Z.pos (digits2_pos 4503599627370496)) with 53%Z. lia.
Qed.

(** ** Disk rates and percentages *)

(** The four rate fields of a detailed read. *)
Lemma getDetailedProcessInfo_rates st proc :
  let info := (getDetailedProcessInfo st proc).1.1 in
  (ProcessInfo.DiskReadRate info, ProcessInfo.DiskWriteRate info,
   ProcessInfo.DiskReadPerc info, ProcessInfo.DiskWritePerc info) =
  match proc_IOCounters w (6 + tick st) (Pid proc) with
  | Some (ReadBytes, WriteBytes) =>
      diskRates (systemIOTotal (mon st)) (time_Now w (4 + tick st))
        ReadBytes WriteBytes (lastProcessIO (mon st) !! Pid proc)
  | None => (0, 0, 0, 0)%float
  end.
Proof.
  unfold getDetailedProcessInfo. cbn.
  destruct (proc_IOCounters w _ _) as [[ReadBytes WriteBytes]|]; [|done].
  cbn. by destruct (diskRates _ _ _ _ _) as [[[? ?] ?] ?].
Qed.

Lemma uint64_sub_no_wrap (a b : Z) :
  (0 <= b <= a)%Z -> (a < 2 ^ 64)%Z -> uint64_sub a b = (a - b)%Z.
Proof. intros. unfold uint64_sub. apply Z.mod_small. lia. Qed.

Lemma uint64_sub_wrap (a b : Z) :
  (0 <= a < b)%Z -> (b < 2 ^ 64)%Z -> uint64_sub a b = (a - b + 2 ^ 64)%Z.
Proof.
  intros. unfold uint64_sub. symmetry.
  apply (Z.mod_unique_pos _ _ (-1)); lia.
Qed.

(** The rates of a detailed read that finds a cache entry older than now. *)
Lemma getDetailedProcessInfo_rates_hit st proc ReadBytes WriteBytes lastIO :
  proc_IOCounters w (6 + tick st) (Pid proc) = Some (ReadBytes, WriteBytes) ->
  lastProcessIO (mon st) !! Pid proc = Some lastIO ->
  let info := (getDetailedProcessInfo st proc).1.1 in
  let deltaSeconds :=
    Duration_Seconds
      (time_Sub (time_Now w (4 + tick st)) (ProcessIOCounters.Timestamp lastIO)) in
  float64_gt deltaSeconds 0 = true ->
  ProcessInfo.DiskReadRate info =
    (float64_of_Z (uint64_sub ReadBytes (ProcessIOCounters.ReadBytes lastIO))
     / 1024 / deltaSeconds)%float /\
  ProcessInfo.DiskWriteRate info =
    (float64_of_Z (uint64_sub WriteBytes (ProcessIOCounters.WriteBytes lastIO))
     / 1024 / deltaSeconds)%float.
Proof.
  intros Hio Hlast info deltaSeconds Hgt.
  pose proof (getDetailedProcessInfo_rates st proc) as Hr.
  cbv zeta in Hr. fold info in Hr. rewrite Hio, Hlast in Hr.
  unfold diskRates in Hr. fold deltaSeconds in Hr. rewrite Hgt in Hr.
  by injection Hr as -> -> _ _.
Qed.

(** C2, amended. In a detailed read that gets the I/O counters: with a
    cache entry for the pid and [deltaSeconds], the seconds from the entry's
    instant to now, above zero, the read (write) rate is the difference of
    the current and the cached read (write) bytes, over 1024, over
    [deltaSeconds], where the difference is the one of [uint64], modulo
    2^64: it is the difference of the numbers, and the rate the one the
    specification writes, only when the counter has not gone down. When
    [deltaSeconds] is not above zero, and when the cache has no entry, both
    rates are zero. *)
Theorem disk_rate_computation st proc ReadBytes WriteBytes :
  proc_IOCounters w (6 + tick st) (Pid proc) = Some (ReadBytes, WriteBytes) ->
  let info := (getDetailedProcessInfo st proc).1.1 in
  let now := time_Now w (4 + tick st) in
  (forall lastIO, lastProcessIO (mon st) !! Pid proc = Some lastIO ->
     let deltaSeconds :=
       Duration_Seconds (time_Sub now (ProcessIOCounters.Timestamp lastIO)) in
     let lastRead := ProcessIOCounters.ReadBytes lastIO in
     let lastWrite := ProcessIOCounters.WriteBytes lastIO in
     (float64_gt deltaSeconds 0 = true ->
        ProcessInfo.DiskReadRate info =
          (float64_of_Z (uint64_sub ReadBytes lastRead) / 1024 / deltaSeconds)%float /\
        ProcessInfo.DiskWriteRate info =
          (float64_of_Z (uint64_sub WriteBytes lastWrite) / 1024 / deltaSeconds)%float /\
        ((0 <= lastRead <= ReadBytes)%Z -> (ReadBytes < 2 ^ 64)%Z ->
           ProcessInfo.DiskReadRate info = spec_rate ReadBytes lastRead deltaSeconds) /\
        ((0 <= lastWrite <= WriteBytes)%Z -> (WriteBytes < 2 ^ 64)%Z ->
           ProcessInfo.DiskWriteRate info = spec_rate WriteBytes lastWrite deltaSeconds)) /\
     (float64_gt deltaSeconds 0 = false \/ PrimFloat.leb deltaSeconds 0 = true ->
        ProcessInfo.DiskReadRate info = 0%float /\
        ProcessInfo.DiskWriteRate info = 0%float)) /\
  (lastProcessIO (mon st) !! Pid proc = None ->
     ProcessInfo.DiskReadRate info = 0%float /\
     ProcessInfo.DiskWriteRate info = 0%float).
Proof.
  intros Hio info now.
  pose proof (getDetailedProcessInfo_rates st proc) as Hr.
  cbv zeta in Hr. fold info in Hr. rewrite Hio in Hr. fold now in Hr.
  split.
  - intros lastIO Hlast deltaSeconds lastRead lastWrite.
    rewrite Hlast in Hr. unfold diskRates in Hr.
    fold deltaSeconds lastRead lastWrite in Hr. split.
    + intros Hgt. rewrite Hgt in Hr. injection Hr as -> -> _ _.
      split_and!; [done..| |]; intros ? ?; unfold spec_rate;
        by rewrite uint64_sub_no_wrap.
    + intros Hle.
      assert (float64_gt deltaSeconds 0 = false) as Hgt.
      { destruct Hle; [done|by apply float64_le_0_not_gt]. }
      rewrite Hgt in Hr. by injection Hr as -> -> _ _.
  - intros Hlast. rewrite Hlast in Hr. by injection Hr as -> -> _ _.
Qed.

(** The share of the budget a detailed read reports is always the share its
    rate stands for. *)
Lemma getDetailedProcessInfo_perc st proc :
  let info := (getDetailedProcessInfo st proc).1.1 in
  ProcessInfo.DiskReadPerc info =
    diskPerc (systemIOTotal (mon st)) (ProcessInfo.DiskReadRate info) /\
  ProcessInfo.DiskWritePerc info =
    diskPerc (systemIOTotal (mon st)) (ProcessInfo.DiskWriteRate info).
Proof.
  intros info.
  pose proof (getDetailedProcessInfo_rates st proc) as Hr.
  cbv zeta in Hr. fold info in Hr.
  assert (forall r : float * float * float * float,
    r = (0, 0, 0, 0)%float \/
    (r.1.2 = diskPerc (systemIOTotal (mon st)) r.1.1.1 /\
     r.2 = diskPerc (systemIOTotal (mon st)) r.1.1.2) ->
    (ProcessInfo.DiskReadRate info, ProcessInfo.DiskWriteRate info,
     ProcessInfo.DiskReadPerc info, ProcessInfo.DiskWritePerc info) = r ->
    ProcessInfo.DiskReadPerc info =
      diskPerc (systemIOTotal (mon st)) (ProcessInfo.DiskReadRate info) /\
    ProcessInfo.DiskWritePerc info =
      diskPerc (systemIOTotal (mon st)) (ProcessInfo.DiskWriteRate info)) as Hcase.
  { intros r [-> |[H1 H2]] E.
    - injection E as -> -> -> ->. by rewrite diskPerc_0.
    - destruct r as [[[? ?] ?] ?]. cbn in *. by injection E as -> -> -> ->. }
  eapply Hcase; [|exact Hr].
  destruct (proc_IOCounters w _ _) as [[ReadBytes WriteBytes]|]; [|by left].
  unfold diskRates. destruct (lastProcessIO (mon st) !! Pid proc) as [lastIO|];
    [|by left].
  destruct (float64_gt _ 0); [by right|by left].
Qed.

Lemma updateProcessMetrics_systemIOTotal st :
  let st' := (updateProcessMetrics st).2 in
  systemIOTotal (mon st') = systemIOTotal (mon st) \/
  systemIOTotal (mon st') = calculateSystemIOTotal.
Proof.
  destruct (updateProcessMetrics_state st)
    as [[_ ->]|[[n ->]|(pids & allProcesses & newProcessStats & st1 & processes
                         & st2 & _ & E1 & E2 & ->)]]; cbn [snd];
    [by left|by right|right].
  destruct (firstPass_state
    (set_mon (set_systemIOTotal calculateSystemIOTotal (mon st)) (bump 1 st))
    0 pids [] ∅) as [[n Hn] _].
  rewrite E1 in Hn. cbn [snd] in Hn.
  destruct (secondPass_state st1 (topProcesses maxProcesses allProcesses)
              newProcessStats []) as (Hr & _).
  rewrite E2 in Hr. cbn [snd] in Hr.
  destruct Hr as (_ & _ & _ & _ & _ & _ & Hio).
  unfold set_mon, sortProcesses. cbn. rewrite Hio, Hn. done.
Qed.

Lemma step_systemIOTotal st st' :
  step st st' ->
  systemIOTotal (mon st') = systemIOTotal (mon st) \/
  systemIOTotal (mon st') = calculateSystemIOTotal.
Proof.
  destruct 1.
  - by left.
  - left. destruct (processMetrics (mon st) !! pid) as [metrics|] eqn:Hm.
    + by destruct (GetProcessMetrics_parts st pid metrics Hm) as (v & -> & _).
    + by rewrite GetProcessMetrics_None.
  - left. apply EnsureProcessMetrics_same_registry.
  - left. apply GetCurrentProcessData_same_registry.
  - by left.
  - unfold UpdateMetrics.
    destruct (updateSystemMetrics_state st) as [n [[Herr E]|[Herr [snapshot E]]]];
      destruct (updateSystemMetrics st) as [[err|] st1]; cbn [fst snd] in *;
      try done; subst st1; [by left|].
    match goal with |- context [updateProcessMetrics ?s] =>
      pose proof (updateProcessMetrics_systemIOTotal s) as Hio;
      destruct (updateProcessMetrics s) as [[err|] st2]
    end; exact Hio.
  - by left.
  - left. apply updateProcessTimeSeriesMetrics_same_registry.
Qed.

(** In a run, the budget is zero (before the first process sampling) or the
    constant of [calculateSystemIOTotal]. *)
Lemma reachable_systemIOTotal st :
  reachable st ->
  systemIOTotal (mon st) = 0%float \/
  systemIOTotal (mon st) = calculateSystemIOTotal.
Proof.
  revert st. apply reachable_invariant; [by left|].
  intros st st' IH Hstep.
  destruct (step_systemIOTotal st st' Hstep) as [-> | ->]; [done|by right].
Qed.

(** NaN is the one float that is not equal to itself. *)
Lemma is_nan_true_Prim2SF x : PrimFloat.is_nan x = true -> Prim2SF x = S754_nan.
Proof.
  unfold PrimFloat.is_nan. rewrite FloatAxioms.eqb_spec. unfold SFeqb.
  destruct (Prim2SF x) as [[]|[]| |[] m e]; cbn; try done;
    by rewrite Z.compare_refl, Pos.compare_cont_refl.
Qed.

(** [math.Min] against 100: a value below 100 is returned as it is, a
    number that is not below 100 gives 100, NaN gives NaN, and the result
    of a number is at most 100. *)
Lemma math_Min_100 x :
  (PrimFloat.ltb x 100 = true -> math_Min x 100 = x) /\
  (PrimFloat.is_nan x = false -> PrimFloat.ltb x 100 = false ->
     math_Min x 100 = 100%float) /\
  (PrimFloat.is_nan x = true -> PrimFloat.is_nan (math_Min x 100) = true) /\
  (PrimFloat.is_nan x = false -> PrimFloat.leb (math_Min x 100) 100 = true).
Proof.
  unfold math_Min, math_IsInf_neg.
  change (PrimFloat.eqb 100 neg_infinity) with false.
  change (PrimFloat.is_nan 100) with false. rewrite !orb_false_r.
  destruct (PrimFloat.eqb x neg_infinity) eqn:Einf.
  { assert (x = neg_infinity) as ->.
    { apply Prim2SF_inj. rewrite FloatAxioms.eqb_spec in Einf.
      change (Prim2SF neg_infinity) with (S754_infinity true) in *.
      unfold SFeqb in Einf. by destruct (Prim2SF x) as [[]|[]| |[] m e]. }
    split_and!; done. }
  destruct (PrimFloat.is_nan x) eqn:Enan.
  { apply is_nan_true_Prim2SF in Enan. split_and!; try done.
    rewrite ltb_spec, Enan. done. }
  assert (PrimFloat.eqb x 0 && PrimFloat.eqb x 100 = false) as ->.
  { rewrite !FloatAxioms.eqb_spec.
    change (Prim2SF 0) with (S754_zero false).
    change (Prim2SF 100) with (S754_finite false 7036874417766400 (-46)).
    unfold SFeqb. by destruct (Prim2SF x) as [[]|[]| |[] m e]. }
  destruct (PrimFloat.ltb x 100) eqn:Elt.
  - split_and!; try done. intros _. rewrite leb_spec. rewrite ltb_spec in Elt.
    unfold SFleb. unfold SFltb in Elt. by destruct (SFcompare _ _) as [[]|].
  - split_and!; done.
Qed.

(** C7. The percentages a detailed read reports, against the budget
    [systemIOTotal] of the registry: when the budget is zero, the smaller of
    the rate over 1024 and 100, which is the rate over 1024 when that is
    below 100 and 100 when it is a number not below 100, and so never more
    than 100; when the budget is above zero, the rate over the budget times
    100; and in a run a budget that is not zero is above zero. The same
    holds for write. *)
Theorem disk_percentage st proc :
  let info := (getDetailedProcessInfo st proc).1.1 in
  let budget := systemIOTotal (mon st) in
  let fallback (rate perc : float) :=
    let mbs := (rate / 1024)%float in
    perc = math_Min mbs 100%float /\
    (PrimFloat.ltb mbs 100 = true -> perc = mbs) /\
    (PrimFloat.is_nan mbs = false -> PrimFloat.ltb mbs 100 = false ->
       perc = 100%float) /\
    (PrimFloat.is_nan mbs = true -> PrimFloat.is_nan perc = true) /\
    (PrimFloat.is_nan mbs = false -> PrimFloat.leb perc 100 = true) in
  (PrimFloat.eqb budget 0 = true ->
     fallback (ProcessInfo.DiskReadRate info) (ProcessInfo.DiskReadPerc info) /\
     fallback (ProcessInfo.DiskWriteRate info) (ProcessInfo.DiskWritePerc info)) /\
  (float64_gt budget 0 = true \/ (reachable st /\ PrimFloat.eqb budget 0 = false) ->
     ProcessInfo.DiskReadPerc info =
       (ProcessInfo.DiskReadRate info / budget * 100)%float /\
     ProcessInfo.DiskWritePerc info =
       (ProcessInfo.DiskWriteRate info / budget * 100)%float).
Proof.
  intros info budget fallback.
  destruct (getDetailedProcessInfo_perc st proc) as [Hr Hw].
  fold info budget in Hr, Hw. rewrite Hr, Hw. unfold diskPerc. split.
  - intros Hz%float64_eq_0_not_gt. rewrite Hz. unfold fallback. cbv zeta.
    split.
    + destruct (math_Min_100 (ProcessInfo.DiskReadRate info / 1024))
        as (H1 & H2 & H3 & H4).
      split_and!; [done|intros E; by rewrite (H1 E)|intros E1 E2; by rewrite (H2 E1 E2)|
                   exact H3|exact H4].
    + destruct (math_Min_100 (ProcessInfo.DiskWriteRate info / 1024))
        as (H1 & H2 & H3 & H4).
      split_and!; [done|intros E; by rewrite (H1 E)|intros E1 E2; by rewrite (H2 E1 E2)|
                   exact H3|exact H4].
  - intros Hpos. assert (float64_gt budget 0 = true) as ->; [|done].
    destruct Hpos as [?|[Hreach Hnz]]; [done|].
    destruct (reachable_systemIOTotal st Hreach) as [E|E]; fold budget in E;
      rewrite E in *; done.
Qed.

(** C10, amended. In a detailed read, when the read counter is below the
    cached one, the byte difference is the [uint64] one: the difference of
    the numbers plus 2^64, which is above zero, at least 2^64 minus the
    cached counter, and so at least 2^63 for a cached counter of at most
    2^63. With time passed since the cache entry, the rate is this
    difference over 1024, over the seconds: a float above zero, never zero
    or negative, and above 2^48 KB/s when the cached counter is at most 2^63
    and at most four seconds have passed. For a cached counter near 2^64 the
    rate is not large. The same holds for the write counter. *)
Theorem counter_decrease_wraps st proc ReadBytes WriteBytes lastIO :
  proc_IOCounters w (6 + tick st) (Pid proc) = Some (ReadBytes, WriteBytes) ->
  lastProcessIO (mon st) !! Pid proc = Some lastIO ->
  let info := (getDetailedProcessInfo st proc).1.1 in
  let deltaSeconds :=
    Duration_Seconds
      (time_Sub (time_Now w (4 + tick st)) (ProcessIOCounters.Timestamp lastIO)) in
  float64_gt deltaSeconds 0 = true ->
  let wrapped (current last : Z) (rate : float) :=
    (0 <= current < last)%Z -> (last < 2 ^ 64)%Z ->
    let delta := (current - last + 2 ^ 64)%Z in
    uint64_sub current last = delta /\
    (0 < delta < 2 ^ 64)%Z /\ (2 ^ 64 - last <= delta)%Z /\
    ((last <= 2 ^ 63)%Z -> (2 ^ 63 <= delta)%Z) /\
    rate = (float64_of_Z delta / 1024 / deltaSeconds)%float /\
    float64_gt rate 0 = true /\
    ((last <= 2 ^ 63)%Z -> PrimFloat.leb deltaSeconds 4 = true ->
       PrimFloat.ltb 281474976710656 rate = true) in
  wrapped ReadBytes (ProcessIOCounters.ReadBytes lastIO)
    (ProcessInfo.DiskReadRate info) /\
  wrapped WriteBytes (ProcessIOCounters.WriteBytes lastIO)
    (ProcessInfo.DiskWriteRate info).
Proof.
  intros Hio Hlast info deltaSeconds Hgt wrapped.
  destruct (getDetailedProcessInfo_rates_hit st proc ReadBytes WriteBytes lastIO
              Hio Hlast Hgt) as [Hr Hw].
  fold info deltaSeconds in Hr, Hw.
  assert (finite_upto 1024 (Prim2SF deltaSeconds)) as Hfin.
  { apply (finite_upto_le 37); [lia|].
    apply Duration_Seconds_finite, time_Sub_range. }
  assert (forall current last rate,
    rate = (float64_of_Z (uint64_sub current last) / 1024 / deltaSeconds)%float ->
    wrapped current last rate) as Hwrapped.
  { intros current last rate Hrate Hlt Hmax delta.
    assert (uint64_sub current last = delta) as Hsub by (by apply uint64_sub_wrap).
    rewrite Hsub in Hrate. subst delta.
    split_and!; [done|lia|lia|lia|lia|done| |].
    - rewrite Hrate. apply rate_above_zero; [lia|done|done].
    - intros Hlast63 Hle. rewrite Hrate. apply rate_enormous; [lia|done|done]. }
  split; by apply Hwrapped.
Qed.

(** ** The prioritizer *)

Lemma topProcesses_take cap allProcesses :
  topProcesses cap allProcesses =
    take cap (sortProcessesByResourceUsage allProcesses).
Proof.
  unfold topProcesses. destruct (_ <? _) eqn:E; [done|].
  apply Nat.ltb_ge in E. by rewrite take_ge.
Qed.

(** The score by which [sortProcessesByResourceUsage] compares is the sum
    of the CPU per cent and the memory per cent of the process. *)
Lemma score_sum p :
  score p = (ProcessInfo.CPUPercent p + ProcessInfo.MemoryPerc p)%float.
Proof. reflexivity. Qed.

(** C6. The list kept for detailed sampling is the first [cap] entries of
    the basic reads sorted by CPU% + memory%, all of them when there are no
    more than [cap]. The sorted list is a rearrangement of the basic reads,
    and when no sum CPU% + memory% is NaN it is in descending order of this
    sum: no entry has a sum below that of a later one, so no kept entry has
    a sum below that of a dropped one. ([updateProcessMetrics] calls this
    with [cap = maxProcesses].) *)
Theorem topProcesses_by_score cap allProcesses :
  let total (p : ProcessInfo.t) :=
    (ProcessInfo.CPUPercent p + ProcessInfo.MemoryPerc p)%float in
  Forall (fun p => PrimFloat.is_nan (total p) = false) allProcesses ->
  let sorted := sortProcessesByResourceUsage allProcesses in
  let top := topProcesses cap allProcesses in
  sorted ≡ₚ allProcesses /\
  top = take cap sorted /\
  length top = cap `min` length allProcesses /\
  (length allProcesses <= cap -> top = sorted) /\
  StronglySorted (fun p q => PrimFloat.ltb (total p) (total q) = false) sorted /\
  (forall p q, p ∈ top -> q ∈ drop cap sorted ->
     PrimFloat.ltb (total p) (total q) = false).
Proof.
  intros total Hnan sorted top.
  assert (sorted ≡ₚ allProcesses) as Hperm by apply sort_Slice_perm.
  assert (StronglySorted (fun p q => PrimFloat.ltb (total p) (total q) = false) sorted)
    as Hsorted.
  { apply (sort_Slice_sorted _ (fun pi pj => float64_gt (score pi) (score pj))).
    apply (float64_gt_strict_weak score).
    eapply Forall_impl; [exact Hnan|]. intros p Hp. by rewrite score_sum. }
  split_and!.
  - done.
  - apply topProcesses_take.
  - apply topProcesses_length.
  - intros Hle. subst top. rewrite topProcesses_take. apply take_ge.
    fold sorted. by rewrite Hperm.
  - done.
  - intros p q Hp Hq. subst top. rewrite topProcesses_take in Hp. fold sorted in Hp.
    rewrite <- (take_drop cap sorted) in Hsorted.
    by apply (StronglySorted_app_1_elem_of _ _ _ p q Hsorted).
Qed.

(** ** The registry in order *)

Lemma wf_slice_elems_length {A} (h : store A) s :
  wf_slice h s -> length (slice_elems h s) = s_len s.
Proof.
  intros (Hlen & arr & Harr & Hbound). unfold slice_elems. rewrite Harr. cbn.
  rewrite length_take, length_drop. lia.
Qed.

(** A series whose arrays are the same in two heaps is in order in both, and
    holds the same points. *)
Lemma series_ok_same h h' pm :
  series_ok h pm ->
  h_time h' !! s_ptr (ProcessMetrics.Timestamps pm)
    = h_time h !! s_ptr (ProcessMetrics.Timestamps pm) ->
  (forall s, s ∈ ProcessMetrics.floats pm -> h_f64 h' !! s_ptr s = h_f64 h !! s_ptr s) ->
  series_ok h' pm /\ series_view h' pm = series_view h pm.
Proof.
  intros (Hts & [Hwf Hnd] & Hlen) Et Ef. split.
  - split_and!; [by apply (wf_slice_same (h_time h))| |done].
    split; [|done]. apply Forall_forall. intros s Hs.
    apply (wf_slice_same (h_f64 h)); [by apply Ef|].
    by apply (proj1 (Forall_forall _ _) Hwf).
  - unfold series_view. f_equal.
    + apply slice_elems_same. by right.
    + apply Forall_fmap_ext, Forall_forall. intros s Hs.
      apply slice_elems_same. right. by apply Ef.
Qed.

(** [AddMetric] on a series in order: the series it returns is in order and
    holds one more point; its arrays are the old ones or new ones; and no
    other array of the heap has changed. *)
Lemma AddMetric_frame h pm timestamp cpu memory diskReadRate diskWriteRate
    diskReadPerc diskWritePerc netSentRate netRecvRate :
  series_ok h pm ->
  let r := AddMetric h pm timestamp cpu memory diskReadRate diskWriteRate
             diskReadPerc diskWritePerc netSentRate netRecvRate in
  series_ok r.2 r.1 /\
  series_view r.2 r.1 =
    with_point (series_view h pm)
      (Build_MetricPoint timestamp cpu memory diskReadRate diskWriteRate
         diskReadPerc diskWritePerc netSentRate netRecvRate) /\
  (length (h_time h) <= length (h_time r.2) /\
   length (h_f64 h) <= length (h_f64 r.2)) /\
  (s_ptr (ProcessMetrics.Timestamps r.1) = s_ptr (ProcessMetrics.Timestamps pm) \/
   length (h_time h) <= s_ptr (ProcessMetrics.Timestamps r.1)) /\
  (forall s', s' ∈ ProcessMetrics.floats r.1 ->
     s_ptr s' ∈ s_ptr <$> ProcessMetrics.floats pm \/ length (h_f64 h) <= s_ptr s') /\
  (forall p, p < length (h_time h) -> p <> s_ptr (ProcessMetrics.Timestamps pm) ->
     h_time r.2 !! p = h_time h !! p) /\
  (forall p, p < length (h_f64 h) -> p ∉ s_ptr <$> ProcessMetrics.floats pm ->
     h_f64 r.2 !! p = h_f64 h !! p).
Proof.
  intros (Hts & Hfs & Hlen) r.
  destruct (AddMetric_elems h pm timestamp cpu memory diskReadRate diskWriteRate
              diskReadPerc diskWritePerc netSentRate netRecvRate Hts Hfs)
    as (Hts' & Hfs' & Hview).
  destruct (AddMetric_len h pm timestamp cpu memory diskReadRate diskWriteRate
              diskReadPerc diskWritePerc netSentRate netRecvRate) as [Hl1 Hl2].
  destruct (AddMetric_parts h pm timestamp cpu memory diskReadRate diskWriteRate
              diskReadPerc diskWritePerc netSentRate netRecvRate)
    as (Ets & Efs & Eh).
  fold r in Hts', Hfs', Hview, Hl1, Hl2, Ets, Efs, Eh.
  destruct (append_each_elems 0%float sizeof_float64 (h_f64 h)
              (ProcessMetrics.floats pm)
              [cpu; memory; diskReadRate; diskWriteRate; diskReadPerc;
               diskWritePerc; netSentRate; netRecvRate] Hfs eq_refl)
    as (_ & _ & Hlf & Hff & Hpf).
  pose proof (append_header zero_Time sizeof_Time (h_time h)
                (ProcessMetrics.Timestamps pm) [timestamp]) as Hhdr.
  pose proof (append_store_length zero_Time sizeof_Time (h_time h)
                (ProcessMetrics.Timestamps pm) [timestamp]) as Hlt.
  cbv zeta in Hhdr. unfold append_Time in Ets, Eh.
  split_and!.
  - split_and!; [done..|].
    apply Forall_fmap with (f := s_len)
      (P := fun n => n = s_len (ProcessMetrics.Timestamps r.1)).
    rewrite Hl2, Hl1. apply Forall_fmap. eapply Forall_impl; [exact Hlen|].
    cbn. intros s ->. done.
  - exact Hview.
  - rewrite Eh. done.
  - rewrite Eh. done.
  - rewrite Ets. destruct Hhdr as [(_ & -> & _)|(_ & -> & _)]; [by left|right; lia].
  - intros s' Hs'. rewrite Efs in Hs'.
    by apply (proj1 (Forall_forall _ _) Hpf).
  - intros p Hp Hne. rewrite Eh. cbn [h_time]. apply append_frame; [done|by left].
  - intros p Hp Hnin. rewrite Eh. cbn [h_f64]. by apply Hff.
Qed.

Lemma series_ok_ptrs h pm :
  series_ok h pm ->
  s_ptr (ProcessMetrics.Timestamps pm) < length (h_time h) /\
  forall s, s ∈ ProcessMetrics.floats pm -> s_ptr s < length (h_f64 h).
Proof.
  intros (Hts & [Hwf _] & _). split; [by apply wf_slice_ptr|].
  intros s Hs. by apply wf_slice_ptr, (proj1 (Forall_forall _ _) Hwf).
Qed.

Lemma apart_sym pm pm' : apart pm pm' -> apart pm' pm.
Proof.
  intros [Ht Hf]. split; [done|]. intros s s' Hs Hs' E. by apply (Hf s' s).
Qed.

(** A heap that has grown, its old arrays unchanged, holds the same
    registry in order, every series with the same points. *)
Lemma registry_ok_grown h h' pms :
  (forall p, p < length (h_time h) -> h_time h' !! p = h_time h !! p) ->
  (forall p, p < length (h_f64 h) -> h_f64 h' !! p = h_f64 h !! p) ->
  registry_ok h pms ->
  registry_ok h' pms /\
  forall pid pm, pms !! pid = Some pm -> series_view h' pm = series_view h pm.
Proof.
  intros Ht Hf [Hok Hapart].
  assert (forall pid pm, pms !! pid = Some pm ->
            series_ok h' pm /\ series_view h' pm = series_view h pm) as H.
  { intros pid pm Hl. destruct (series_ok_ptrs h pm (Hok pid pm Hl)) as [Hp Hps].
    apply series_ok_same; [by eapply Hok|by apply Ht|].
    intros s Hs. by apply Hf, Hps. }
  split; [split; [|done]|]; intros pid pm Hl; by apply (H pid pm).
Qed.

(** One series replaced or added, in a heap in which the arrays of the
    other series are as they were, and which shares no array with them. *)
Lemma registry_ok_insert h h' pms pid pm' :
  registry_ok h pms ->
  series_ok h' pm' ->
  (forall pid0 pm0, pid0 <> pid -> pms !! pid0 = Some pm0 ->
     h_time h' !! s_ptr (ProcessMetrics.Timestamps pm0)
       = h_time h !! s_ptr (ProcessMetrics.Timestamps pm0) /\
     (forall s, s ∈ ProcessMetrics.floats pm0 ->
        h_f64 h' !! s_ptr s = h_f64 h !! s_ptr s) /\
     apart pm' pm0) ->
  registry_ok h' (<[pid := pm']> pms) /\
  forall pid0 pm0, pid0 <> pid -> pms !! pid0 = Some pm0 ->
    series_view h' pm0 = series_view h pm0.
Proof.
  intros [Hok Hapart] Hpm' Hothers.
  assert (forall pid0 pm0, pid0 <> pid -> pms !! pid0 = Some pm0 ->
            series_ok h' pm0 /\ series_view h' pm0 = series_view h pm0) as H.
  { intros pid0 pm0 Hne Hl. destruct (Hothers pid0 pm0 Hne Hl) as (Et & Ef & _).
    apply series_ok_same; [by eapply Hok|done..]. }
  split; [split|].
  - intros pid0 pm0 Hl. destruct (decide (pid0 = pid)) as [->|Hne].
    + rewrite lookup_insert_eq in Hl. by injection Hl as <-.
    + rewrite lookup_insert_ne in Hl by done. by apply (H pid0 pm0).
  - intros pid1 pid2 pm1 pm2 Hne H1 H2.
    destruct (decide (pid1 = pid)) as [->|Hne1];
      destruct (decide (pid2 = pid)) as [->|Hne2]; try done.
    + rewrite lookup_insert_eq in H1. injection H1 as <-.
      rewrite lookup_insert_ne in H2 by done.
      by apply (Hothers pid2 pm2).
    + rewrite lookup_insert_eq in H2. injection H2 as <-.
      rewrite lookup_insert_ne in H1 by done.
      by apply apart_sym, (Hothers pid1 pm1).
    + rewrite lookup_insert_ne in H1, H2 by done. by apply (Hapart pid1 pid2).
  - intros pid0 pm0 Hne Hl. by apply (H pid0 pm0).
Qed.

(** [NewProcessMetrics]: a series in order and empty, in new arrays; the old
    arrays are as they were. *)
Lemma NewProcessMetrics_frame h capacity :
  let r := NewProcessMetrics h capacity in
  series_ok r.2 r.1 /\ series_view r.2 r.1 = ([], replicate 8 []) /\
  length (h_time h) <= s_ptr (ProcessMetrics.Timestamps r.1) /\
  (forall s, s ∈ ProcessMetrics.floats r.1 -> length (h_f64 h) <= s_ptr s) /\
  (forall p, p < length (h_time h) -> h_time r.2 !! p = h_time h !! p) /\
  (forall p, p < length (h_f64 h) -> h_f64 r.2 !! p = h_f64 h !! p).
Proof.
  destruct (NewProcessMetrics_own h capacity) as (Hts & Hfs & Hview).
  destruct (NewProcessMetrics_headers h capacity) as [[N1 _] N2].
  cbv zeta in *. split_and!; [split_and!; [done..|]|done|..].
  - eapply Forall_impl; [exact N2|]. intros s [Hs _]. rewrite Hs. symmetry. exact N1.
  - rewrite NewProcessMetrics_eq. cbn. lia.
  - rewrite NewProcessMetrics_eq. cbn [fst ProcessMetrics.floats].
    intros s Hs. repeat (apply elem_of_cons in Hs as [->|Hs]; [cbn; lia|]).
    by apply elem_of_nil in Hs.
  - intros p Hp. rewrite NewProcessMetrics_eq. cbn. by rewrite lookup_app_l.
  - intros p Hp. rewrite NewProcessMetrics_eq. cbn. by rewrite lookup_app_l.
Qed.

(** ** What the operations do to the points of the series *)

(** An append to a series that is not tracked is the making of the series
    followed by the append. *)
Lemma updateProcessTimeSeriesMetrics_ensure st processInfo :
  updateProcessTimeSeriesMetrics
    (EnsureProcessMetrics st (ProcessInfo.PID processInfo)) processInfo
  = updateProcessTimeSeriesMetrics st processInfo.
Proof.
  unfold updateProcessTimeSeriesMetrics, EnsureProcessMetrics.
  destruct (processMetrics (mon st) !! ProcessInfo.PID processInfo) as [pm|] eqn:Hm.
  { by rewrite Hm. }
  destruct (NewProcessMetrics (heap st) (metricsCapacity (mon st))) as [pm h].
  cbn. rewrite lookup_insert_eq.
  destruct (AddMetric _ _ _ _ _ _ _ _ _ _ _) as [pm' h'].
  cbn. by rewrite insert_insert_eq.
Qed.

(** [EnsureProcessMetrics] keeps the registry in order and every series as
    it is, and gives an untracked pid an empty series. *)
Lemma EnsureProcessMetrics_registry st pid :
  registry_ok (heap st) (processMetrics (mon st)) ->
  let st' := EnsureProcessMetrics st pid in
  registry_ok (heap st') (processMetrics (mon st')) /\
  forall pid0,
    stored_view st' pid0 =
      match stored_view st pid0 with
      | Some view => Some view
      | None => if decide (pid0 = pid) then Some ([], replicate 8 []) else None
      end.
Proof.
  intros Hreg. unfold EnsureProcessMetrics, stored_view.
  destruct (processMetrics (mon st) !! pid) as [pm|] eqn:Hm; cbv zeta.
  { split; [done|]. intros pid0.
    destruct (processMetrics (mon st) !! pid0) as [pm0|] eqn:Hm0; [done|].
    cbn. destruct (decide (pid0 = pid)) as [->|]; [congruence|done]. }
  destruct (NewProcessMetrics_frame (heap st) (metricsCapacity (mon st)))
    as (Hok & Hview & Hpt & Hpf & Hkt & Hkf).
  destruct (NewProcessMetrics (heap st) (metricsCapacity (mon st))) as [pm h'].
  cbn [fst snd] in *. cbn [set_mon set_heap set_processMetrics heap mon processMetrics].
  destruct (registry_ok_insert (heap st) h' (processMetrics (mon st)) pid pm Hreg Hok)
    as [Hreg' Hsame].
  { intros pid0 pm0 Hne Hl.
    destruct (series_ok_ptrs _ _ (proj1 Hreg pid0 pm0 Hl)) as [Hp Hps].
    split_and!.
    - by apply Hkt.
    - intros s Hs. by apply Hkf, Hps.
    - split; [lia|]. intros s s' Hs Hs'. apply Hpf in Hs. apply Hps in Hs'. lia. }
  split; [done|]. intros pid0. destruct (decide (pid0 = pid)) as [->|Hne].
  - rewrite lookup_insert_eq, Hm. cbn. by rewrite Hview.
  - rewrite lookup_insert_ne by done.
    destruct (processMetrics (mon st) !! pid0) as [pm0|] eqn:Hm0; [|done].
    cbn. f_equal. by apply (Hsame pid0).
Qed.

(** [updateProcessTimeSeriesMetrics] for a tracked pid. *)
Lemma updateProcessTimeSeriesMetrics_tracked st processInfo pm :
  registry_ok (heap st) (processMetrics (mon st)) ->
  processMetrics (mon st) !! ProcessInfo.PID processInfo = Some pm ->
  let st' := updateProcessTimeSeriesMetrics st processInfo in
  registry_ok (heap st') (processMetrics (mon st')) /\
  forall pid0,
    stored_view st' pid0 =
      if decide (pid0 = ProcessInfo.PID processInfo)
      then Some (with_point (series_view (heap st) pm)
                   (point_of (time_Now w (tick st)) processInfo))
      else stored_view st pid0.
Proof.
  intros Hreg Hm. unfold updateProcessTimeSeriesMetrics, stored_view. rewrite Hm.
  pose proof (proj1 Hreg _ _ Hm) as Hok.
  destruct (series_ok_ptrs _ _ Hok) as [Hp Hps].
  match goal with |- context [AddMetric ?h ?pm ?a ?b ?c ?d ?e ?f ?g ?i ?j] =>
    destruct (AddMetric_frame h pm a b c d e f g i j Hok)
      as (Hok' & Hview & [Hlt Hlf] & Hpt & Hpf & Hkt & Hkf);
    destruct (AddMetric h pm a b c d e f g i j) as [pm' h']
  end.
  cbn [fst snd] in *. cbv zeta.
  cbn [bump set_mon set_heap set_processMetrics heap mon processMetrics].
  destruct (registry_ok_insert (heap st) h' (processMetrics (mon st))
              (ProcessInfo.PID processInfo) pm' Hreg Hok') as [Hreg' Hsame].
  { intros pid0 pm0 Hne Hl.
    destruct (series_ok_ptrs _ _ (proj1 Hreg pid0 pm0 Hl)) as [Hp0 Hps0].
    destruct (proj2 Hreg _ _ _ _ Hne Hl Hm) as [Hat Haf].
    split_and!.
    - by apply Hkt.
    - intros s Hs. apply Hkf; [by apply Hps0|].
      intros (s' & E & Hs')%list_elem_of_fmap. by apply (Haf s s').
    - split.
      + destruct Hpt as [-> |?]; [done|lia].
      + intros s' s Hs' Hs. apply Hpf in Hs' as [(s0 & -> & Hs0)%list_elem_of_fmap|?].
        * intros E. by apply (Haf s s0).
        * apply Hps0 in Hs. lia. }
  split; [done|]. intros pid0. destruct (decide (pid0 = _)) as [->|Hne].
  - rewrite lookup_insert_eq. cbn. by rewrite Hview.
  - rewrite lookup_insert_ne by done.
    destruct (processMetrics (mon st) !! pid0) as [pm0|] eqn:Hm0; [|done].
    cbn. f_equal. by apply (Hsame pid0).
Qed.

(** [updateProcessTimeSeriesMetrics] keeps the registry in order, adds the
    point of the process at the end of the series of its pid (a new series
    when the pid is not tracked), and leaves every other series as it is. *)
Lemma updateProcessTimeSeriesMetrics_registry st processInfo :
  registry_ok (heap st) (processMetrics (mon st)) ->
  let st' := updateProcessTimeSeriesMetrics st processInfo in
  registry_ok (heap st') (processMetrics (mon st')) /\
  forall pid0,
    stored_view st' pid0 =
      if decide (pid0 = ProcessInfo.PID processInfo)
      then Some (with_point (default ([], replicate 8 []) (stored_view st pid0))
                   (point_of (time_Now w (tick st)) processInfo))
      else stored_view st pid0.
Proof.
  intros Hreg0. cbv zeta. rewrite <- updateProcessTimeSeriesMetrics_ensure.
  destruct (EnsureProcessMetrics_registry st (ProcessInfo.PID processInfo) Hreg0)
    as [Hreg Hens].
  assert (tick (EnsureProcessMetrics st (ProcessInfo.PID processInfo)) = tick st)
    as Htick.
  { unfold EnsureProcessMetrics. destruct (_ !! _); [done|].
    by destruct (NewProcessMetrics _ _). }
  set (st1 := EnsureProcessMetrics st (ProcessInfo.PID processInfo)) in *.
  destruct (processMetrics (mon st1) !! ProcessInfo.PID processInfo) as [pm|] eqn:Hm.
  2: { specialize (Hens (ProcessInfo.PID processInfo)). unfold stored_view in Hens.
       rewrite Hm in Hens. rewrite decide_True in Hens by done.
       by destruct (processMetrics (mon st) !! _). }
  destruct (updateProcessTimeSeriesMetrics_tracked st1 processInfo pm Hreg Hm)
    as [Hreg' Hview].
  split; [done|]. intros pid0. rewrite Hview, Htick.
  destruct (decide _) as [->|]; [|rewrite Hens].
  - f_equal. f_equal. specialize (Hens (ProcessInfo.PID processInfo)).
    unfold stored_view in Hens at 1. rewrite Hm in Hens.
    rewrite decide_True in Hens by done.
    destruct (stored_view st _); cbn -[series_view] in *; congruence.
  - destruct (stored_view st pid0); [done|]. by rewrite decide_False.
Qed.

Lemma stored_view_same st st' pid :
  heap st' = heap st -> processMetrics (mon st') = processMetrics (mon st) ->
  stored_view st' pid = stored_view st pid.
Proof. intros Eh Em. unfold stored_view. by rewrite Eh, Em. Qed.

(** [GetProcessMetrics] keeps the registry in order and every series as it
    is. *)
Lemma GetProcessMetrics_registry st pid :
  registry_ok (heap st) (processMetrics (mon st)) ->
  let st' := (GetProcessMetrics st pid).2 in
  registry_ok (heap st') (processMetrics (mon st')) /\
  forall pid0, stored_view st' pid0 = stored_view st pid0.
Proof.
  intros Hreg. cbv zeta.
  destruct (processMetrics (mon st) !! pid) as [metrics|] eqn:Hm.
  2: { by rewrite GetProcessMetrics_None. }
  destruct (GetProcessMetrics_parts st pid metrics Hm) as (v & -> & _ & _).
  cbn [snd]. unfold set_heap. cbn [heap mon].
  destruct (proj1 Hreg pid metrics Hm) as (Hts & [Hwf _] & _).
  destruct (copy_each_spec 0%float sizeof_float64 (h_f64 (heap st))
              (ProcessMetrics.floats metrics)) as (_ & Hkf & _ & _).
  { eapply Forall_impl; [exact Hwf|]. intros s Hs. split; [by destruct Hs|].
    right. split; [by apply wf_slice_ptr|]. by intros []. }
  destruct (registry_ok_grown (heap st)
              (Build_Heap
                 (append_Time (h_time (heap st)) nil_slice
                    (slice_elems (h_time (heap st))
                       (ProcessMetrics.Timestamps metrics))).2
                 (copy_each 0%float sizeof_float64 (h_f64 (heap st))
                    (ProcessMetrics.floats metrics)).2)
              (processMetrics (mon st))) as [Hreg' Hsame]; [| |done|].
  - cbn [h_time]. intros p Hp.
    destruct (append_nil_fresh zero_Time sizeof_Time (h_time (heap st))
      (slice_elems (h_time (heap st)) (ProcessMetrics.Timestamps metrics)))
      as [[_ E]|(_ & _ & E)]; unfold append_Time; [by rewrite E|by apply E].
  - cbn [h_f64]. exact Hkf.
  - split; [done|]. intros pid0. unfold stored_view. cbn [heap mon].
    destruct (processMetrics (mon st) !! pid0) as [pm0|] eqn:Hm0; [|done].
    cbn -[series_view]. f_equal. by apply (Hsame pid0).
Qed.

(** [CleanupOldMetrics] keeps the registry in order, and the series of the
    pids of the published list as they are; the others are gone. *)
Lemma CleanupOldMetrics_registry st :
  registry_ok (heap st) (processMetrics (mon st)) ->
  let st' := CleanupOldMetrics st in
  registry_ok (heap st') (processMetrics (mon st')) /\
  forall pid0,
    stored_view st' pid0 =
      if decide (pid0 ∈ ProcessInfo.PID <$> processes (mon st))
      then stored_view st pid0 else None.
Proof.
  intros [Hok Hapart]. cbv zeta.
  assert (forall pid0 pm0,
    processMetrics (mon (CleanupOldMetrics st)) !! pid0 = Some pm0 ->
    processMetrics (mon st) !! pid0 = Some pm0) as Hsub.
  { intros pid0 pm0. rewrite (proj2 (CleanupOldMetrics_lookup st pid0)).
    by destruct (decide _). }
  split; [split|].
  - intros pid0 pm0 Hl%Hsub. by apply (Hok pid0).
  - intros pid1 pid2 pm1 pm2 Hne H1%Hsub H2%Hsub. by apply (Hapart pid1 pid2).
  - intros pid0. unfold stored_view.
    rewrite (proj2 (CleanupOldMetrics_lookup st pid0)).
    by destruct (decide _).
Qed.

(** The second pass keeps the registry in order; it publishes the processes
    it has read in detail, in the order of the reads, and records each of
    them in the series of its pid. *)
Lemma secondPass_registry st allProcesses newProcessStats processes :
  registry_ok (heap st) (processMetrics (mon st)) ->
  let r := secondPass st allProcesses newProcessStats processes in
  exists samples,
    r.1 = processes ++ samples.*2 /\
    registry_ok (heap r.2) (processMetrics (mon r.2)) /\
    forall pid0,
      stored_view r.2 pid0 = record_samples pid0 samples (stored_view st pid0).
Proof.
  revert st processes.
  induction allProcesses as [|basicInfo rest IH]; intros st processes Hreg.
  { exists []. cbn. by rewrite app_nil_r. }
  cbn [secondPass].
  destruct (newProcessStats !! ProcessInfo.PID basicInfo) as [proc|]; [|by apply IH].
  destruct (getDetailedProcessInfo_state st proc) as (Herr & _ & io & Est).
  destruct (getDetailedProcessInfo st proc) as [[processInfo err] st1].
  cbn [fst snd] in *. subst err.
  assert (heap st1 = heap st /\ processMetrics (mon st1) = processMetrics (mon st))
    as [Eh Em] by (by rewrite Est).
  destruct (updateProcessTimeSeriesMetrics_registry st1 processInfo) as [Hreg2 Hview2].
  { by rewrite Eh, Em. }
  destruct (IH (updateProcessTimeSeriesMetrics st1 processInfo)
              (processes ++ [processInfo]) Hreg2) as (samples & Eout & Hreg3 & Hview3).
  exists ((time_Now w (tick st1), processInfo) :: samples). split_and!.
  - rewrite Eout. cbn. by rewrite <- (assoc_L (++)).
  - done.
  - intros pid0. rewrite Hview3, Hview2. cbn [record_samples foldl fst snd].
    unfold record_samples. f_equal.
    rewrite (stored_view_same st st1) by done.
    destruct (decide (pid0 = _)) as [->|Hne].
    + by rewrite decide_True.
    + by rewrite decide_False.
Qed.

(** The two ways [UpdateMetrics] ends: with an error, the registry as it
    was but for the system snapshot and the budget; or with every step of
    the cycle done. *)
Lemma UpdateMetrics_cases st :
  let r := UpdateMetrics st in
  (exists err st',
     r = (Some err, st') /\
     err ∈ [ErrWrap "failed to update system metrics" (ErrSource "cpu.Percent");
            ErrWrap "failed to update system metrics" (ErrSource "mem.VirtualMemory");
            ErrWrap "failed to update process metrics" (ErrSource "process.Pids");
            ErrWrap "failed to update process metrics" ErrCanceled] /\
     heap st' = heap st /\
     processes (mon st') = processes (mon st) /\
     processMetrics (mon st') = processMetrics (mon st) /\
     lastProcessStats (mon st') = lastProcessStats (mon st) /\
     lastProcessIO (mon st') = lastProcessIO (mon st)) \/
  (exists snapshot pids allProcesses newProcessStats st1 processes st2,
     let st0 :=
       set_mon
         (set_systemIOTotal calculateSystemIOTotal
            (set_systemMetrics snapshot (mon st)))
         (bump 4 st) in
     process_Pids w (3 + tick st) = Some pids /\
     firstPass st0 0 pids [] ∅ = (inr (allProcesses, newProcessStats), st1) /\
     secondPass st1 (topProcesses maxProcesses allProcesses) newProcessStats []
       = (processes, st2) /\
     r = (None,
          set_mon
            (sortProcesses
               (set_lastProcessStats newProcessStats
                  (set_processes processes (mon st2))))
            st2)).
Proof.
  unfold UpdateMetrics, updateSystemMetrics.
  destruct (cpu_Percent w (tick st)) as [cpuPercent|].
  2: { left. eexists _, _. split; [done|]. split_and!; try done.
       apply list_elem_of_here. }
  destruct (mem_VirtualMemory w (1 + tick st)) as [memStat|].
  2: { left. eexists _, _. split; [done|]. split_and!; try done.
       apply list_elem_of_further, list_elem_of_here. }
  match goal with |- context [updateProcessMetrics ?s] =>
    destruct (updateProcessMetrics_state s)
      as [[Hp E]|[[n E]|(pids & allProcesses & newProcessStats & st1 & processes
                           & st2 & Hp & E1 & E2 & E)]]; rewrite E
  end.
  - left. eexists _, _. split; [done|]. split_and!; try done.
    do 2 apply list_elem_of_further. apply list_elem_of_here.
  - left. eexists _, _. split; [done|]. split_and!; try done.
    do 3 apply list_elem_of_further. apply list_elem_of_here.
  - right. eexists _, pids, allProcesses, newProcessStats, st1, processes, st2.
    cbv zeta. split_and!; [exact Hp| |exact E2|done].
    rewrite <- E1. f_equal.
Qed.

Lemma EnsureProcessMetrics_tick st pid : tick (EnsureProcessMetrics st pid) = tick st.
Proof.
  unfold EnsureProcessMetrics. destruct (_ !! _); [done|].
  by destruct (NewProcessMetrics _ _).
Qed.

(** The two ways [GetCurrentProcessData] ends: the process cannot be opened,
    and the error is returned once the pid is tracked; or it can, and it is
    read in detail and recorded. *)
Lemma GetCurrentProcessData_cases st pid :
  let st0 := EnsureProcessMetrics st pid in
  let r := GetCurrentProcessData st pid in
  (process_NewProcess w (tick st) pid = false /\
   r = (None, Some (ErrSource "process.NewProcess"), bump 1 st0)) \/
  (process_NewProcess w (tick st) pid = true /\
   exists processInfo st1,
     getDetailedProcessInfo (bump 1 st0) (Build_Process pid) = (processInfo, None, st1) /\
     ProcessInfo.PID processInfo = pid /\
     heap st1 = heap st0 /\ processMetrics (mon st1) = processMetrics (mon st0) /\
     tick st1 = 8 + tick st /\
     r = (Some processInfo, None, updateProcessTimeSeriesMetrics st1 processInfo)).
Proof.
  cbv zeta. unfold GetCurrentProcessData. rewrite EnsureProcessMetrics_tick.
  destruct (process_NewProcess w (tick st) pid); [right|by left].
  split; [done|].
  destruct (getDetailedProcessInfo_state (bump 1 (EnsureProcessMetrics st pid))
              (Build_Process pid)) as (Herr & Hpid & io & Est).
  destruct (getDetailedProcessInfo _ _) as [[processInfo err] st1].
  cbn [fst snd] in *. subst err. exists processInfo, st1.
  split_and!; [done|done| | | |done].
  - by rewrite Est.
  - by rewrite Est.
  - rewrite Est. cbn. by rewrite EnsureProcessMetrics_tick.
Qed.

(** [GetCurrentProcessData] keeps the registry in order. When it returns
    the process, this process is recorded in the series of the pid; when it
    returns an error, the pid has its series, empty if it had none. No other
    series changes. *)
Lemma GetCurrentProcessData_registry st pid :
  registry_ok (heap st) (processMetrics (mon st)) ->
  let r := GetCurrentProcessData st pid in
  registry_ok (heap r.2) (processMetrics (mon r.2)) /\
  forall pid0,
    stored_view r.2 pid0 =
      match r.1.1 with
      | Some processInfo =>
          if decide (pid0 = pid)
          then Some (with_point (default ([], replicate 8 []) (stored_view st pid0))
                       (point_of (time_Now w (8 + tick st)) processInfo))
          else stored_view st pid0
      | None =>
          match stored_view st pid0 with
          | Some view => Some view
          | None => if decide (pid0 = pid) then Some ([], replicate 8 []) else None
          end
      end.
Proof.
  intros Hreg. cbv zeta.
  destruct (EnsureProcessMetrics_registry st pid Hreg) as [Hreg0 Hens].
  destruct (GetCurrentProcessData_cases st pid)
    as [[_ ->]|(_ & processInfo & st1 & _ & Hpid & Eh & Em & Htick & ->)];
    cbn [fst snd].
  { split; [done|]. intros pid0. rewrite <- Hens. by apply stored_view_same. }
  destruct (updateProcessTimeSeriesMetrics_registry st1 processInfo) as [Hreg2 Hview2].
  { by rewrite Eh, Em. }
  split; [done|]. intros pid0. rewrite Hview2, Hpid, Htick.
  rewrite (stored_view_same _ st1) by done. rewrite Hens.
  destruct (decide (pid0 = pid)) as [->|Hne].
  - by destruct (stored_view st pid).
  - by destruct (stored_view st pid0).
Qed.

(** [UpdateMetrics] keeps the registry in order. A cycle that completes
    records the processes it publishes, and nothing else: the series are the
    series of before with one more point for every published entry, in the
    order of the detailed reads. *)
Lemma UpdateMetrics_registry st :
  registry_ok (heap st) (processMetrics (mon st)) ->
  let r := UpdateMetrics st in
  registry_ok (heap r.2) (processMetrics (mon r.2)) /\
  (r.1 = None ->
   exists samples,
     processes (mon r.2) ≡ₚ samples.*2 /\
     forall pid0,
       stored_view r.2 pid0 = record_samples pid0 samples (stored_view st pid0)).
Proof.
  intros Hreg. cbv zeta.
  destruct (UpdateMetrics_cases st)
    as [(err & st' & -> & _ & Eh & _ & Em & _)
       |(snapshot & pids & allProcesses & newProcessStats & st1 & processes & st2
         & _ & E1 & E2 & ->)]; cbn [fst snd].
  { split; [by rewrite Eh, Em|done]. }
  match type of E1 with firstPass ?s _ _ _ _ = _ =>
    destruct (firstPass_state s 0 pids [] ∅) as [[n Hn] _]
  end.
  rewrite E1 in Hn. cbn [snd] in Hn.
  assert (heap st1 = heap st /\ processMetrics (mon st1) = processMetrics (mon st))
    as [Eh Em] by (by rewrite Hn).
  destruct (secondPass_registry st1 (topProcesses maxProcesses allProcesses)
              newProcessStats []) as (samples & Eout & Hreg2 & Hview2).
  { by rewrite Eh, Em. }
  rewrite E2 in Eout, Hreg2, Hview2. cbn [fst snd app] in *.
  split; [done|]. intros _. exists samples. split.
  - unfold set_mon, sortProcesses. cbn. by rewrite sort_Slice_perm, Eout.
  - intros pid0. rewrite (stored_view_same st2) by done.
    rewrite Hview2. f_equal. by apply stored_view_same.
Qed.

(** In every state of a run the registry is in order. *)
Lemma reachable_registry_ok st :
  reachable st -> registry_ok (heap st) (processMetrics (mon st)).
Proof.
  revert st. apply reachable_invariant.
  { split; cbn; intros *; by rewrite ?lookup_empty. }
  intros st st' IH Hstep. destruct Hstep.
  - done.
  - by apply GetProcessMetrics_registry.
  - by apply EnsureProcessMetrics_registry.
  - by apply GetCurrentProcessData_registry.
  - done.
  - by apply UpdateMetrics_registry.
  - by apply CleanupOldMetrics_registry.
  - by apply updateProcessTimeSeriesMetrics_registry.
Qed.

(** ** What a cycle publishes *)

(** The first pass on a registry whose cached handles are in order: the
    handles it records are those it was given and handles of the enumerated
    pids, each under its pid; and every process it collects is one of the
    enumerated, with its handle recorded. *)
Lemma firstPass_handles st i pids allProcesses newProcessStats all' stats' st' :
  handles_ok st ->
  firstPass st i pids allProcesses newProcessStats = (inr (all', stats'), st') ->
  (forall pid proc, stats' !! pid = Some proc ->
     newProcessStats !! pid = Some proc \/ (pid ∈ pids /\ Pid proc = pid)) /\
  (forall pid, is_Some (newProcessStats !! pid) -> is_Some (stats' !! pid)) /\
  exists new,
    all' = allProcesses ++ new /\
    Forall (fun p => ProcessInfo.PID p ∈ pids /\ is_Some (stats' !! ProcessInfo.PID p))
      new.
Proof.
  intros Hh. revert st i allProcesses newProcessStats Hh.
  induction pids as [|pid pids IH]; intros st i allProcesses newProcessStats Hh E.
  { cbn in E. injection E as <- <- <-. split_and!; [by left|done|].
    exists []. by rewrite app_nil_r. }
  cbn [firstPass] in E. destruct (ctx_Done w (tick st)); [done|].
  set (st1 := if (0 <? i) && (i mod 50 =? 0) then bump 1 (bump 1 st) else bump 1 st) in E.
  assert (mon st1 = mon st) as Em by (subst st1; by destruct (_ && _)).
  rewrite Em in E.
  assert (forall st2 proc, Pid proc = pid -> mon st2 = mon st ->
    firstPass (getBasicProcessInfo st2 proc).2 (S i) pids
      (allProcesses ++ [(getBasicProcessInfo st2 proc).1.1])
      (<[pid := proc]> newProcessStats) = (inr (all', stats'), st') ->
    (forall pid0 proc0, stats' !! pid0 = Some proc0 ->
       newProcessStats !! pid0 = Some proc0 \/ (pid0 ∈ pid :: pids /\ Pid proc0 = pid0)) /\
    (forall pid0, is_Some (newProcessStats !! pid0) -> is_Some (stats' !! pid0)) /\
    exists new,
      all' = allProcesses ++ new /\
      Forall (fun p => ProcessInfo.PID p ∈ pid :: pids
                       /\ is_Some (stats' !! ProcessInfo.PID p)) new) as Hcollect.
  { intros st2 proc Hproc Em2 E2.
    apply IH in E2 as (Hs & Hmono & new & -> & Hnew).
    2: { intros pid0 proc0. cbn. rewrite Em2. apply Hh. }
    split_and!.
    - intros pid0 proc0 [Hl|[Hin Hp]]%Hs; [|right; split; [by right|done]].
      destruct (decide (pid0 = pid)) as [->|Hne].
      + rewrite lookup_insert_eq in Hl. injection Hl as <-. right. split; [by left|done].
      + rewrite lookup_insert_ne in Hl by done. by left.
    - intros pid0 Hsome. apply Hmono.
      destruct (decide (pid0 = pid)) as [->|Hne];
        [by rewrite lookup_insert_eq|by rewrite lookup_insert_ne].
    - eexists. rewrite <- (assoc_L (++)). split; [done|]. cbn. constructor.
      + cbn. rewrite Hproc. split; [by left|]. apply Hmono. by rewrite lookup_insert_eq.
      + eapply Forall_impl; [exact Hnew|]. cbn. intros p [? ?]. split; [by right|done]. }
  destruct (lastProcessStats (mon st) !! pid) as [existingProc|] eqn:Hl.
  { cbn in E. apply (Hcollect st1 existingProc); [by apply (Hh pid)|done|exact E]. }
  destruct (process_NewProcess w (tick st1) pid).
  { cbn in E. apply (Hcollect (bump 1 st1) (Build_Process pid)); [done|done|exact E]. }
  cbn in E. apply IH in E as (Hs & Hmono & new & -> & Hnew).
  2: { intros pid0 proc0. cbn. rewrite Em. apply Hh. }
  split_and!; [|done|].
  - intros pid0 proc0 [?|[? ?]]%Hs; [by left|right; split; [by right|done]].
  - exists new. split; [done|]. eapply Forall_impl; [exact Hnew|].
    cbn. intros p [? ?]. split; [by right|done].
Qed.

(** A detailed read reports no network traffic. *)
Lemma getDetailedProcessInfo_network st proc :
  no_network (getDetailedProcessInfo st proc).1.1.
Proof.
  unfold getDetailedProcessInfo. cbn.
  destruct (proc_IOCounters w _ _) as [[ReadBytes WriteBytes]|]; cbn; [|done].
  by destruct (diskRates _ _ _ _ _) as [[[? ?] ?] ?].
Qed.

(** The second pass publishes, for every process it is given whose handle
    was recorded, the detailed read of that handle. *)
Lemma secondPass_published st allProcesses newProcessStats processes :
  let r := secondPass st allProcesses newProcessStats processes in
  exists new,
    r.1 = processes ++ new /\
    Forall (fun q => no_network q /\
              exists basic proc,
                basic ∈ allProcesses /\
                newProcessStats !! ProcessInfo.PID basic = Some proc /\
                ProcessInfo.PID q = Pid proc) new /\
    ((forall basic, basic ∈ allProcesses ->
        is_Some (newProcessStats !! ProcessInfo.PID basic)) ->
     length new = length allProcesses).
Proof.
  revert st processes.
  induction allProcesses as [|basicInfo rest IH]; intros st processes.
  { exists []. cbn. by rewrite app_nil_r. }
  cbn [secondPass].
  destruct (newProcessStats !! ProcessInfo.PID basicInfo) as [proc|] eqn:Hl.
  2: { destruct (IH st processes) as (new & E & Hnew & Hlen). exists new.
       split_and!; [done| |].
       - eapply Forall_impl; [exact Hnew|]. cbn.
         intros q [? (basic & proc & ? & ? & ?)]. split; [done|].
         exists basic, proc. split_and!; [by right|done..].
       - intros Hall. destruct (Hall basicInfo) as [? ?]; [by left|congruence]. }
  destruct (getDetailedProcessInfo_state st proc) as (Herr & Hpid & _).
  pose proof (getDetailedProcessInfo_network st proc) as Hnet.
  destruct (getDetailedProcessInfo st proc) as [[processInfo err] st1].
  cbn [fst snd] in *. subst err.
  destruct (IH (updateProcessTimeSeriesMetrics st1 processInfo)
              (processes ++ [processInfo])) as (new & E & Hnew & Hlen).
  exists (processInfo :: new). split_and!.
  - rewrite E. by rewrite <- (assoc_L (++)).
  - constructor.
    + split; [done|]. exists basicInfo, proc. split_and!; [by left|done..].
    + eapply Forall_impl; [exact Hnew|]. cbn.
      intros q [? (basic & proc0 & ? & ? & ?)]. split; [done|].
      exists basic, proc0. split_and!; [by right|done..].
  - intros Hall. cbn. f_equal. apply Hlen. intros basic Hb. apply Hall. by right.
Qed.

Lemma topProcesses_elem_of cap allProcesses p :
  p ∈ topProcesses cap allProcesses -> p ∈ allProcesses.
Proof.
  rewrite topProcesses_take. intros Hp%subseteq_take.
  unfold sortProcessesByResourceUsage in Hp. by rewrite sort_Slice_perm in Hp.
Qed.

(** What a cycle that completes publishes, on a registry whose cached
    handles are in order: detailed reads, with no network traffic, of pids
    that were enumerated; the handles it caches are in order, and are
    handles of enumerated pids. *)
Lemma UpdateMetrics_published st :
  handles_ok st -> (UpdateMetrics st).1 = None ->
  let st' := (UpdateMetrics st).2 in
  exists pids,
    process_Pids w (3 + tick st) = Some pids /\
    handles_ok st' /\
    (forall pid, is_Some (lastProcessStats (mon st') !! pid) -> pid ∈ pids) /\
    Forall (fun p => no_network p /\ ProcessInfo.PID p ∈ pids) (processes (mon st')).
Proof.
  intros Hh Hnone. cbv zeta.
  destruct (UpdateMetrics_cases st)
    as [(err & st' & E & _)
       |(snapshot & pids & allProcesses & newProcessStats & st1 & processes & st2
         & Hp & E1 & E2 & E)]; rewrite E in *; [done|]. cbn [snd].
  apply firstPass_handles in E1 as (Hs & _ & new & Eall & Hnew); [|exact Hh].
  cbn [app] in Eall. subst new.
  assert (forall pid proc, newProcessStats !! pid = Some proc ->
            pid ∈ pids /\ Pid proc = pid) as Hstats.
  { intros pid proc [Hl|?]%Hs; [|done]. by rewrite lookup_empty in Hl. }
  destruct (secondPass_published st1 (topProcesses maxProcesses allProcesses)
              newProcessStats []) as (new & Eout & Hout & _).
  rewrite E2 in Eout. cbn [fst app] in Eout. subst new.
  exists pids. split_and!; [done| | |].
  - intros pid proc. cbn. intros Hl. by apply Hstats.
  - intros pid [proc Hl]. cbn in Hl. by apply (Hstats pid proc).
  - unfold set_mon, sortProcesses. cbn. rewrite sort_Slice_perm.
    eapply Forall_impl; [exact Hout|]. cbn.
    intros q [Hnet (basic & proc & _ & Hl & Hq)]. split; [done|].
    destruct (Hstats _ _ Hl) as [Hin Hpid]. by rewrite Hq, Hpid.
Qed.

(** A step of a run leaves the published list and the cached handles as
    they are, unless it is a cycle that completes. *)
Lemma step_published st st' :
  step st st' ->
  (processes (mon st') = processes (mon st) /\
   lastProcessStats (mon st') = lastProcessStats (mon st)) \/
  (st' = (UpdateMetrics st).2 /\ (UpdateMetrics st).1 = None).
Proof.
  destruct 1.
  - by left.
  - left. destruct (processMetrics (mon st) !! pid) as [metrics|] eqn:Hm.
    + by destruct (GetProcessMetrics_parts st pid metrics Hm) as (v & -> & _).
    + by rewrite GetProcessMetrics_None.
  - left. by destruct (EnsureProcessMetrics_same_registry st pid) as (? & _ & _ & _ & _ & ? & _).
  - left. by destruct (GetCurrentProcessData_same_registry st pid)
      as (? & _ & _ & _ & _ & ? & _).
  - by left.
  - destruct (UpdateMetrics_cases st)
      as [(err & st' & E & _ & _ & ? & _ & ? & _)|(? & ? & ? & ? & ? & ? & ? & _ & _ & _ & E)];
      rewrite E; [by left|by right].
  - by left.
  - left. by destruct (updateProcessTimeSeriesMetrics_same_registry st processInfo)
      as (? & _ & _ & _ & _ & ? & _).
Qed.

(** In every state of a run, every cached handle is the handle of its pid. *)
Lemma reachable_handles_ok st : reachable st -> handles_ok st.
Proof.
  revert st. apply reachable_invariant.
  { intros pid proc. cbn. by rewrite lookup_empty. }
  intros st st' IH Hstep.
  destruct (step_published st st' Hstep) as [[_ E]|[-> Hnone]].
  - intros pid proc. rewrite E. apply IH.
  - by destruct (UpdateMetrics_published st IH Hnone) as (pids & _ & ? & _).
Qed.

(** When the context is never done and every enumerated process can be
    opened, the first pass collects one entry per enumerated pid. *)
Lemma firstPass_all_open st i pids allProcesses newProcessStats :
  (forall t, ctx_Done w t = false) ->
  (forall t pid, pid ∈ pids -> process_NewProcess w t pid = true) ->
  exists all' stats' st',
    firstPass st i pids allProcesses newProcessStats = (inr (all', stats'), st') /\
    length all' = length allProcesses + length pids.
Proof.
  intros Hctx. revert st i allProcesses newProcessStats.
  induction pids as [|pid pids IH]; intros st i allProcesses newProcessStats Hopen.
  { eexists _, _, _. split; [done|]. cbn. lia. }
  cbn [firstPass]. rewrite Hctx.
  set (st1 := if (0 <? i) && (i mod 50 =? 0) then bump 1 (bump 1 st) else bump 1 st).
  destruct (lastProcessStats (mon st1) !! pid) as [existingProc|];
    [|rewrite Hopen by (by left)]; cbn;
    match goal with |- context [firstPass ?a ?b pids ?c ?d] =>
      destruct (IH a b c d) as (all' & stats' & st' & -> & Hlen);
        [by intros t pid0 ?; apply Hopen; right|]
    end; eexists _, _, _; (split; [done|]);
    rewrite Hlen, length_app; cbn; lia.
Qed.

(** ** The cache of I/O counters *)

(** A detailed read that gets the I/O counters caches them with the instant
    of the read; one that does not leaves the cache as it is. *)
Lemma getDetailedProcessInfo_lastProcessIO st proc :
  lastProcessIO (mon (getDetailedProcessInfo st proc).2) =
    match proc_IOCounters w (6 + tick st) (Pid proc) with
    | Some (ReadBytes, WriteBytes) =>
        <[Pid proc := ProcessIOCounters.Build_t ReadBytes WriteBytes
                        (time_Now w (4 + tick st))]> (lastProcessIO (mon st))
    | None => lastProcessIO (mon st)
    end.
Proof.
  unfold getDetailedProcessInfo. cbn.
  destruct (proc_IOCounters w _ _) as [[ReadBytes WriteBytes]|]; cbn; [|done].
  by destruct (diskRates _ _ _ _ _) as [[[? ?] ?] ?].
Qed.

Lemma updateProcessTimeSeriesMetrics_lastProcessIO st processInfo :
  lastProcessIO (mon (updateProcessTimeSeriesMetrics st processInfo))
    = lastProcessIO (mon st).
Proof.
  unfold updateProcessTimeSeriesMetrics.
  destruct (match processMetrics (mon st) !! _ with Some _ => _ | None => _ end)
    as [pm h].
  by destruct (AddMetric _ _ _ _ _ _ _ _ _ _ _) as [pm' h'].
Qed.

Lemma EnsureProcessMetrics_lastProcessIO st pid :
  lastProcessIO (mon (EnsureProcessMetrics st pid)) = lastProcessIO (mon st).
Proof.
  unfold EnsureProcessMetrics. destruct (processMetrics (mon st) !! pid); [done|].
  by destruct (NewProcessMetrics _ _).
Qed.

Lemma getDetailedProcessInfo_cache_kept st proc :
  dom (lastProcessIO (mon st))
    ⊆ dom (lastProcessIO (mon (getDetailedProcessInfo st proc).2)).
Proof.
  rewrite getDetailedProcessInfo_lastProcessIO.
  destruct (proc_IOCounters w _ _) as [[ReadBytes WriteBytes]|]; [|done].
  apply dom_insert_subseteq.
Qed.

Lemma secondPass_cache_kept st allProcesses newProcessStats processes :
  dom (lastProcessIO (mon st))
    ⊆ dom (lastProcessIO (mon (secondPass st allProcesses newProcessStats processes).2)).
Proof.
  revert st processes.
  induction allProcesses as [|basicInfo rest IH]; intros st processes; [done|].
  cbn [secondPass].
  destruct (newProcessStats !! ProcessInfo.PID basicInfo) as [proc|]; [|apply IH].
  destruct (getDetailedProcessInfo_state st proc) as (Herr & _ & _).
  pose proof (getDetailedProcessInfo_cache_kept st proc) as Hk.
  destruct (getDetailedProcessInfo st proc) as [[processInfo err] st1].
  cbn [fst snd] in *. subst err.
  etrans; [exact Hk|]. etrans; [|apply IH].
  by rewrite updateProcessTimeSeriesMetrics_lastProcessIO.
Qed.

(** No step of a run removes an entry from the cache of I/O counters. *)
Lemma step_cache_kept st st' :
  step st st' -> dom (lastProcessIO (mon st)) ⊆ dom (lastProcessIO (mon st')).
Proof.
  destruct 1.
  - done.
  - destruct (processMetrics (mon st) !! pid) as [metrics|] eqn:Hm.
    + by destruct (GetProcessMetrics_parts st pid metrics Hm) as (v & -> & _).
    + by rewrite GetProcessMetrics_None.
  - by rewrite EnsureProcessMetrics_lastProcessIO.
  - destruct (GetCurrentProcessData_cases st pid)
      as [[_ ->]|(_ & processInfo & st1 & E & _ & _ & _ & _ & ->)]; cbn [snd].
    + cbn. by rewrite EnsureProcessMetrics_lastProcessIO.
    + rewrite updateProcessTimeSeriesMetrics_lastProcessIO.
      pose proof (getDetailedProcessInfo_cache_kept
                    (bump 1 (EnsureProcessMetrics st pid)) (Build_Process pid)) as Hk.
      rewrite E in Hk. cbn in Hk. by rewrite EnsureProcessMetrics_lastProcessIO in Hk.
  - done.
  - destruct (UpdateMetrics_cases st)
      as [(err & st' & -> & _ & _ & _ & _ & _ & E)
         |(snapshot & pids & allProcesses & newProcessStats & st1 & processes & st2
           & _ & E1 & E2 & ->)]; cbn [snd]; [by rewrite E|].
    match type of E1 with firstPass ?s _ _ _ _ = _ =>
      destruct (firstPass_state s 0 pids [] ∅) as [[n Hn] _]
    end.
    rewrite E1 in Hn. cbn [snd] in Hn.
    pose proof (secondPass_cache_kept st1 (topProcesses maxProcesses allProcesses)
                  newProcessStats []) as Hk.
    rewrite E2 in Hk. cbn [snd] in Hk. by rewrite Hn in Hk.
  - done.
  - by rewrite updateProcessTimeSeriesMetrics_lastProcessIO.
Qed.

(** ** Published processes and their series *)

Lemma with_point_some_points view p : some_points (Some (with_point view p)).
Proof. eexists. split; [done|]. cbn. by destruct view.1. Qed.

Lemma record_samples_some_points pid samples view :
  some_points view -> some_points (record_samples pid samples view).
Proof.
  revert view. induction samples as [|s samples IH]; intros view Hv; [done|].
  cbn. apply IH. destruct (decide _); [apply with_point_some_points|done].
Qed.

Lemma record_samples_elem_of pid samples view p :
  p ∈ samples.*2 -> ProcessInfo.PID p = pid ->
  some_points (record_samples pid samples view).
Proof.
  revert view. induction samples as [|s samples IH]; intros view Hp Hpid.
  { by apply elem_of_nil in Hp. }
  cbn in Hp. apply elem_of_cons in Hp as [->|Hp]; cbn.
  - rewrite decide_True by done.
    apply record_samples_some_points, with_point_some_points.
  - by apply IH.
Qed.

Lemma record_samples_not_elem_of pid samples view :
  pid ∉ ProcessInfo.PID <$> samples.*2 -> record_samples pid samples view = view.
Proof.
  revert view. induction samples as [|s samples IH]; intros view Hp; [done|].
  cbn in *. apply not_elem_of_cons in Hp as [Hne Hp].
  rewrite decide_False by done. by apply IH.
Qed.

(** ** The lengths of the series a read returns *)

Lemma copy_each_len {A} (zero : A) elemSize h ss :
  Forall (wf_slice h) ss ->
  s_len <$> (copy_each zero elemSize h ss).1 = s_len <$> ss.
Proof.
  revert h. induction ss as [|s ss IH]; intros h Hwf; cbn; [done|].
  apply Forall_cons in Hwf as [Hs Hss].
  pose proof (append_len zero elemSize h nil_slice (slice_elems h s)) as Hlen.
  pose proof (append_nil_fresh zero elemSize h (slice_elems h s)) as Hfresh.
  cbv zeta in Hfresh.
  destruct (append zero elemSize h nil_slice (slice_elems h s)) as [s' h1].
  cbn [fst snd] in *.
  specialize (IH h1). destruct (copy_each zero elemSize h1 ss) as [ss' h2].
  cbn [fst] in *. rewrite fmap_cons. f_equal.
  - rewrite Hlen. cbn. by apply wf_slice_elems_length.
  - apply IH. eapply Forall_impl; [exact Hss|]. intros t Ht.
    apply (wf_slice_same h); [|done].
    destruct Hfresh as [[_ ->]|(_ & _ & Hf)]; [done|]. by apply Hf, wf_slice_ptr.
Qed.

(** The series [GetProcessMetrics] returns for a series in order: every
    slice as long as the stored one. *)
Lemma GetProcessMetrics_len st pid metrics v st1 :
  series_ok (heap st) metrics ->
  processMetrics (mon st) !! pid = Some metrics ->
  GetProcessMetrics st pid = (Some v, st1) ->
  s_len (ProcessMetrics.Timestamps v) = s_len (ProcessMetrics.Timestamps metrics) /\
  s_len <$> ProcessMetrics.floats v = s_len <$> ProcessMetrics.floats metrics.
Proof.
  intros (Hts & [Hwf _] & _) Hm Hget.
  destruct (GetProcessMetrics_parts st pid metrics Hm) as (v' & Hget' & Ets & Efs).
  rewrite Hget' in Hget. injection Hget as -> _. rewrite Ets, Efs. split.
  - unfold append_Time. rewrite append_len. cbn. by apply wf_slice_elems_length.
  - by apply copy_each_len.
Qed.

(** ** The order of the published list *)

Lemma Ascii_compare_Lt a b :
  Ascii.compare a b = Lt <-> (Ascii.N_of_ascii a < Ascii.N_of_ascii b)%N.
Proof. unfold Ascii.compare. by rewrite N.compare_lt_iff. Qed.

Lemma Ascii_compare_Eq a b : Ascii.compare a b = Eq <-> a = b.
Proof.
  split; [apply Ascii.compare_eq_iff|]. intros ->.
  unfold Ascii.compare. apply N.compare_refl.
Qed.

Lemma String_compare_refl s : String.compare s s = Eq.
Proof.
  induction s as [|c s IH]; cbn; [done|].
  by rewrite (proj2 (Ascii_compare_Eq c c) eq_refl).
Qed.

Lemma String_compare_Lt_trans s1 s2 s3 :
  String.compare s1 s2 = Lt -> String.compare s2 s3 = Lt -> String.compare s1 s3 = Lt.
Proof.
  revert s2 s3. induction s1 as [|c1 s1 IH]; intros [|c2 s2] [|c3 s3]; cbn; try done.
  destruct (Ascii.compare c1 c2) eqn:E12; [|clear IH|done].
  - apply Ascii_compare_Eq in E12 as ->.
    destruct (Ascii.compare c2 c3); [apply IH|done..].
  - intros _. destruct (Ascii.compare c2 c3) eqn:E23; [| |done]; intros _.
    + apply Ascii_compare_Eq in E23 as <-. by rewrite E12.
    + rewrite (proj2 (Ascii_compare_Lt c1 c3)); [done|].
      apply Ascii_compare_Lt in E12, E23. by etrans.
Qed.

(** The orders of the keys of [sortProcesses], taken ascending, are
    orderings the sort accepts. *)
Lemma Z_ltb_strict_weak {A} (f : A -> Z) (l : list A) :
  strict_weak_on (fun a b => (f a <? f b)%Z) l.
Proof.
  split_and!.
  - intros x _. apply Z.ltb_irrefl.
  - intros x y z _ _ _. rewrite !Z.ltb_lt. lia.
  - intros x y z _ _ _. rewrite !Z.ltb_lt. lia.
Qed.

Lemma String_ltb_strict_weak {A} (f : A -> string) (l : list A) :
  strict_weak_on (fun a b => String.ltb (f a) (f b)) l.
Proof.
  assert (forall s t, String.ltb s t = true <-> String.compare s t = Lt) as Hlt.
  { intros s t. unfold String.ltb. by destruct (String.compare s t). }
  split_and!.
  - intros x _. apply not_true_is_false. rewrite Hlt. by rewrite String_compare_refl.
  - intros x y z _ _ _. rewrite !Hlt. apply String_compare_Lt_trans.
  - intros x y z _ _ _. rewrite !Hlt. intros Hxz.
    destruct (String.compare (f x) (f y)) eqn:Exy; [right|by left|right].
    + apply String.compare_eq_iff in Exy. by rewrite <- Exy.
    + rewrite String.compare_antisym in Exy.
      destruct (String.compare (f y) (f x)) eqn:Eyx; try done.
      by apply (String_compare_Lt_trans _ (f x)).
Qed.

Lemma float64_lt_strict_weak {A} (f : A -> float) (l : list A) :
  Forall (fun a => PrimFloat.is_nan (f a) = false) l ->
  strict_weak_on (fun a b => PrimFloat.ltb (f a) (f b)) l.
Proof.
  intros Hnan. rewrite Forall_forall in Hnan.
  assert (forall a b, a ∈ l -> b ∈ l ->
    PrimFloat.ltb (f a) (f b) = true <-> lex_lt (float_key (f a)) (float_key (f b)))
    as Hkey by (intros; apply ltb_key; auto).
  split_and!.
  - intros x Hx. apply not_true_is_false. rewrite Hkey by done.
    unfold lex_lt. lia.
  - intros x y z Hx Hy Hz. rewrite !Hkey by done. unfold lex_lt. lia.
  - intros x y z Hx Hy Hz. rewrite !Hkey by done. unfold lex_lt. lia.
Qed.

Lemma StronglySorted_weaken {A} (R R' : A -> A -> Prop) (l : list A) :
  (forall x y, R x y -> R' x y) -> StronglySorted R l -> StronglySorted R' l.
Proof.
  intros HR. induction 1 as [|a l _ IH Ha]; constructor; [done|].
  eapply Forall_impl; [exact Ha|]. apply HR.
Qed.

(** The list a cycle that completes publishes is what [sort.Slice] makes,
    with the comparison of the registry's sorting, of the detailed reads. *)
Lemma UpdateMetrics_sorted_list st :
  (UpdateMetrics st).1 = None ->
  exists processes',
    processes (mon (UpdateMetrics st).2) =
      sort_Slice _ (sortProcesses_less (sortBy (mon st)) (sortDesc (mon st))) processes'.
Proof.
  intros Hnone.
  destruct (UpdateMetrics_cases st)
    as [(err & st' & E & _)
       |(snapshot & pids & allProcesses & newProcessStats & st1 & processes & st2
         & _ & E1 & E2 & E)]; rewrite E in *; [done|]. cbn [snd].
  match type of E1 with firstPass ?s _ _ _ _ = _ =>
    destruct (firstPass_state s 0 pids [] ∅) as [[n Hn] _]
  end.
  rewrite E1 in Hn. cbn [snd] in Hn.
  destruct (secondPass_state st1 (topProcesses maxProcesses allProcesses)
              newProcessStats []) as ((_ & _ & Hby & Hdesc & _) & _).
  rewrite E2 in Hby, Hdesc. cbn [snd] in Hby, Hdesc.
  exists processes. unfold set_mon, sortProcesses. cbn.
  rewrite Hby, Hdesc, Hn. done.
Qed.

(** ** Properties of the registry in a run *)

(** X1. In every state of a run, the series that [GetProcessMetrics] returns
    has nine slices of one length, each holding that many elements, and this
    is the length of each of the nine slices of the stored series: the
    columns of a series stay aligned, whatever was appended and read. *)
Theorem series_columns_aligned st pid v st1 :
  reachable st ->
  GetProcessMetrics st pid = (Some v, st1) ->
  let n := s_len (ProcessMetrics.Timestamps v) in
  Forall (fun s => s_len s = n) (ProcessMetrics.floats v) /\
  length (series_view (heap st1) v).1 = n /\
  Forall (fun column => length column = n) (series_view (heap st1) v).2 /\
  exists metrics,
    processMetrics (mon st) !! pid = Some metrics /\
    s_len (ProcessMetrics.Timestamps metrics) = n /\
    Forall (fun s => s_len s = n) (ProcessMetrics.floats metrics).
Proof.
  intros Hr Hget n.
  destruct (GetProcessMetrics_copy st pid v st1 (reachable_separate st Hr) Hget)
    as ((metrics & Hm & Hview) & _ & _).
  pose proof (proj1 (reachable_registry_ok st Hr) pid metrics Hm) as Hok.
  destruct (GetProcessMetrics_len st pid metrics v st1 Hok Hm Hget) as [Ht Hf].
  destruct Hok as (Hts & [Hwf _] & Hlen).
  assert (Forall (fun s => s_len s = n) (ProcessMetrics.floats metrics)) as Hlen'.
  { eapply Forall_impl; [exact Hlen|]. cbn. intros s ->. by rewrite <- Ht. }
  split_and!.
  - apply Forall_fmap with (f := s_len) (P := fun k => k = n).
    rewrite Hf. by apply Forall_fmap.
  - rewrite Hview. cbn. rewrite wf_slice_elems_length by done. done.
  - rewrite Hview. cbn [series_view snd]. apply Forall_fmap.
    apply Forall_forall. intros s Hs. cbn.
    rewrite wf_slice_elems_length by (by apply (proj1 (Forall_forall _ _) Hwf)).
    by apply (proj1 (Forall_forall _ _) Hlen').
  - exists metrics. by split_and!.
Qed.

(** X2. In every state of a run, [updateProcessTimeSeriesMetrics] adds one
    point, holding the instant of the call and the eight values of the
    process, at the end of the series of the pid of the process, which is a
    new series when the pid had none, and leaves the points of every other
    series as they are, though all series live in one heap. *)
Theorem updateProcessTimeSeriesMetrics_records st processInfo pid :
  reachable st ->
  stored_view (updateProcessTimeSeriesMetrics st processInfo) pid =
    if decide (pid = ProcessInfo.PID processInfo)
    then Some (with_point (default ([], replicate 8 []) (stored_view st pid))
                 (point_of (time_Now w (tick st)) processInfo))
    else stored_view st pid.
Proof.
  intros Hr.
  apply (updateProcessTimeSeriesMetrics_registry st processInfo
           (reachable_registry_ok st Hr)).
Qed.

(** X3. A cycle that completes, from any state of a run, records what it
    publishes and nothing else: the published list is a rearrangement of the
    detailed reads, each of which has been added, with the instant of its
    append, at the end of the series of its pid, in the order of the reads;
    the series of a pid that is not published is as it was. *)
Theorem UpdateMetrics_records_published st :
  reachable st ->
  (UpdateMetrics st).1 = None ->
  let st' := (UpdateMetrics st).2 in
  exists samples,
    GetProcesses st' ≡ₚ samples.*2 /\
    (forall pid,
       stored_view st' pid = record_samples pid samples (stored_view st pid)) /\
    (forall pid, pid ∉ ProcessInfo.PID <$> GetProcesses st' ->
       stored_view st' pid = stored_view st pid).
Proof.
  intros Hr Hnone st'.
  destruct (UpdateMetrics_registry st (reachable_registry_ok st Hr)) as [_ Hrec].
  destruct (Hrec Hnone) as (samples & Hperm & Hview).
  exists samples. split_and!; [done..|].
  intros pid Hpid. subst st'. rewrite Hview. apply record_samples_not_elem_of.
  unfold GetProcesses in Hpid. by rewrite Hperm in Hpid.
Qed.

(** [UpdateMetrics] is [UpdateMetrics_overlapped] with nothing in between. *)
Lemma UpdateMetrics_overlapped_alone st :
  UpdateMetrics_overlapped (fun st => st) st = UpdateMetrics st.
Proof. reflexivity. Qed.

(** X4. A cycle that completes, run alone from a state of a run, leaves
    every process it publishes with a series of at least one point:
    [GetProcessMetrics] returns for its pid a series whose timestamps are
    not empty. This rests on the cycle running alone: when
    [CleanupOldMetrics] runs between the appends of the cycle and its
    publication, every process the cycle publishes that was not in the list
    published before has no series at all, and [GetProcessMetrics] returns
    nil for it. *)
Theorem published_processes_have_history st :
  reachable st ->
  ((UpdateMetrics st).1 = None ->
   forall p, p ∈ GetProcesses (UpdateMetrics st).2 ->
     exists v st1,
       GetProcessMetrics (UpdateMetrics st).2 (ProcessInfo.PID p) = (Some v, st1) /\
       0 < s_len (ProcessMetrics.Timestamps v) /\
       (series_view (heap st1) v).1 <> []) /\
  ((UpdateMetrics_overlapped CleanupOldMetrics st).1 = None ->
   forall p, p ∈ GetProcesses (UpdateMetrics_overlapped CleanupOldMetrics st).2 ->
     ProcessInfo.PID p ∉ ProcessInfo.PID <$> GetProcesses st ->
     GetProcessMetrics (UpdateMetrics_overlapped CleanupOldMetrics st).2
       (ProcessInfo.PID p)
     = (None, (UpdateMetrics_overlapped CleanupOldMetrics st).2)).
Proof.
  intros Hr. split.
  - intros Hnone p Hp. set (st' := (UpdateMetrics st).2) in *.
    assert (reachable st') as Hr'.
    { eapply rtc_r; [exact Hr|]. apply step_UpdateMetrics. }
    pose proof (reachable_registry_ok st' Hr') as Hreg.
    destruct (UpdateMetrics_registry st (reachable_registry_ok st Hr)) as [_ Hrec].
    destruct (Hrec Hnone) as (samples & Hperm & Hview). fold st' in Hperm, Hview.
    assert (some_points (stored_view st' (ProcessInfo.PID p))) as (view & Hv & Hne).
    { rewrite Hview. apply (record_samples_elem_of _ _ _ p); [|done].
      unfold GetProcesses in Hp. by rewrite Hperm in Hp. }
    unfold stored_view in Hv.
    destruct (processMetrics (mon st') !! ProcessInfo.PID p) as [metrics|] eqn:Hm;
      [|done].
    injection Hv as <-.
    destruct (GetProcessMetrics_parts st' _ metrics Hm) as (v & Hget & _).
    destruct (GetProcessMetrics_copy st' _ v _ (reachable_separate st' Hr') Hget)
      as ((metrics' & Hm' & Hcopy) & _ & _).
    rewrite Hm in Hm'. injection Hm' as <-.
    pose proof (proj1 Hreg _ metrics Hm) as Hok.
    destruct (GetProcessMetrics_len st' _ metrics v _ Hok Hm Hget) as [Ht _].
    eexists v, _. split_and!; [exact Hget| |by rewrite Hcopy].
    rewrite Ht. destruct Hok as (Hts & _).
    rewrite <- (wf_slice_elems_length _ _ Hts).
    cbn in Hne. destruct (slice_elems _ _); [done|cbn; lia].
  - intros Hnone p Hp Hnew. apply GetProcessMetrics_None.
    revert Hnone Hp. unfold UpdateMetrics_overlapped.
    destruct (updateSystemMetrics_state st) as [n [[Herr E]|[Herr [snapshot E]]]];
      destruct (updateSystemMetrics st) as [[err|] st0]; cbn [fst snd] in *;
      try done.
    unfold updateProcessMetrics_overlapped.
    destruct (process_Pids w (tick st0)) as [pids|]; [|done].
    match goal with |- context [firstPass ?s 0 pids [] ∅] =>
      destruct (firstPass_state s 0 pids [] ∅) as [[k Hk] _];
      destruct (firstPass s 0 pids [] ∅)
        as [[err|[allProcesses newProcessStats]] st1]; [done|]
    end.
    cbn [fst snd] in Hk.
    destruct (secondPass_state st1 (topProcesses maxProcesses allProcesses)
                newProcessStats []) as [(Hsame & _) _].
    destruct (secondPass st1 (topProcesses maxProcesses allProcesses)
                newProcessStats []) as [processes st2].
    cbn [fst snd] in *. intros _ _.
    unfold set_mon, sortProcesses. cbn [mon processMetrics set_processes
      set_lastProcessStats].
    destruct (CleanupOldMetrics_lookup st2 (ProcessInfo.PID p)) as [_ ->].
    rewrite decide_False; [done|].
    rewrite Hsame, Hk, E. exact Hnew.
Qed.

(** X5. A cycle that returns an error has published nothing and recorded
    nothing: the error is one of the four the cycle can return, and the
    published list, the series and their arrays, the cached handles and the
    cached I/O counters are as they were before the cycle. *)
Theorem UpdateMetrics_error_keeps_registry st err :
  (UpdateMetrics st).1 = Some err ->
  let st' := (UpdateMetrics st).2 in
  err ∈ [ErrWrap "failed to update system metrics" (ErrSource "cpu.Percent");
         ErrWrap "failed to update system metrics" (ErrSource "mem.VirtualMemory");
         ErrWrap "failed to update process metrics" (ErrSource "process.Pids");
         ErrWrap "failed to update process metrics" ErrCanceled] /\
  GetProcesses st' = GetProcesses st /\
  heap st' = heap st /\
  processMetrics (mon st') = processMetrics (mon st) /\
  lastProcessStats (mon st') = lastProcessStats (mon st) /\
  lastProcessIO (mon st') = lastProcessIO (mon st).
Proof.
  intros Herr.
  destruct (UpdateMetrics_cases st)
    as [(err' & st' & E & Hin & Eh & Ep & Em & Es & Eio)
       |(? & ? & ? & ? & ? & ? & ? & _ & _ & _ & E)]; rewrite E in *; [|done].
  injection Herr as <-. by split_and!.
Qed.

(** X6. A cycle that completes, from any state of a run, publishes only
    processes whose pid [process.Pids] enumerated in this cycle, and caches
    handles of such pids only, each under its pid: a process that is no
    longer enumerated is gone from the list and from the cached handles. *)
Theorem published_pids_enumerated st :
  reachable st ->
  (UpdateMetrics st).1 = None ->
  let st' := (UpdateMetrics st).2 in
  exists pids,
    process_Pids w (3 + tick st) = Some pids /\
    (forall p, p ∈ GetProcesses st' -> ProcessInfo.PID p ∈ pids) /\
    (forall pid proc, lastProcessStats (mon st') !! pid = Some proc ->
       pid ∈ pids /\ Pid proc = pid).
Proof.
  intros Hr Hnone st'.
  destruct (UpdateMetrics_published st (reachable_handles_ok st Hr) Hnone)
    as (pids & Hp & Hh & Hdom & Hpub).
  exists pids. split_and!; [done| |].
  - intros p Hin. by apply (proj1 (Forall_forall _ _) Hpub p Hin).
  - intros pid proc Hl. split; [by apply Hdom|by apply Hh].
Qed.

(** X7. From any state of a run, when the system totals and the pids can be
    read, the context is never done and every enumerated process can be
    opened, the cycle completes and publishes exactly as many processes as
    were enumerated, or [maxProcesses] (150) when more were: no process is
    lost between the enumeration and the published list. *)
Theorem all_open_published_count st cpuPercent memStat pids :
  reachable st ->
  cpu_Percent w (tick st) = Some cpuPercent ->
  mem_VirtualMemory w (1 + tick st) = Some memStat ->
  process_Pids w (3 + tick st) = Some pids ->
  (forall t, ctx_Done w t = false) ->
  (forall t pid, pid ∈ pids -> process_NewProcess w t pid = true) ->
  (UpdateMetrics st).1 = None /\
  length (GetProcesses (UpdateMetrics st).2) = maxProcesses `min` length pids.
Proof.
  intros Hr Hcpu Hmem Hpids Hctx Hopen.
  pose proof (reachable_handles_ok st Hr) as Hh.
  unfold UpdateMetrics, updateSystemMetrics. rewrite Hcpu, Hmem.
  unfold updateProcessMetrics. cbn [tick bump set_mon]. rewrite Hpids.
  match goal with |- context [firstPass ?s 0 pids [] ∅] =>
    destruct (firstPass_all_open s 0 pids [] ∅ Hctx Hopen)
      as (all' & stats' & st1 & E1 & Hlen);
    pose proof (firstPass_handles s 0 pids [] ∅ all' stats' st1) as Hfp
  end.
  destruct Hfp as (_ & _ & new & Eall & Hnew); [exact Hh|exact E1|].
  cbn [app] in Eall. subst new. rewrite E1.
  destruct (secondPass_published st1 (topProcesses maxProcesses all') stats' [])
    as (new & Eout & _ & Hcount).
  destruct (secondPass st1 (topProcesses maxProcesses all') stats' [])
    as [published st2].
  cbn [fst snd app] in *. subst new. split; [done|].
  unfold GetProcesses, set_mon. cbn [mon]. rewrite sortProcesses_length.
  cbn [processes set_lastProcessStats set_processes]. rewrite Hcount.
  2: { intros basic Hb%topProcesses_elem_of.
       by apply (proj1 (Forall_forall _ _) Hnew basic Hb). }
  rewrite topProcesses_length. cbn in Hlen. lia.
Qed.

(** X8. No operation of a run removes an entry from the cache of I/O
    counters: a pid that has an entry keeps one for ever. In particular
    [CleanupOldMetrics], which deletes series, leaves the cache as it is,
    so the entry of a process that is gone stays in the cache. *)
Theorem lastProcessIO_never_pruned st st' :
  rtc step st st' ->
  dom (lastProcessIO (mon st)) ⊆ dom (lastProcessIO (mon st')) /\
  lastProcessIO (mon (CleanupOldMetrics st')) = lastProcessIO (mon st').
Proof.
  intros Hsteps. split; [|done].
  induction Hsteps as [|st1 st2 st3 H12 _ IH]; [done|].
  etrans; [by apply step_cache_kept|done].
Qed.

(** X9. In every state of a run, every process of the published list is
    reported with no network traffic: the four network fields are zero. *)
Theorem published_no_network st p :
  reachable st -> p ∈ GetProcesses st -> no_network p.
Proof.
  intros Hr Hp. revert p Hp. apply Forall_forall. revert st Hr.
  apply (reachable_invariant
    (fun st => reachable st /\ Forall no_network (GetProcesses st))).
  { split; [apply rtc_refl|constructor]. }
  intros st st' [Hr IH] Hstep. split; [by eapply rtc_r|].
  unfold GetProcesses in *.
  destruct (step_published st st' Hstep) as [[-> _]|[-> Hnone]]; [done|].
  destruct (UpdateMetrics_published st (reachable_handles_ok st Hr) Hnone)
    as (pids & _ & _ & _ & Hpub).
  eapply Forall_impl; [exact Hpub|]. by intros q [? _].
Qed.

(** X10. A cycle that completes while the registry sorts in ascending order
    publishes its list in that order: by pid, no pid above a later one; by
    name, no name after a later one in the order of strings; by CPU or by
    memory, when none of these values is NaN, none above a later one. *)
Theorem UpdateMetrics_sorts_ascending st :
  (UpdateMetrics st).1 = None ->
  sortDesc (mon st) = false ->
  let published := GetProcesses (UpdateMetrics st).2 in
  (sortBy (mon st) = SortByPID ->
   StronglySorted (fun p q => (ProcessInfo.PID p <= ProcessInfo.PID q)%Z) published) /\
  (sortBy (mon st) = SortByName ->
   StronglySorted
     (fun p q => String.leb (ProcessInfo.Name p) (ProcessInfo.Name q) = true)
     published) /\
  (sortBy (mon st) = SortByCPU ->
   Forall (fun p => PrimFloat.is_nan (ProcessInfo.CPUPercent p) = false) published ->
   StronglySorted
     (fun p q => PrimFloat.ltb (ProcessInfo.CPUPercent q) (ProcessInfo.CPUPercent p)
                 = false) published) /\
  (sortBy (mon st) = SortByMemory ->
   Forall (fun p => PrimFloat.is_nan (ProcessInfo.MemoryMB p) = false) published ->
   StronglySorted
     (fun p q => PrimFloat.ltb (ProcessInfo.MemoryMB q) (ProcessInfo.MemoryMB p)
                 = false) published).
Proof.
  intros Hnone Hasc published.
  destruct (UpdateMetrics_sorted_list st Hnone) as (l & E).
  subst published. unfold GetProcesses. rewrite E, Hasc.
  split_and!; intros ->; cbn [sortProcesses_less].
  - eapply StronglySorted_weaken;
      [|apply sort_Slice_sorted, (Z_ltb_strict_weak ProcessInfo.PID)].
    cbn. intros p q H%Z.ltb_ge. done.
  - eapply StronglySorted_weaken;
      [|apply sort_Slice_sorted, (String_ltb_strict_weak ProcessInfo.Name)].
    cbn. intros p q H. unfold String.ltb in H. unfold String.leb.
    rewrite String.compare_antisym.
    by destruct (String.compare (ProcessInfo.Name q) (ProcessInfo.Name p)).
  - intros Hnan. apply sort_Slice_sorted.
    apply (float64_lt_strict_weak ProcessInfo.CPUPercent).
    by rewrite sort_Slice_perm in Hnan.
  - intros Hnan. apply sort_Slice_sorted.
    apply (float64_lt_strict_weak ProcessInfo.MemoryMB).
    by rewrite sort_Slice_perm in Hnan.
Qed.

(** X11. [GetCurrentProcessData], from any state of a run. It returns an
    error exactly when the process cannot be opened; the pid is tracked
    all the same, with an empty series if it had none. When the process can
    be opened it returns the detailed read of this pid, with no network
    traffic, and this read is recorded as one more point at the end of the
    series of the pid. No other series changes either way. *)
Theorem GetCurrentProcessData_records st pid :
  reachable st ->
  let r := GetCurrentProcessData st pid in
  (process_NewProcess w (tick st) pid = false ->
   r.1 = (None, Some (ErrSource "process.NewProcess")) /\
   forall pid0,
     stored_view r.2 pid0 =
       match stored_view st pid0 with
       | Some view => Some view
       | None => if decide (pid0 = pid) then Some ([], replicate 8 []) else None
       end) /\
  (process_NewProcess w (tick st) pid = true ->
   exists processInfo,
     r.1 = (Some processInfo, None) /\
     ProcessInfo.PID processInfo = pid /\ no_network processInfo /\
     forall pid0,
       stored_view r.2 pid0 =
         if decide (pid0 = pid)
         then Some (with_point (default ([], replicate 8 []) (stored_view st pid0))
                      (point_of (time_Now w (8 + tick st)) processInfo))
         else stored_view st pid0).
Proof.
  intros Hr r.
  destruct (GetCurrentProcessData_registry st pid (reachable_registry_ok st Hr))
    as [_ Hview].
  fold r in Hview.
  destruct (GetCurrentProcessData_cases st pid)
    as [[Hopen E]|(Hopen & processInfo & st1 & Eread & Hpid & _ & _ & _ & E)];
    fold r in E; rewrite Hopen.
  - split; [intros _|done].
    split; [by rewrite E|]. intros pid0. rewrite Hview. by rewrite E.
  - split; [done|intros _].
    exists processInfo. split_and!; [by rewrite E|done| |].
    + pose proof (getDetailedProcessInfo_network
                    (bump 1 (EnsureProcessMetrics st pid)) (Build_Process pid)) as Hnet.
      by rewrite Eread in Hnet.
    + intros pid0. rewrite Hview. by rewrite E.
Qed.

End Program.

(** * The runtime the properties are run with *)

Lemma grow_steps_fits fuel newcap newLen : newLen <= grow_steps fuel newcap newLen.
Proof.
  revert newcap. induction fuel as [|fuel IH]; intros newcap; cbn; [done|].
  destruct (_ <=? _) eqn:E; [by apply Nat.leb_le|apply IH].
Qed.

(** The runtime's growth gives room for the needed length. *)
Lemma nextslicecap_fits elemSize oldCap newLen :
  newLen <= nextslicecap elemSize oldCap newLen.
Proof.
  unfold nextslicecap. destruct (_ <? newLen) eqn:E1; [done|].
  apply Nat.ltb_ge in E1. destruct (oldCap <? 256); [done|apply grow_steps_fits].
Qed.

Lemma bubble_perm {A} (less : A -> A -> bool) x rprefix :
  bubble less x rprefix ≡ₚ x :: rprefix.
Proof.
  induction rprefix as [|y rest IH]; cbn; [done|].
  destruct (less x y); [|done]. rewrite IH. apply Permutation_swap.
Qed.

Lemma insertionSort_perm (A : Type) (less : A -> A -> bool) (l : list A) :
  insertionSort A less l ≡ₚ l.
Proof.
  unfold insertionSort. rewrite <- Permutation_rev.
  assert (forall acc, foldl (fun rprefix x => bubble less x rprefix) acc l ≡ₚ l ++ acc)
    as H; [|by rewrite H, app_nil_r].
  induction l as [|x l IH]; intros acc; cbn; [done|].
  rewrite IH, bubble_perm. by rewrite Permutation_middle.
Qed.

Lemma bubble_sorted {A} (less : A -> A -> bool) (l : list A) x rprefix :
  strict_weak_on less l ->
  x ∈ l -> Forall (fun y => y ∈ l) rprefix ->
  StronglySorted (fun a b => less a b = false) rprefix ->
  StronglySorted (fun a b => less a b = false) (bubble less x rprefix).
Proof.
  intros (Hirr & Htrans & Hneg) Hx.
  induction rprefix as [|y rest IH]; intros Hin Hs; cbn.
  { repeat constructor. }
  apply Forall_cons in Hin as [Hy Hin].
  apply StronglySorted_inv in Hs as [Hs Hy_rest].
  destruct (less x y) eqn:Exy.
  - constructor; [by apply IH|].
    rewrite bubble_perm. constructor; [|done].
    destruct (less y x) eqn:Eyx; [|done].
    by rewrite <- (Hirr x Hx), <- (Htrans x y x Hx Hy Hx Exy Eyx).
  - constructor; [by constructor|]. constructor; [done|].
    rewrite Forall_forall in Hin, Hy_rest. apply Forall_forall. intros z Hz.
    destruct (less x z) eqn:Exz; [|done].
    destruct (Hneg x y z Hx Hy (Hin z Hz) Exz) as [E|E]; [congruence|].
    rewrite (Hy_rest z Hz) in E. done.
Qed.

Lemma StronglySorted_rev {A} (R : A -> A -> Prop) (l : list A) :
  StronglySorted R l -> StronglySorted (fun x y => R y x) (rev l).
Proof.
  induction 1 as [|a l Hs IH Ha]; cbn; [constructor|].
  apply StronglySorted_app_2; [|done|repeat constructor].
  intros x1 x2 Hx1 ->%list_elem_of_singleton.
  rewrite Forall_forall in Ha. apply Ha.
  apply list_elem_of_In, in_rev. by apply list_elem_of_In.
Qed.

(** The insertion sort leaves no element less than an earlier one. *)
Lemma insertionSort_sorted (A : Type) (less : A -> A -> bool) (l : list A) :
  strict_weak_on less l ->
  StronglySorted (fun x y => less y x = false) (insertionSort A less l).
Proof.
  intros Hswo. unfold insertionSort.
  apply (StronglySorted_rev (fun a b => less a b = false)).
  assert (forall l' acc,
    Forall (fun y => y ∈ l) l' -> Forall (fun y => y ∈ l) acc ->
    StronglySorted (fun a b => less a b = false) acc ->
    StronglySorted (fun a b => less a b = false)
      (foldl (fun rprefix x => bubble less x rprefix) acc l')) as H.
  { induction l' as [|x l' IH]; intros acc Hl' Hacc Hs; cbn; [done|].
    apply Forall_cons in Hl' as [Hx Hl'].
    apply IH; [done| |by apply (bubble_sorted less l)].
    rewrite bubble_perm. by constructor. }
  apply H; [by apply Forall_forall|constructor|constructor].
Qed.

(** * The properties at concrete inputs *)

(** C1 at capacity 3 with the points A, B, C, D (instants 1 to 4, values 1
    to 4): the series ends with all four, not with [B, C, D]. *)
Lemma AddMetric_keeps_every_point_capacity_3 :
  series_view
    (AddPoints nextslicecap (NewProcessMetrics (Build_Heap [] []) 3)
       [point 1 1; point 2 2; point 3 3; point 4 4]).2
    (AddPoints nextslicecap (NewProcessMetrics (Build_Heap [] []) 3)
       [point 1 1; point 2 2; point 3 3; point 4 4]).1
  = ([1; 2; 3; 4]%Z, replicate 8 [1; 2; 3; 4]%float) /\
  s_len (ProcessMetrics.Timestamps
           (AddPoints nextslicecap (NewProcessMetrics (Build_Heap [] []) 3)
              [point 1 1; point 2 2; point 3 3; point 4 4]).1) = 4.
Proof.
  destruct (AddMetric_keeps_every_point nextslicecap nextslicecap_fits
              (Build_Heap [] []) 3
              [point 1 1; point 2 2; point 3 3; point 4 4]) as (Hview & Hlen & _).
  split; [by rewrite Hview|exact Hlen].
Defined.

(** C2 on process 1 with 1024 bytes read at instant 0 and 2048 a second
    later: the read rate is 1 KB/s. *)
Lemma disk_rate_computation_1_KBs :
  ProcessInfo.DiskReadRate
    (getDetailedProcessInfo (world_io (1024, 0)%Z (2048, 0)%Z)
       (getDetailedProcessInfo (world_io (1024, 0)%Z (2048, 0)%Z)
          initial_State (Build_Process 1)).2
       (Build_Process 1)).1.1 = 1%float.
Proof.
  destruct (disk_rate_computation (world_io (1024, 0)%Z (2048, 0)%Z)
    (getDetailedProcessInfo (world_io (1024, 0)%Z (2048, 0)%Z)
       initial_State (Build_Process 1)).2
    (Build_Process 1) 2048%Z 0%Z eq_refl) as [Hhit _].
  destruct (Hhit (ProcessIOCounters.Build_t 1024 0 0%Z) eq_refl) as [Hpos _].
  destruct (Hpos eq_refl) as (_ & _ & Hspec & _).
  rewrite Hspec; [vm_compute; reflexivity|cbn; lia|cbn; lia].
Defined.

(** C2 as stated fails on process 1 with 2048 bytes read at instant 0 and
    1024 a second later: the cache has the entry of the first read, one
    second has passed, and the read rate is 2^54 KB/s, where the difference
    of the two counters over 1024, over the seconds, is -1 KB/s. *)
Lemma disk_rate_computation_counter_decreased :
  lastProcessIO
    (mon (getDetailedProcessInfo (world_io (2048, 0)%Z (1024, 0)%Z)
            initial_State (Build_Process 1)).2) !! 1%Z
    = Some (ProcessIOCounters.Build_t 2048 0 0%Z) /\
  proc_IOCounters (world_io (2048, 0)%Z (1024, 0)%Z)
    (6 + tick (getDetailedProcessInfo (world_io (2048, 0)%Z (1024, 0)%Z)
                 initial_State (Build_Process 1)).2) 1
    = Some (1024, 0)%Z /\
  Duration_Seconds
    (time_Sub
       (time_Now (world_io (2048, 0)%Z (1024, 0)%Z)
          (4 + tick (getDetailedProcessInfo (world_io (2048, 0)%Z (1024, 0)%Z)
                       initial_State (Build_Process 1)).2))
       0%Z) = 1%float /\
  ProcessInfo.DiskReadRate
    (getDetailedProcessInfo (world_io (2048, 0)%Z (1024, 0)%Z)
       (getDetailedProcessInfo (world_io (2048, 0)%Z (1024, 0)%Z)
          initial_State (Build_Process 1)).2
       (Build_Process 1)).1.1 = 18014398509481984%float /\
  spec_rate 1024 2048 1 = (-1)%float /\
  PrimFloat.eqb 18014398509481984 (-1) = false.
Proof. vm_compute. split_and!; reflexivity. Qed.



(** C4 with two hundred live processes: after a cycle, process 7 is alive
    and not among the 150 published; the series made for it on request is
    gone after the cleanup. *)
Lemma CleanupOldMetrics_drops_unpublished_live_7 :
  process_Pids world_many 0 = Some (Z.of_nat <$> seq 1 200) /\
  7%Z ∈ Z.of_nat <$> seq 1 200 /\
  is_Some
    (processMetrics
       (mon (EnsureProcessMetrics
               (UpdateMetrics nextslicecap insertionSort world_many initial_State).2
               7)) !! 7%Z) /\
  processMetrics
    (mon (CleanupOldMetrics
            (EnsureProcessMetrics
               (UpdateMetrics nextslicecap insertionSort world_many initial_State).2
               7))) !! 7%Z = None.
Proof.
  split; [done|]. split.
  { apply (bool_decide_unpack _). by vm_compute. }
  apply (CleanupOldMetrics_drops_unpublished
           (UpdateMetrics nextslicecap insertionSort world_many initial_State).2 7).
  apply (bool_decide_unpack _). by vm_compute.
Defined.

(** C5 with two hundred live processes: the cycle completes and publishes
    150. *)
Lemma published_list_bounded_200 :
  length (GetProcesses
            (UpdateMetrics nextslicecap insertionSort world_many initial_State).2)
    <= maxProcesses /\
  length (GetProcesses
            (UpdateMetrics nextslicecap insertionSort world_many initial_State).2)
    = 150.
Proof.
  split.
  - apply (proj1 (published_list_bounded nextslicecap insertionSort
                    insertionSort_perm world_many initial_State)).
    vm_compute. reflexivity.
  - vm_compute. reflexivity.
Defined.

(** C6 on the basic reads of processes 3, 1, 2 with CPU% 5, 90, 10 and a
    cap of 2: when none uses memory the kept processes are 1 and 2; when
    process 3 uses 50% of the memory its sum is 55, and the kept processes
    are 1 and 3. *)
Lemma topProcesses_by_score_three :
  ProcessInfo.PID <$>
    topProcesses insertionSort 2
      ((fun pid => (getBasicProcessInfo world_three initial_State
                      (Build_Process pid)).1.1) <$> [3; 1; 2]%Z)
    = [1; 2]%Z /\
  ProcessInfo.PID <$>
    topProcesses insertionSort 2
      ((fun pid => (getBasicProcessInfo world_three_memory initial_State
                      (Build_Process pid)).1.1) <$> [3; 1; 2]%Z)
    = [1; 3]%Z /\
  (forall p q,
     p ∈ topProcesses insertionSort 2
           ((fun pid => (getBasicProcessInfo world_three_memory initial_State
                           (Build_Process pid)).1.1) <$> [3; 1; 2]%Z) ->
     q ∈ drop 2 (sortProcessesByResourceUsage insertionSort
                   ((fun pid => (getBasicProcessInfo world_three_memory initial_State
                                   (Build_Process pid)).1.1) <$> [3; 1; 2]%Z)) ->
     PrimFloat.ltb
       (ProcessInfo.CPUPercent p + ProcessInfo.MemoryPerc p)
       (ProcessInfo.CPUPercent q + ProcessInfo.MemoryPerc q) = false).
Proof.
  split; [vm_compute; reflexivity|]. split; [vm_compute; reflexivity|].
  apply (topProcesses_by_score insertionSort insertionSort_perm insertionSort_sorted).
  repeat constructor.
Defined.

(** C7 with no budget yet (the registry is new) and process 1 reading 2048 KB
    in a second: the read percentage is 2; reading 200 MB in a second, a
    rate of 204800 KB/s, the read percentage is 100. *)
Lemma disk_percentage_2048_KBs :
  systemIOTotal
    (mon (getDetailedProcessInfo (world_io (0, 0)%Z (2097152, 0)%Z)
            initial_State (Build_Process 1)).2) = 0%float /\
  ProcessInfo.DiskReadRate
    (getDetailedProcessInfo (world_io (0, 0)%Z (2097152, 0)%Z)
       (getDetailedProcessInfo (world_io (0, 0)%Z (2097152, 0)%Z)
          initial_State (Build_Process 1)).2
       (Build_Process 1)).1.1 = 2048%float /\
  ProcessInfo.DiskReadPerc
    (getDetailedProcessInfo (world_io (0, 0)%Z (2097152, 0)%Z)
       (getDetailedProcessInfo (world_io (0, 0)%Z (2097152, 0)%Z)
          initial_State (Build_Process 1)).2
       (Build_Process 1)).1.1 = 2%float /\
  ProcessInfo.DiskReadRate
    (getDetailedProcessInfo (world_io (0, 0)%Z (209715200, 0)%Z)
       (getDetailedProcessInfo (world_io (0, 0)%Z (209715200, 0)%Z)
          initial_State (Build_Process 1)).2
       (Build_Process 1)).1.1 = 204800%float /\
  ProcessInfo.DiskReadPerc
    (getDetailedProcessInfo (world_io (0, 0)%Z (209715200, 0)%Z)
       (getDetailedProcessInfo (world_io (0, 0)%Z (209715200, 0)%Z)
          initial_State (Build_Process 1)).2
       (Build_Process 1)).1.1 = 100%float.
Proof.
  split; [reflexivity|]. split; [vm_compute; reflexivity|].
  destruct (disk_percentage nextslicecap insertionSort
    (world_io (0, 0)%Z (2097152, 0)%Z)
    (getDetailedProcessInfo (world_io (0, 0)%Z (2097152, 0)%Z)
       initial_State (Build_Process 1)).2
    (Build_Process 1)) as [Hzero _].
  destruct (Hzero eq_refl) as [(_ & Hbelow & _) _].
  split; [rewrite Hbelow; vm_compute; reflexivity|].
  split; [vm_compute; reflexivity|].
  destruct (disk_percentage nextslicecap insertionSort
    (world_io (0, 0)%Z (209715200, 0)%Z)
    (getDetailedProcessInfo (world_io (0, 0)%Z (209715200, 0)%Z)
       initial_State (Build_Process 1)).2
    (Build_Process 1)) as [Hzero' _].
  destruct (Hzero' eq_refl) as [(_ & _ & Hcap & _) _].
  apply Hcap; vm_compute; reflexivity.
Defined.

(** C9 after a cycle over processes 1, 2 and 3: the series read for process 1
    holds one point; after one more cycle the stored series holds two, and
    the series read holds the same one point. *)
Lemma GetProcessMetrics_independent_three :
  exists v st1,
    GetProcessMetrics nextslicecap
      (UpdateMetrics nextslicecap insertionSort world_three initial_State).2 1
      = (Some v, st1) /\
    series_view
      (heap (UpdateMetrics nextslicecap insertionSort world_three st1).2) v
      = series_view (heap st1) v /\
    length (series_view (heap st1) v).1 = 1 /\
    (fun stored =>
       length (series_view
                 (heap (UpdateMetrics nextslicecap insertionSort world_three st1).2)
                 stored).1) <$>
      processMetrics
        (mon (UpdateMetrics nextslicecap insertionSort world_three st1).2) !! 1%Z
      = Some 2.
Proof.
  destruct (GetProcessMetrics nextslicecap
    (UpdateMetrics nextslicecap insertionSort world_three initial_State).2 1)
    as [[v|] st1] eqn:E; [|by vm_compute in E].
  exists v, st1. split; [done|].
  destruct (GetProcessMetrics_independent nextslicecap nextslicecap_fits
    insertionSort world_three
    (UpdateMetrics nextslicecap insertionSort world_three initial_State).2
    1 v st1) as (_ & _ & Hkeep).
  { apply rtc_once, step_UpdateMetrics. }
  { exact E. }
  split.
  - apply Hkeep, rtc_once, step_UpdateMetrics.
  - vm_compute in E. injection E as <- <-. split; vm_compute; reflexivity.
Defined.

(** C10, amended, on process 1 with 2048 bytes read at instant 0 and 1024 a
    second later: the difference is 2^64 - 1024 and the rate 2^54 KB/s,
    above zero and above 2^48. *)
Lemma counter_decrease_wraps_1024 :
  uint64_sub 1024 2048 = (2 ^ 64 - 1024)%Z /\
  ProcessInfo.DiskReadRate
    (getDetailedProcessInfo (world_io (2048, 0)%Z (1024, 0)%Z)
       (getDetailedProcessInfo (world_io (2048, 0)%Z (1024, 0)%Z)
          initial_State (Build_Process 1)).2
       (Build_Process 1)).1.1 = 18014398509481984%float /\
  float64_gt
    (ProcessInfo.DiskReadRate
       (getDetailedProcessInfo (world_io (2048, 0)%Z (1024, 0)%Z)
          (getDetailedProcessInfo (world_io (2048, 0)%Z (1024, 0)%Z)
             initial_State (Build_Process 1)).2
          (Build_Process 1)).1.1) 0 = true /\
  PrimFloat.ltb 281474976710656
    (ProcessInfo.DiskReadRate
       (getDetailedProcessInfo (world_io (2048, 0)%Z (1024, 0)%Z)
          (getDetailedProcessInfo (world_io (2048, 0)%Z (1024, 0)%Z)
             initial_State (Build_Process 1)).2
          (Build_Process 1)).1.1) = true.
Proof.
  destruct (counter_decrease_wraps (world_io (2048, 0)%Z (1024, 0)%Z)
    (getDetailedProcessInfo (world_io (2048, 0)%Z (1024, 0)%Z)
       initial_State (Build_Process 1)).2
    (Build_Process 1) 1024%Z 0%Z (ProcessIOCounters.Build_t 2048 0 0%Z)
    eq_refl eq_refl eq_refl) as [Hread _].
  destruct Hread as (Hsub & _ & _ & _ & Hrate & Hpos & Hbig); [cbn; lia..|].
  split; [exact Hsub|]. split; [rewrite Hrate; vm_compute; reflexivity|].
  split; [exact Hpos|]. apply Hbig; [cbn; lia|vm_compute; reflexivity].
Defined.

(** C10 as stated fails on process 1 with 2^64 - 1 bytes read at instant 0
    and 0 a second later: the counter has gone down, the difference modulo
    2^64 is 1, and the read rate is 2^-10 KB/s, which is below 1 KB/s. *)
Lemma counter_decrease_small_rate :
  lastProcessIO
    (mon (getDetailedProcessInfo (world_io (18446744073709551615, 0)%Z (0, 0)%Z)
            initial_State (Build_Process 1)).2) !! 1%Z
    = Some (ProcessIOCounters.Build_t 18446744073709551615 0 0%Z) /\
  proc_IOCounters (world_io (18446744073709551615, 0)%Z (0, 0)%Z)
    (6 + tick (getDetailedProcessInfo
                 (world_io (18446744073709551615, 0)%Z (0, 0)%Z)
                 initial_State (Build_Process 1)).2) 1
    = Some (0, 0)%Z /\
  uint64_sub 0 18446744073709551615 = 1%Z /\
  ProcessInfo.DiskReadRate
    (getDetailedProcessInfo (world_io (18446744073709551615, 0)%Z (0, 0)%Z)
       (getDetailedProcessInfo (world_io (18446744073709551615, 0)%Z (0, 0)%Z)
          initial_State (Build_Process 1)).2
       (Build_Process 1)).1.1 = 0.0009765625%float /\
  PrimFloat.ltb 0.0009765625 1 = true.
Proof. vm_compute. split_and!; reflexivity. Qed.

(** C8 on a new registry: two calls for process 7 leave one series, empty
    and of capacity 60. *)
Lemma EnsureProcessMetrics_idempotent_new :
  EnsureProcessMetrics (EnsureProcessMetrics initial_State 7) 7
    = EnsureProcessMetrics initial_State 7 /\
  size (processMetrics (mon (EnsureProcessMetrics
                               (EnsureProcessMetrics initial_State 7) 7))) = 1 /\
  (fun pm => (series_view (heap (EnsureProcessMetrics initial_State 7)) pm,
              s_cap (ProcessMetrics.Timestamps pm))) <$>
    processMetrics (mon (EnsureProcessMetrics initial_State 7)) !! 7%Z
    = Some (([], replicate 8 []), 60).
Proof.
  split; [exact (proj1 (EnsureProcessMetrics_idempotent initial_State 7))|].
  split; vm_compute; reflexivity.
Defined.

(** * The properties of the registry at concrete inputs *)

(** The state after one cycle. *)
Local Abbreviation cycle w st := (UpdateMetrics nextslicecap insertionSort w st).2.

(** X1 after a cycle over processes 1, 2 and 3: the series read for process
    1 has nine slices of length 1. *)
Lemma series_columns_aligned_three :
  exists v st1,
    GetProcessMetrics nextslicecap (cycle world_three initial_State) 1 = (Some v, st1) /\
    s_len (ProcessMetrics.Timestamps v) = 1 /\
    Forall (fun s => s_len s = s_len (ProcessMetrics.Timestamps v))
      (ProcessMetrics.floats v) /\
    Forall (fun column => length column = s_len (ProcessMetrics.Timestamps v))
      (series_view (heap st1) v).2.
Proof.
  destruct (GetProcessMetrics nextslicecap (cycle world_three initial_State) 1)
    as [[v|] st1] eqn:E; [|vm_compute in E; discriminate E].
  exists v, st1. split; [reflexivity|].
  destruct (series_columns_aligned nextslicecap nextslicecap_fits insertionSort
              insertionSort_perm world_three (cycle world_three initial_State) 1 v st1
              (rtc_once _ _ (step_UpdateMetrics _ _ _ _)) E)
    as (Hf & _ & Hc & _).
  split; [|split; [exact Hf|exact Hc]].
  clear Hf Hc. vm_compute in E. injection E as <- _. reflexivity.
Defined.

(** X2 after that cycle: recording process 1 once more gives its series a
    second point, and leaves the series of process 2 with its one point. *)
Lemma updateProcessTimeSeriesMetrics_records_three :
  (fun view => length view.1) <$>
    stored_view
      (updateProcessTimeSeriesMetrics nextslicecap world_three
         (cycle world_three initial_State)
         (getBasicProcessInfo world_three initial_State (Build_Process 1)).1.1) 1
    = Some 2 /\
  (fun view => length view.1) <$>
    stored_view
      (updateProcessTimeSeriesMetrics nextslicecap world_three
         (cycle world_three initial_State)
         (getBasicProcessInfo world_three initial_State (Build_Process 1)).1.1) 2
    = Some 1.
Proof.
  split;
    (rewrite (updateProcessTimeSeriesMetrics_records nextslicecap nextslicecap_fits
                insertionSort insertionSort_perm world_three
                (cycle world_three initial_State));
     [vm_compute; reflexivity|exact (rtc_once _ _ (step_UpdateMetrics _ _ _ _))]).
Defined.

(** X3 on the first cycle over processes 1, 2 and 3: the three published
    processes are the three recorded ones, and process 7, which is not
    published, has no series after the cycle as it had none before. *)
Lemma UpdateMetrics_records_published_three :
  exists samples,
    GetProcesses (cycle world_three initial_State) ≡ₚ samples.*2 /\
    length samples = 3 /\
    stored_view (cycle world_three initial_State) 1
      = record_samples 1 samples (stored_view initial_State 1) /\
    stored_view (cycle world_three initial_State) 7 = None.
Proof.
  destruct (UpdateMetrics_records_published nextslicecap nextslicecap_fits
              insertionSort insertionSort_perm world_three initial_State
              (rtc_refl _ _))
    as (samples & Hperm & Hview & Hout).
  { vm_compute. reflexivity. }
  exists samples. split; [exact Hperm|]. split; [|split; [apply Hview|]].
  - apply Permutation_length in Hperm. rewrite length_fmap in Hperm.
    rewrite <- Hperm. vm_compute. reflexivity.
  - rewrite Hout; [reflexivity|]. apply (bool_decide_unpack _). vm_compute. exact I.
Defined.

(** X4 in the first cycle over processes 1, 2 and 3: run alone, it leaves
    the first process of its list with a series of one point; overlapped by
    a cleanup before its publication, it publishes the three processes and
    process 1 has no series. *)
Lemma published_processes_have_history_three :
  (exists p v st1,
     GetProcesses (cycle world_three initial_State) !! 0 = Some p /\
     GetProcessMetrics nextslicecap (cycle world_three initial_State)
       (ProcessInfo.PID p) = (Some v, st1) /\
     0 < s_len (ProcessMetrics.Timestamps v)) /\
  ProcessInfo.PID <$>
    GetProcesses
      (UpdateMetrics_overlapped nextslicecap insertionSort world_three
         CleanupOldMetrics initial_State).2 = [1; 2; 3]%Z /\
  (GetProcessMetrics nextslicecap
     (UpdateMetrics_overlapped nextslicecap insertionSort world_three
        CleanupOldMetrics initial_State).2 1).1 = None.
Proof.
  destruct (published_processes_have_history nextslicecap nextslicecap_fits
              insertionSort insertionSort_perm world_three initial_State
              (rtc_refl _ _)) as [Halone Hover].
  split.
  - destruct (GetProcesses (cycle world_three initial_State) !! 0) as [p|] eqn:Hp;
      [|vm_compute in Hp; discriminate Hp].
    destruct (Halone eq_refl p (list_elem_of_lookup_2 _ _ _ Hp))
      as (v & st1 & Hget & Hlen & _).
    exists p, v, st1. split; [reflexivity|]. split; [exact Hget|exact Hlen].
  - split; [vm_compute; reflexivity|].
    destruct (GetProcesses
                (UpdateMetrics_overlapped nextslicecap insertionSort world_three
                   CleanupOldMetrics initial_State).2 !! 0) as [p|] eqn:Hp;
      [|vm_compute in Hp; discriminate Hp].
    assert (ProcessInfo.PID p = 1%Z) as Hpid.
    { vm_compute in Hp. injection Hp as <-. reflexivity. }
    pose proof (Hover eq_refl p (list_elem_of_lookup_2 _ _ _ Hp)) as Hnone.
    rewrite Hpid in Hnone. rewrite Hnone; [reflexivity|].
    cbn. apply not_elem_of_nil.
Defined.


(** X5 under a context that is done after the first pass of the first
    cycle: the first cycle completes and publishes three processes; the
    second returns the context's error, wrapped, and the three processes are
    still published, their series as they were. *)
Lemma UpdateMetrics_error_keeps_registry_cancelled :
  (UpdateMetrics nextslicecap insertionSort world_cancelled
     (cycle world_cancelled initial_State)).1
    = Some (ErrWrap "failed to update process metrics" ErrCanceled) /\
  GetProcesses (cycle world_cancelled (cycle world_cancelled initial_State))
    = GetProcesses (cycle world_cancelled initial_State) /\
  length (GetProcesses (cycle world_cancelled initial_State)) = 3 /\
  processMetrics (mon (cycle world_cancelled (cycle world_cancelled initial_State)))
    = processMetrics (mon (cycle world_cancelled initial_State)).
Proof.
  assert ((UpdateMetrics nextslicecap insertionSort world_cancelled
             (cycle world_cancelled initial_State)).1
          = Some (ErrWrap "failed to update process metrics" ErrCanceled)) as Herr
    by (vm_compute; reflexivity).
  destruct (UpdateMetrics_error_keeps_registry nextslicecap insertionSort
              world_cancelled (cycle world_cancelled initial_State) _ Herr)
    as (_ & Hp & _ & Hm & _).
  split; [exact Herr|]. split; [exact Hp|]. split; [|exact Hm].
  vm_compute. reflexivity.
Defined.

(** X6 on the two cycles of a world in which process 1 exits after the
    first: the second cycle enumerates 3 and 2, and publishes and caches
    handles for no other pid. *)
Lemma published_pids_enumerated_exit :
  exists pids,
    pids = [3; 2]%Z /\
    ProcessInfo.PID <$>
      GetProcesses (cycle world_exit (cycle world_exit initial_State)) ⊆ pids /\
    lastProcessStats (mon (cycle world_exit (cycle world_exit initial_State))) !! 1%Z
      = None.
Proof.
  destruct (published_pids_enumerated nextslicecap insertionSort insertionSort_perm
              world_exit (cycle world_exit initial_State)
              (rtc_once _ _ (step_UpdateMetrics _ _ _ _)))
    as (pids & Hpids & Hpub & Hcache).
  { vm_compute. reflexivity. }
  exists pids. vm_compute in Hpids. injection Hpids as <-.
  split; [reflexivity|]. split.
  - intros pid (p & -> & Hp)%list_elem_of_fmap. exact (Hpub p Hp).
  - destruct (lastProcessStats
                (mon (cycle world_exit (cycle world_exit initial_State))) !! 1%Z)
      as [proc|] eqn:E; [|reflexivity].
    destruct (Hcache _ _ E) as [Hin _]. exfalso. revert Hin. clear.
    apply (bool_decide_unpack _). vm_compute. exact I.
Defined.

(** X7 with two hundred live processes, all of which can be opened: the
    first cycle completes and publishes 150. *)
Lemma all_open_published_count_200 :
  (UpdateMetrics nextslicecap insertionSort world_many initial_State).1 = None /\
  length (GetProcesses (cycle world_many initial_State)) = 150.
Proof.
  destruct (all_open_published_count nextslicecap insertionSort insertionSort_perm
              world_many initial_State [12.5%float]
              (Build_VirtualMemoryStat 50 8589934592 4294967296)
              (Z.of_nat <$> seq 1 200) (rtc_refl _ _) eq_refl eq_refl eq_refl
              (fun _ => eq_refl) (fun _ _ _ => eq_refl)) as [Hnone Hlen].
  split; [exact Hnone|]. rewrite Hlen. vm_compute. reflexivity.
Defined.

(** X8 in a world in which process 1 exits after the first cycle: after the
    second cycle and a cleanup the series of process 1 is gone, and its I/O
    counters are still cached. *)
Lemma lastProcessIO_never_pruned_exit :
  processMetrics
    (mon (CleanupOldMetrics (cycle world_exit (cycle world_exit initial_State))))
    !! 1%Z = None /\
  1%Z ∈ dom (lastProcessIO
               (mon (CleanupOldMetrics
                       (cycle world_exit (cycle world_exit initial_State))))).
Proof.
  split; [vm_compute; reflexivity|].
  destruct (lastProcessIO_never_pruned nextslicecap insertionSort world_exit
              (cycle world_exit initial_State)
              (CleanupOldMetrics (cycle world_exit (cycle world_exit initial_State)))
              (rtc_l _ _ _ _ (step_UpdateMetrics _ _ _ _)
                 (rtc_once _ _ (step_CleanupOldMetrics _ _ _ _))))
    as [Hdom _].
  apply Hdom. apply elem_of_dom. vm_compute. eexists. reflexivity.
Defined.

(** X9 after a cycle over processes 1, 2 and 3: the first published process
    is reported with no network traffic. *)
Lemma published_no_network_three :
  exists p,
    GetProcesses (cycle world_three initial_State) !! 0 = Some p /\ no_network p.
Proof.
  destruct (GetProcesses (cycle world_three initial_State) !! 0) as [p|] eqn:Hp;
    [|vm_compute in Hp; discriminate Hp].
  exists p. split; [reflexivity|].
  exact (published_no_network nextslicecap insertionSort insertionSort_perm
           world_three (cycle world_three initial_State) p
           (rtc_once _ _ (step_UpdateMetrics _ _ _ _))
           (list_elem_of_lookup_2 _ _ _ Hp)).
Defined.

(** X10 on processes 3, 1 and 2, enumerated in this order, once the sorting
    is set to the pid, ascending: the cycle publishes 1, 2, 3. *)
Lemma UpdateMetrics_sorts_ascending_three :
  ProcessInfo.PID <$>
    GetProcesses (cycle world_three (SetSorting initial_State SortByPID false))
    = [1; 2; 3]%Z /\
  StronglySorted (fun p q => (ProcessInfo.PID p <= ProcessInfo.PID q)%Z)
    (GetProcesses (cycle world_three (SetSorting initial_State SortByPID false))).
Proof.
  split; [vm_compute; reflexivity|].
  refine (proj1 (UpdateMetrics_sorts_ascending nextslicecap insertionSort
                   insertionSort_perm insertionSort_sorted world_three
                   (SetSorting initial_State SortByPID false) _ eq_refl) eq_refl).
  vm_compute. reflexivity.
Defined.

(** X11 after a cycle over processes 1, 2 and 3: the current data of process
    1 is returned, and its series has a second point. *)
Lemma GetCurrentProcessData_records_three :
  exists processInfo,
    (GetCurrentProcessData nextslicecap world_three
       (cycle world_three initial_State) 1).1 = (Some processInfo, None) /\
    ProcessInfo.PID processInfo = 1%Z /\
    (fun view => length view.1) <$>
      stored_view
        (GetCurrentProcessData nextslicecap world_three
           (cycle world_three initial_State) 1).2 1 = Some 2.
Proof.
  destruct (GetCurrentProcessData_records nextslicecap nextslicecap_fits
              insertionSort insertionSort_perm world_three
              (cycle world_three initial_State) 1
              (rtc_once _ _ (step_UpdateMetrics _ _ _ _))) as [_ Hopen].
  assert (process_NewProcess world_three (tick (cycle world_three initial_State)) 1
          = true) as Ho by reflexivity.
  destruct (Hopen Ho) as (processInfo & Hret & Hpid & _ & Hview).
  exists processInfo. split; [exact Hret|]. split; [exact Hpid|].
  rewrite Hview. vm_compute. reflexivity.
Defined.
